(** * Gamma Archiver: a shallow embedding of the sync orchestrator's
      supporting code and the properties its specification states.

    The development follows the TypeScript sources module by module:

    - [Rest]      [apiReq] of [discord-api/rest.ts]: the retry loop;
    - [Gateway]   [GatewayConnection] of
                  [discord-api/gateway/connection.ts]: its handlers;
    - [Encoding]  [encodeSnowflakeArray] / [decodeSnowflakeArray] of
                  [db/generic-encoding.ts];
    - [Db]        the prepared statements, [addSnapshot] and the reaction
                  requests of [db/request-handler.ts];
    - [Sync]      [syncMessages] of [archiver/index.ts]: the backfill loop;
    - [Cache]     the cached guilds and channels, the permission sets and
                  the per-account registries of ongoing operations;
    - [Objects]   [encodeObject] / [decodeObject] of
                  [db/generic-encoding.ts] over the schemas, and the
                  objects that the snapshot requests bind.

    JavaScript [bigint]s are [Z] (or [N] where the code only ever holds
    unsigned values), [number]s holding integers are [Z], byte arrays are
    lists of [Z] in [0, 256), insertion-ordered [Set]s and [Map]s are
    duplicate-free lists and association lists, SQL rows and the objects
    bound to prepared statements are finite maps from column names. *)

From Stdlib Require Import ZArith List String Ascii Lia Bool Sorted.
From Stdlib Require Import DecimalString DecimalN.
From stdpp Require Import base option list sorting gmap strings.
Import ListNotations.

(** JavaScript exceptions, by constructor, and the result of a call that
    may throw. *)
Variant jsError :=
| SyntaxError
| TypeError (message : string)
| RangeError (message : string)
| OtherError (message : string).

Variant result (A : Type) :=
| Ok (a : A)
| Throw (e : jsError).
Arguments Ok {A} a.
Arguments Throw {A} e.

Definition bind {A B} (r : result A) (k : A -> result B) : result B :=
  match r with
  | Ok a => k a
  | Throw e => Throw e
  end.

Notation "'let*' x ':=' r 'in' k" := (bind r (fun x => k))
  (at level 10, x name, r at level 100, k at level 200).

(* ===================================================================== *)
(** ** [discord-api/rest.ts]: the request pipeline *)
(* ===================================================================== *)

Module Rest.
Local Open Scope Z_scope.

(** The exceptions the loop of [apiReq] tells apart. *)
Variant exn :=
| ExAbort       (* [isFetchAbortError(err)] *)
| ExTypeError   (* [err instanceof TypeError]: undici's network failure *)
| ExOther.

(** What [await response.json()] does. *)
Variant body (T : Type) :=
| BodyJson (data : T)
| BodySyntaxError
| BodyThrows (e : exn).
Arguments BodyJson {T} data.
Arguments BodySyntaxError {T}.
Arguments BodyThrows {T} e.

(** The part of a [Response] that [apiReq] reads.  [reset_after_ms] is
    [Number.parseFloat(x-ratelimit-reset-after) * 1000]. *)
Record response (T : Type) := {
  status : Z;
  ratelimit_remaining : option string;
  reset_after_ms : Z;
  json : body T;
}.
Arguments status {T} _.
Arguments ratelimit_remaining {T} _.
Arguments reset_after_ms {T} _.
Arguments json {T} _.

Definition ok {T} (r : response T) : bool :=
  (200 <=? status r) && (status r <=? 299).

(** One turn of the [while (true)] loop as the outside world decides it:
    what [fetch] does, whether [controller.signal.aborted] holds when the
    turn falls through to the back-off, and whether the signal fires while
    [timeout(interval, signal)] is pending. *)
Variant fetched (T : Type) :=
| Responded (r : response T)
| FetchThrows (e : exn).
Arguments Responded {T} r.
Arguments FetchThrows {T} e.

Record attempt (T : Type) := {
  fetch : fetched T;
  aborted_after : bool;
  aborted_in_wait : bool;
}.
Arguments fetch {T} _.
Arguments aborted_after {T} _.
Arguments aborted_in_wait {T} _.

(** [rateLimitReset]: [None] is [undefined], [Some 0] an already resolved
    promise, [Some ms] a timer of [ms] milliseconds. *)
Record RequestResult (T : Type) := {
  res_status : Z;
  data : option T;
  rateLimitReset : option Z;
}.
Arguments res_status {T} _.
Arguments data {T} _.
Arguments rateLimitReset {T} _.

Variant outcome (T : Type) :=
| Returned (r : RequestResult T)
| ThrewAbort                     (* [throw abortError] *)
| ThrewOther                     (* [throw err] *)
| Pending.                       (* the scripted attempts ran out *)
Arguments Returned {T} r.
Arguments ThrewAbort {T}.
Arguments ThrewOther {T}.
Arguments Pending {T}.

Definition rateLimitResetOf {T} (r : response T) : option Z :=
  match ratelimit_remaining r with
  | None => None
  | Some s => if String.eqb s "0" then Some (reset_after_ms r) else Some 0
  end.

(** [interval = Math.max(interval + 2_000, 60_000)] *)
Definition nextInterval (interval : Z) : Z := Z.max (interval + 2000) 60000.

(** The loop of [apiReq].  [waits] collects, oldest first, the argument of
    every [timeout(interval, ...)] the loop awaits. *)
Fixpoint apiReqLoop {T} (abortIfFail : bool) (interval : Z)
    (script : list (attempt T)) (waits : list Z) : outcome T * list Z :=
  match script with
  | [] => (Pending, waits)
  | a :: script' =>
    let backoff :=
      if aborted_after a then (ThrewAbort, waits)
      else if aborted_in_wait a then (ThrewAbort, waits ++ [interval])
      else apiReqLoop abortIfFail (nextInterval interval) script'
             (waits ++ [interval]) in
    let caught (e : exn) :=
      match e with
      | ExAbort => (ThrewAbort, waits)
      | ExTypeError => backoff
      | ExOther => (ThrewOther, waits)
      end in
    match fetch a with
    | FetchThrows e => caught e
    | Responded r =>
      if status r =? 429 then backoff
      else if (500 <=? status r) && (status r <? 600) then backoff
      else
        let reset := rateLimitResetOf r in
        if abortIfFail && negb (ok r) then
          (Returned {| res_status := status r; data := None;
                       rateLimitReset := reset |}, waits)
        else
          match json r with
          | BodyJson d =>
            (Returned {| res_status := status r; data := Some d;
                         rateLimitReset := reset |}, waits)
          | BodySyntaxError =>
            (Returned {| res_status := status r; data := None;
                         rateLimitReset := reset |}, waits)
          | BodyThrows e => caught e
          end
    end
  end.

(** [apiReq(endpoint, options, abortIfFail)]: [let interval = 0] and the
    loop. *)
Definition apiReq {T} (abortIfFail : bool) (script : list (attempt T))
  : outcome T * list Z :=
  apiReqLoop abortIfFail 0 script [].

(** A turn that ends in the back-off: a 5xx answer or a network failure,
    with no abort around it. *)
Definition serverError {T} (code : Z) : attempt T :=
  {| fetch := Responded {| status := code; ratelimit_remaining := None;
                           reset_after_ms := 0; json := BodySyntaxError |};
     aborted_after := false; aborted_in_wait := false |}.




(** The interval the specification describes: 0, 2000, 4000, ... capped
    at 60000. *)
Definition specWaitAfter (k : nat) : Z := Z.min (2000 * Z.of_nat k) 60000.





(** C4 (the code departs from it). Three 503 answers in a row, then the
    scripted attempts end: the loop has waited 0 ms, then 60000 ms, then
    62000 ms, where the specification's back-off waits 0, 2000 and 4000 ms
    and never more than 60000 ms. *)
Lemma apiReq_backoff_jumps_to_60000 :
  snd (apiReq (T := unit) false
         [serverError 503; serverError 503; serverError 503])
    = [0; 60000; 62000]
  /\ map specWaitAfter (seq 0 3) = [0; 2000; 4000].
Proof. split; reflexivity. Qed.


(** The loop, from any interval and any waits made so far. *)
Lemma apiReqLoop_returns {T} abortIfFail (script : list (attempt T)) :
  forall interval waits r,
  fst (apiReqLoop abortIfFail interval script waits) = Returned r ->
  res_status r <> 429 /\ ~ (500 <= res_status r < 600) /\
  (abortIfFail = true -> ~ (200 <= res_status r <= 299) -> data r = None).
Proof.
  induction script as [|a script IH]; intros interval waits r; cbn [apiReqLoop];
    [discriminate|].
  assert (Hbackoff :
    fst (if aborted_after a then (ThrewAbort, waits)
         else if aborted_in_wait a then (ThrewAbort, waits ++ [interval])
         else apiReqLoop abortIfFail (nextInterval interval) script
                (waits ++ [interval])) = Returned r ->
    res_status r <> 429 /\ ~ (500 <= res_status r < 600) /\
    (abortIfFail = true -> ~ (200 <= res_status r <= 299) -> data r = None)).
  { destruct (aborted_after a); [discriminate|].
    destruct (aborted_in_wait a); [discriminate|]. apply IH. }
  destruct (fetch a) as [resp|[| |]]; try discriminate; [|exact Hbackoff].
  destruct (Z.eqb_spec (status resp) 429) as [|H429]; [exact Hbackoff|].
  destruct ((500 <=? status resp) && (status resp <? 600)) eqn:H5xx;
    [exact Hbackoff|].
  assert (Hstatus : status resp <> 429 /\ ~ (500 <= status resp < 600))
    by (split; [exact H429|lia]).
  destruct abortIfFail; cbn [andb].
  - unfold ok. destruct ((200 <=? status resp) && (status resp <=? 299)) eqn:Hok;
      cbn [negb].
    + destruct (json resp) as [d| |[| |]]; try discriminate; try exact Hbackoff;
        intros [= <-]; cbn [res_status data];
        (split; [apply Hstatus|split; [apply Hstatus|intros _ Hnot; lia]]).
    + intros [= <-]. cbn [res_status data].
      split; [apply Hstatus|split; [apply Hstatus|reflexivity]].
  - destruct (json resp) as [d| |[| |]]; try discriminate; try exact Hbackoff;
      intros [= <-]; cbn [res_status data];
      (split; [apply Hstatus|split; [apply Hstatus|discriminate]]).
Qed.

(** What a call hands back is never a 429 nor a 5xx answer (those are
    retried, however many come), and with [abortIfFail] an answer that is
    not OK comes back without its body. *)
Theorem apiReq_returns {T} abortIfFail (script : list (attempt T)) r :
  fst (apiReq abortIfFail script) = Returned r ->
  res_status r <> 429 /\ ~ (500 <= res_status r < 600) /\
  (abortIfFail = true -> ~ (200 <= res_status r <= 299) -> data r = None).
Proof. apply apiReqLoop_returns. Qed.

(** A 404 that follows a 429 and a 503, asked with [abortIfFail]. *)
Definition notFound : attempt unit :=
  {| fetch := Responded {| status := 404; ratelimit_remaining := Some "4";
                           reset_after_ms := 0; json := BodyJson tt |};
     aborted_after := false; aborted_in_wait := false |}.

Lemma apiReq_returns_witness :
  res_status {| res_status := 404; data := @None unit; rateLimitReset := Some 0 |}
    <> 429 /\
  ~ (500 <= res_status {| res_status := 404; data := @None unit;
                          rateLimitReset := Some 0 |} < 600) /\
  (true = true ->
   ~ (200 <= res_status {| res_status := 404; data := @None unit;
                           rateLimitReset := Some 0 |} <= 299) ->
   data {| res_status := 404; data := @None unit; rateLimitReset := Some 0 |}
   = None).
Proof.
  apply (apiReq_returns true [serverError 429; serverError 503; notFound]).
  reflexivity.
Defined.

End Rest.

(* ===================================================================== *)
(** ** [discord-api/gateway/connection.ts]: the gateway connection *)
(* ===================================================================== *)

Module Gateway.
Local Open Scope string_scope.
Local Open Scope list_scope.
Local Open Scope Z_scope.

Variant ConnectionState := CONNECTING | IDENTIFYING | READY | DESTROYED.

Record ResumeState := { url : string; sessionID : string; seq : Z }.

(** The payloads that the server sends, by opcode, with the fields that
    the connection reads: [t] and [s] of a dispatch and, read when [t] is
    [READY] only, [d.resume_gateway_url] and [d.session_id]. *)
Variant receivePayload :=
| Dispatch (t : string) (s : Z) (resume_gateway_url session_id : string)
| Hello (heartbeat_interval : Z)
| Heartbeat
| HeartbeatAck
| InvalidSession (d : bool)
| Reconnect
| OtherOpcode (op : Z).

(** The payloads that the connection sends of its own; the identify data
    and its token do not change and are left out. *)
Variant sentPayload :=
| HeartbeatPayload (d : Z)
| IdentifyPayload
| ResumePayload (session_id : string) (resumed_seq : Z).

Variant gatewayError :=
| Error (message : string)
| GatewayCloseError (code : Z).

(** What a handler does to the outside: the events it emits, the timers
    it sets and clears, the socket it closes, the calls of [#sendPayload]
    (which waits for the rate limiter before it sends) and the part of
    [#connect] after its [await], which opens the socket. *)
Variant effect :=
| emit_connecting
| emit_payloadReceived (payload : receivePayload)
| emit_dispatch (payload : receivePayload) (isLive : bool)
| emit_error (error : gatewayError)
| emit_sessionLost
| emit_connectionLost (wasConnected : bool) (code : Z)
| emit_decodingError
| clearTimeout_heartbeat
| setTimeout_heartbeat (interval : Z) (jittered : bool)
| setTimeout_connect (ms : Z)
| ws_close (socket : nat) (code : Z)
| call_sendPayload (payload : sentPayload)
| await_connect.

(** The fields of a [GatewayConnection] that its handlers read; sockets
    are told apart by a number. *)
Record connection := {
  reidentify : bool;
  ws : option nat;
  resumeState : option ResumeState;
  state : ConnectionState;
  live : bool;
  wasHeartbeatAcknowledged : bool;
}.

#[global] Instance ConnectionState_eq_dec : EqDecision ConnectionState.
Proof. solve_decision. Defined.

Definition set_ws (w : option nat) (c : connection) : connection :=
  {| reidentify := reidentify c; ws := w; resumeState := resumeState c;
     state := state c; live := live c;
     wasHeartbeatAcknowledged := wasHeartbeatAcknowledged c |}.

Definition set_resumeState (r : option ResumeState) (c : connection) : connection :=
  {| reidentify := reidentify c; ws := ws c; resumeState := r;
     state := state c; live := live c;
     wasHeartbeatAcknowledged := wasHeartbeatAcknowledged c |}.

Definition set_state (s : ConnectionState) (c : connection) : connection :=
  {| reidentify := reidentify c; ws := ws c; resumeState := resumeState c;
     state := s; live := live c;
     wasHeartbeatAcknowledged := wasHeartbeatAcknowledged c |}.

Definition set_live (l : bool) (c : connection) : connection :=
  {| reidentify := reidentify c; ws := ws c; resumeState := resumeState c;
     state := state c; live := l;
     wasHeartbeatAcknowledged := wasHeartbeatAcknowledged c |}.

Definition set_wasHeartbeatAcknowledged (a : bool) (c : connection) : connection :=
  {| reidentify := reidentify c; ws := ws c; resumeState := resumeState c;
     state := state c; live := live c; wasHeartbeatAcknowledged := a |}.

(** The fields as the constructor leaves them; [#connect()] is called at
    the next tick. *)
Definition GatewayConnection (resumeState : option ResumeState)
    (reidentify : option bool) : connection :=
  {| reidentify := default true reidentify; ws := None;
     resumeState := resumeState; state := CONNECTING; live := true;
     wasHeartbeatAcknowledged := true |}.

(** A method: the connection after it and what it did, in order. *)
Definition method : Type := connection -> connection * list effect.

Definition skip : method := fun c => (c, []).

Definition effect_ (e : effect) : method := fun c => (c, [e]).

Definition assign (f : connection -> connection) : method := fun c => (f c, []).

Definition andThen (m1 m2 : method) : method :=
  fun c => let r1 := m1 c in let r2 := m2 r1.1 in (r2.1, r1.2 ++ r2.2).

Notation "m1 ;> m2" := (andThen m1 m2) (at level 65, right associativity).

Definition stopHeartbeating : method := effect_ clearTimeout_heartbeat.

Definition disconnect (code : Z) : method :=
  stopHeartbeating ;>
  (fun c => match ws c with
            | Some socket => effect_ (ws_close socket code) c
            | None => skip c
            end) ;>
  assign (set_ws None).

Definition error (err : gatewayError) : method :=
  effect_ (emit_error err) ;> disconnect 4000.

(** [#connect()] up to its [await]; the socket is opened after it. *)
Definition connect : method :=
  effect_ emit_connecting ;>
  assign (set_state CONNECTING) ;>
  assign (set_wasHeartbeatAcknowledged true) ;>
  effect_ await_connect.

Definition reconnect (code : Z) : method := disconnect code ;> connect.

Definition onClose (code : Z) : method :=
  if (code <? 4000) || ((4000 <=? code) && (code <? 4010) && negb (code =? 4004))
  then
    stopHeartbeating ;>
    (fun c => match ws c with
              | Some _ =>
                (effect_ (emit_connectionLost
                            (negb (bool_decide (state c = CONNECTING))) code) ;>
                 effect_ (setTimeout_connect 1000)) c
              | None => skip c
              end) ;>
    assign (set_ws None)
  else error (GatewayCloseError code).

Definition sendHeartbeat : method :=
  fun c => effect_ (call_sendPayload
                      (HeartbeatPayload
                         (match resumeState c with Some r => seq r | None => 0 end))) c.

(** The first heartbeat is due after [interval * Math.random()]. *)
Definition startHeartbeating (interval : Z) : method :=
  effect_ (setTimeout_heartbeat interval true).

Definition resumeOrIdentify : method :=
  assign (set_state IDENTIFYING) ;>
  (fun c => match resumeState c with
            | None =>
              (assign (set_live true) ;> effect_ (call_sendPayload IdentifyPayload)) c
            | Some r =>
              (assign (set_live false) ;>
               effect_ (call_sendPayload (ResumePayload (sessionID r) (seq r)))) c
            end).

Definition destroy : method :=
  disconnect 1000 ;> assign (set_state DESTROYED).

Definition onPayload (payload : receivePayload) : method :=
  effect_ (emit_payloadReceived payload) ;>
  (fun c =>
     if bool_decide (state c = DESTROYED) then skip c
     else
       match payload with
       | Dispatch t s resume_gateway_url session_id =>
         ((if String.eqb t "READY" then
             assign (set_state READY) ;>
             assign (set_resumeState
                       (Some {| url := resume_gateway_url;
                                sessionID := session_id; seq := 0 |}))
           else skip) ;>
          (fun c =>
             match resumeState c with
             | None =>
               error (Error "The first dispatched event was not the READY event.") c
             | Some r =>
               (assign (set_resumeState
                          (Some {| url := url r; sessionID := sessionID r;
                                   seq := s |})) ;>
                (fun c => effect_ (emit_dispatch payload (live c)) c)) c
             end)) c
       | Hello heartbeat_interval =>
         ((fun c => if negb (bool_decide (state c = CONNECTING))
                    then error (Error "Got hello opcode twice.") c
                    else skip c) ;>
          startHeartbeating heartbeat_interval ;>
          resumeOrIdentify) c
       | Heartbeat => sendHeartbeat c
       | HeartbeatAck => assign (set_wasHeartbeatAcknowledged true) c
       | InvalidSession d =>
         if negb d then
           (effect_ emit_sessionLost ;>
            assign (set_resumeState None) ;>
            (fun c => if reidentify c then resumeOrIdentify c else destroy c)) c
         else resumeOrIdentify c
       | Reconnect => reconnect 4000 c
       | OtherOpcode _ => skip c
       end).

(** The handler of the heartbeat timer. *)
Definition heartbeatHandler (interval : Z) : method :=
  fun c =>
    if wasHeartbeatAcknowledged c then
      (effect_ (setTimeout_heartbeat interval false) ;>
       assign (set_wasHeartbeatAcknowledged false) ;>
       sendHeartbeat) c
    else reconnect 4000 c.

(** [sendPayload(payload)], the public method. *)
Definition sendPayload (payload : sentPayload) (c : connection)
  : result (list effect) :=
  if negb (bool_decide (state c = READY)) then
    Throw (OtherError "The connection isn't ready yet")
  else if bool_decide (ws c = None) then
    Throw (OtherError "There is currently no connection")
  else Ok [call_sendPayload payload].

(** What happens to a connection: a message of the socket that decodes
    to a payload, one that does not decode, the close of a socket, the
    timers that fire, the socket that [#connect] opens after its [await],
    a call of [destroy]. *)
Variant event :=
| ws_message (payload : receivePayload)
| ws_message_undecodable
| ws_closed (socket : nat) (code : Z)
| heartbeat_timeout (interval : Z)
| connect_timeout
| connect_resumed (socket : nat)
| destroy_called.

Definition handle (e : event) : method :=
  match e with
  | ws_message payload => onPayload payload
  | ws_message_undecodable => effect_ emit_decodingError ;> reconnect 1000
  | ws_closed socket code =>
    fun c => if bool_decide (ws c = Some socket) then onClose code c else skip c
  | heartbeat_timeout interval => heartbeatHandler interval
  | connect_timeout => connect
  | connect_resumed socket => assign (set_ws (Some socket))
  | destroy_called => destroy
  end.

Fixpoint run (events : list event) : method :=
  match events with
  | [] => skip
  | e :: events' => handle e ;> run events'
  end.

(** *** Events after a resume *)

Definition isDispatch (isLive : bool) (e : effect) : Prop :=
  exists payload, e = emit_dispatch payload isLive.

(** The connection has a session to resume and is not live. *)
Definition resumed (c : connection) : Prop :=
  resumeState c <> None /\ live c = false.

(** The method keeps a resumed connection resumed and emits no live
    dispatch. *)
Definition keepsResumed (m : method) : Prop :=
  forall c, resumed c ->
    resumed (m c).1 /\ Forall (fun e => ~ isDispatch true e) (m c).2.

Lemma keepsResumed_skip : keepsResumed skip.
Proof. intros c Hc. split; [exact Hc|constructor]. Qed.

Lemma keepsResumed_effect e : ~ isDispatch true e -> keepsResumed (effect_ e).
Proof. intros He c Hc. split; [exact Hc|]. repeat constructor. exact He. Qed.

Lemma keepsResumed_assign f :
  (forall c, resumed c -> resumed (f c)) -> keepsResumed (assign f).
Proof. intros Hf c Hc. split; [apply Hf, Hc|constructor]. Qed.

Lemma keepsResumed_andThen m1 m2 :
  keepsResumed m1 -> keepsResumed m2 -> keepsResumed (m1 ;> m2).
Proof.
  intros H1 H2 c Hc. unfold andThen. cbn [fst snd].
  destruct (H1 c Hc) as [Hc1 He1]. destruct (H2 _ Hc1) as [Hc2 He2].
  split; [exact Hc2|]. apply Forall_app. split; assumption.
Qed.

Lemma not_live_dispatch e :
  match e with emit_dispatch _ true => False | _ => True end ->
  ~ isDispatch true e.
Proof. intros He [p ->]. exact He. Qed.

Ltac keeps :=
  repeat first
    [ apply keepsResumed_andThen
    | apply keepsResumed_skip
    | apply keepsResumed_effect; apply not_live_dispatch; exact I
    | apply keepsResumed_assign; intros ? [? ?]; split; assumption ].

Lemma keepsResumed_disconnect code : keepsResumed (disconnect code).
Proof.
  unfold disconnect, stopHeartbeating. keeps.
  intros c Hc. destruct (ws c); [apply keepsResumed_effect|apply keepsResumed_skip];
    try exact Hc. apply not_live_dispatch. exact I.
Qed.

Lemma keepsResumed_connect : keepsResumed connect.
Proof. unfold connect. keeps. Qed.

Lemma keepsResumed_reconnect code : keepsResumed (reconnect code).
Proof.
  unfold reconnect. apply keepsResumed_andThen;
    [apply keepsResumed_disconnect|apply keepsResumed_connect].
Qed.

Lemma keepsResumed_error err : keepsResumed (error err).
Proof.
  unfold error. apply keepsResumed_andThen; [keeps|apply keepsResumed_disconnect].
Qed.

Lemma keepsResumed_destroy : keepsResumed destroy.
Proof.
  unfold destroy. apply keepsResumed_andThen; [apply keepsResumed_disconnect|keeps].
Qed.

Lemma keepsResumed_sendHeartbeat : keepsResumed sendHeartbeat.
Proof.
  intros c Hc. unfold sendHeartbeat. apply keepsResumed_effect; [|exact Hc].
  apply not_live_dispatch. exact I.
Qed.

Lemma keepsResumed_resumeOrIdentify : keepsResumed resumeOrIdentify.
Proof.
  unfold resumeOrIdentify. apply keepsResumed_andThen; [keeps|].
  intros c [Hr Hl]. destruct (resumeState c) as [r|] eqn:Hc; [|contradiction].
  apply keepsResumed_andThen.
  - apply keepsResumed_assign. intros c' [Hr' _]. split; [exact Hr'|reflexivity].
  - keeps.
  - split; [rewrite Hc; discriminate|exact Hl].
Qed.

Lemma keepsResumed_onClose code : keepsResumed (onClose code).
Proof.
  unfold onClose.
  destruct ((code <? 4000) || _); [|apply keepsResumed_error].
  unfold stopHeartbeating. keeps.
  intros c Hc. destruct (ws c); [|apply keepsResumed_skip, Hc].
  unfold andThen, effect_. cbn [fst snd app]. split; [exact Hc|].
  repeat constructor; apply not_live_dispatch; exact I.
Qed.

Lemma keepsResumed_onPayload payload :
  payload <> InvalidSession false -> keepsResumed (onPayload payload).
Proof.
  intros Hp. unfold onPayload. apply keepsResumed_andThen; [keeps|].
  intros c Hc. destruct (bool_decide (state c = DESTROYED));
    [apply keepsResumed_skip, Hc|].
  destruct payload as [t s u sid|i| | |[|]| |op].
  - revert c Hc. apply keepsResumed_andThen.
    + destruct (String.eqb t "READY"); [|apply keepsResumed_skip].
      apply keepsResumed_andThen; [keeps|].
      apply keepsResumed_assign. intros c [_ Hl]. split; [discriminate|exact Hl].
    + intros c [Hr Hl]. destruct (resumeState c) as [r|] eqn:Hc; [|contradiction].
      assert (Hres : resumed c) by (split; [rewrite Hc; discriminate|exact Hl]).
      revert c Hres Hl Hc. intros c Hres Hl _. revert c Hres Hl.
      intros c Hres Hl. unfold andThen, assign, effect_. cbn [fst snd live set_resumeState].
      split; [split; [discriminate|exact Hl]|].
      rewrite Hl. repeat constructor. apply not_live_dispatch. exact I.
  - revert c Hc. apply keepsResumed_andThen; [|apply keepsResumed_andThen].
    + intros c Hc. destruct (negb _); [apply keepsResumed_error|apply keepsResumed_skip];
        exact Hc.
    + unfold startHeartbeating. keeps.
    + apply keepsResumed_resumeOrIdentify.
  - apply keepsResumed_sendHeartbeat, Hc.
  - revert c Hc. keeps.
  - cbn [negb]. apply keepsResumed_resumeOrIdentify, Hc.
  - contradiction.
  - apply keepsResumed_reconnect, Hc.
  - apply keepsResumed_skip, Hc.
Qed.

Lemma keepsResumed_handle e :
  e <> ws_message (InvalidSession false) -> keepsResumed (handle e).
Proof.
  intros He. destruct e as [payload| |socket code|i| |socket|]; cbn [handle].
  - apply keepsResumed_onPayload. congruence.
  - apply keepsResumed_andThen; [keeps|apply keepsResumed_reconnect].
  - intros c Hc. destruct (bool_decide _);
      [apply keepsResumed_onClose|apply keepsResumed_skip]; exact Hc.
  - intros c Hc. unfold heartbeatHandler.
    destruct (wasHeartbeatAcknowledged c); [|apply keepsResumed_reconnect, Hc].
    revert c Hc. apply keepsResumed_andThen; [keeps|].
    apply keepsResumed_andThen; [keeps|apply keepsResumed_sendHeartbeat].
  - apply keepsResumed_connect.
  - keeps.
  - apply keepsResumed_destroy.
Qed.

Lemma keepsResumed_run events :
  Forall (fun e => e <> ws_message (InvalidSession false)) events ->
  keepsResumed (run events).
Proof.
  induction 1 as [|e events He _ IH]; cbn [run]; [apply keepsResumed_skip|].
  apply keepsResumed_andThen; [apply keepsResumed_handle, He|exact IH].
Qed.

(** Once a [Hello] is answered by a resume, the connection is not live
    again and no dispatch is emitted as live, whatever happens to it,
    until the server invalidates the session for good: nothing else
    sets [#live]. *)
Theorem resumed_connection_is_never_live c r heartbeat_interval events :
  resumeState c = Some r ->
  state c <> DESTROYED ->
  Forall (fun e => e <> ws_message (InvalidSession false)) events ->
  let after := run (ws_message (Hello heartbeat_interval) :: events) c in
  In (call_sendPayload (ResumePayload (sessionID r) (seq r))) after.2 /\
  live after.1 = false /\
  Forall (fun e => ~ isDispatch true e) after.2.
Proof.
  intros Hc Hst Hevents. cbv zeta.
  set (hello := handle (ws_message (Hello heartbeat_interval)) c).
  assert (Hhello : resumed hello.1 /\
                   In (call_sendPayload (ResumePayload (sessionID r) (seq r))) hello.2 /\
                   Forall (fun e => ~ isDispatch true e) hello.2).
  { subst hello. destruct c as [re w rs st l a].
    cbn [resumeState state] in Hc, Hst. subst rs.
    destruct st; try contradiction; destruct w as [w|]; cbv;
      (split; [split; [discriminate|reflexivity]|]);
      (split; [tauto|]);
      repeat constructor; intros [p Hp]; discriminate Hp. }
  destruct Hhello as (Hres & Hsent & Hquiet).
  destruct (keepsResumed_run events Hevents _ Hres) as [[_ Hlive] Hrest].
  cbn [run]. unfold andThen. cbn [fst snd]. fold hello.
  split; [apply in_or_app; left; exact Hsent|].
  split; [exact Hlive|]. apply Forall_app. split; assumption.
Qed.

(** *** Heartbeats *)

Lemma onPayload_acknowledged payload c :
  payload <> HeartbeatAck -> payload <> Reconnect ->
  wasHeartbeatAcknowledged (onPayload payload c).1 = wasHeartbeatAcknowledged c.
Proof.
  intros Hack Hre. destruct c as [re w rs st l a].
  destruct payload as [t s u sid|i| | |[|]| |op]; try contradiction;
    destruct st, w as [w|], rs as [r|], re; cbn -[String.eqb];
    try destruct (String.eqb t "READY"); reflexivity.
Qed.

Lemma run_acknowledged payloads :
  Forall (fun p => p <> HeartbeatAck /\ p <> Reconnect) payloads ->
  forall c,
  wasHeartbeatAcknowledged (run (map ws_message payloads) c).1
  = wasHeartbeatAcknowledged c.
Proof.
  induction 1 as [|p payloads [Hack Hre] _ IH]; intros c; [reflexivity|].
  cbn [map run handle]. unfold andThen. cbn [fst].
  rewrite IH. apply onPayload_acknowledged; assumption.
Qed.

(** When the heartbeat timer fires on an acknowledged connection, a
    heartbeat is sent with the last sequence number and the timer is set
    again.  If neither an acknowledgement nor a request to reconnect is
    among the payloads received until it fires again, the connection
    reconnects with code 4000; if an acknowledgement then arrives first,
    on a connection that is not destroyed, the next heartbeat is sent. *)
Theorem unacknowledged_heartbeat_reconnects c interval payloads :
  wasHeartbeatAcknowledged c = true ->
  Forall (fun p => p <> HeartbeatAck /\ p <> Reconnect) payloads ->
  let first := handle (heartbeat_timeout interval) c in
  let later := (run (map ws_message payloads) first.1).1 in
  first.2 = [ setTimeout_heartbeat interval false;
              call_sendPayload
                (HeartbeatPayload
                   (match resumeState c with Some r => seq r | None => 0 end)) ] /\
  handle (heartbeat_timeout interval) later = reconnect 4000 later /\
  (state later <> DESTROYED ->
   (handle (heartbeat_timeout interval)
      (handle (ws_message HeartbeatAck) later).1).2
   = [ setTimeout_heartbeat interval false;
       call_sendPayload
         (HeartbeatPayload
            (match resumeState later with Some r => seq r | None => 0 end)) ]).
Proof.
  intros Hack Hpayloads. cbv zeta.
  assert (Hfirst : wasHeartbeatAcknowledged
                     (handle (heartbeat_timeout interval) c).1 = false).
  { cbn [handle]. unfold heartbeatHandler. rewrite Hack. reflexivity. }
  pose proof (run_acknowledged payloads Hpayloads
                (handle (heartbeat_timeout interval) c).1) as Hlater.
  rewrite Hfirst in Hlater.
  set (later := (run (map ws_message payloads)
                   (handle (heartbeat_timeout interval) c).1).1) in *.
  split; [|split].
  - cbn [handle]. unfold heartbeatHandler. rewrite Hack. reflexivity.
  - cbn [handle]. unfold heartbeatHandler. rewrite Hlater. reflexivity.
  - intros Hst. cbn [handle]. unfold onPayload, andThen, effect_. cbn [fst snd].
    rewrite bool_decide_eq_false_2 by exact Hst. reflexivity.
Qed.

(** *** Destroyed connections *)

Lemma run_destroyed payloads c :
  state c = DESTROYED ->
  run (map ws_message payloads) c = (c, map emit_payloadReceived payloads).
Proof.
  intros Hst. induction payloads as [|p payloads IH]; [reflexivity|].
  cbn [map run handle]. unfold andThen at 1.
  assert (Hp : onPayload p c = (c, [emit_payloadReceived p])).
  { unfold onPayload, andThen, effect_. cbn [fst snd].
    rewrite bool_decide_eq_true_2 by exact Hst. reflexivity. }
  rewrite Hp. cbn [fst snd]. rewrite IH. reflexivity.
Qed.

(** The code of a close after which the connection connects again. *)
Definition reconnectable (code : Z) : Prop :=
  code < 4000 \/ (4000 <= code < 4010 /\ code <> 4004).

(** A destroyed connection announces the payloads it receives and does
    nothing else with them, and refuses to send.  It is not destroyed
    for good: when its socket had closed with a code that makes it
    connect again, the timer that the close has set is not cleared by
    [destroy], and the connection connects when the timer fires. *)
Theorem destroy_keeps_the_scheduled_reconnect c socket code payloads payload :
  ws c = Some socket ->
  reconnectable code ->
  let destroyed := (destroy c).1 in
  let closed := handle (ws_closed socket code) c in
  let reconnected := run [destroy_called; connect_timeout] closed.1 in
  run (map ws_message payloads) destroyed
  = (destroyed, map emit_payloadReceived payloads) /\
  sendPayload payload destroyed
  = Throw (OtherError "The connection isn't ready yet") /\
  In (setTimeout_connect 1000) closed.2 /\
  state (handle destroy_called closed.1).1 = DESTROYED /\
  state reconnected.1 = CONNECTING /\
  reconnected.2 = [clearTimeout_heartbeat; emit_connecting; await_connect].
Proof.
  intros Hws Hcode. cbv zeta.
  split; [apply run_destroyed; reflexivity|].
  split; [reflexivity|].
  assert (Hclass : (code <? 4000) || ((4000 <=? code) && (code <? 4010)
                                      && negb (code =? 4004)) = true).
  { destruct Hcode as [H|[H Hne]].
    - apply orb_true_iff. left. apply Z.ltb_lt. exact H.
    - apply orb_true_iff. right. rewrite !andb_true_iff, negb_true_iff.
      rewrite Z.leb_le, Z.ltb_lt, Z.eqb_neq. lia. }
  destruct c as [re w rs st l a]. cbn [ws] in Hws. subst w.
  cbn [handle ws]. rewrite bool_decide_eq_true_2 by reflexivity.
  unfold onClose. rewrite Hclass.
  repeat split; try reflexivity.
  cbn. tauto.
Qed.

(** *** Examples *)

(** A connection made to resume a session, once its socket is open, and
    what the server replays. *)
Definition session : ResumeState :=
  {| url := "wss://gateway.example"; sessionID := "5e55"; seq := 41 |}.

Definition resuming : connection :=
  set_ws (Some 1%nat) (GatewayConnection (Some session) None).

Definition replay : list event :=
  [ ws_message (Dispatch "RESUMED" 42 EmptyString EmptyString);
    ws_message HeartbeatAck;
    ws_message (Dispatch "MESSAGE_CREATE" 43 EmptyString EmptyString) ].

Lemma resumed_connection_is_never_live_witness :
  In (call_sendPayload (ResumePayload "5e55" 41))
    (run (ws_message (Hello 41250) :: replay) resuming).2 /\
  live (run (ws_message (Hello 41250) :: replay) resuming).1 = false /\
  Forall (fun e => ~ isDispatch true e)
    (run (ws_message (Hello 41250) :: replay) resuming).2.
Proof.
  apply (resumed_connection_is_never_live resuming session 41250 replay);
    [reflexivity|discriminate|repeat constructor; discriminate].
Defined.

Definition silence : list receivePayload :=
  [ Dispatch "MESSAGE_CREATE" 42 EmptyString EmptyString; Heartbeat ].

Lemma silence_acknowledges_nothing :
  Forall (fun p => p <> HeartbeatAck /\ p <> Reconnect) silence.
Proof. repeat constructor; discriminate. Qed.

Lemma unacknowledged_heartbeat_reconnects_witness :
  (handle (heartbeat_timeout 41250) resuming).2
  = [ setTimeout_heartbeat 41250 false; call_sendPayload (HeartbeatPayload 41) ] /\
  (handle (heartbeat_timeout 41250)
     (run (map ws_message silence)
        (handle (heartbeat_timeout 41250) resuming).1).1).2
  = [ clearTimeout_heartbeat; ws_close 1 4000; emit_connecting; await_connect ].
Proof.
  destruct (unacknowledged_heartbeat_reconnects resuming 41250 silence eq_refl
              silence_acknowledges_nothing) as (Hfirst & Hlater & _).
  split; [exact Hfirst|]. rewrite Hlater. reflexivity.
Defined.

Lemma destroy_keeps_the_scheduled_reconnect_witness :
  In (setTimeout_connect 1000) (handle (ws_closed 1 1006) resuming).2 /\
  state (run [destroy_called; connect_timeout]
           (handle (ws_closed 1 1006) resuming).1).1 = CONNECTING.
Proof.
  destruct (destroy_keeps_the_scheduled_reconnect resuming 1%nat 1006 [] IdentifyPayload
              eq_refl) as (_ & _ & Hset & _ & Hstate & _).
  - left. lia.
  - split; [exact Hset|exact Hstate].
Defined.

End Gateway.

(* ===================================================================== *)
(** ** [db/generic-encoding.ts]: arrays of snowflakes as BLOBs *)
(* ===================================================================== *)

Module Encoding.
Local Open Scope Z_scope.

(** [BigInt(s)] for a string of decimal digits (the empty string is [0n]).
    Any other string is reported as a [SyntaxError]: the sign, the white
    space and the radix prefixes that [BigInt] also reads never occur in
    a snowflake and are left out of the model. *)
Definition BigInt (s : string) : result Z :=
  match NilEmpty.uint_of_string s with
  | Some d => Ok (Z.of_N (N.of_uint d))
  | None => Throw SyntaxError
  end.

(** [String(n)] for a [bigint]. *)
Definition StringOfBigInt (n : Z) : string :=
  NilEmpty.string_of_int (Z.to_int n).

(** [dv.setBigUint64(offset, v)]: the eight bytes written, most
    significant first; only the low 64 bits of [v] are stored. *)
Definition BigUint64Bytes (v : Z) : list Z :=
  map (fun k => Z.land (Z.shiftr v (8 * k)) 255) [7; 6; 5; 4; 3; 2; 1; 0].

(** [dv.getBigUint64(offset)] over the bytes of [buf]. *)
Definition getBigUint64 (buf : list Z) (offset : nat) : Z :=
  fold_left (fun acc b => acc * 256 + b) (take 8 (drop offset buf)) 0.

Fixpoint encodeSnowflakeArray (array : list string) : result (list Z) :=
  match array with
  | [] => Ok []
  | s :: array' =>
    let* v := BigInt s in
    let* buf := encodeSnowflakeArray array' in
    Ok (BigUint64Bytes v ++ buf)
  end.

Definition decodeSnowflakeArray (buf : list Z) : result (list string) :=
  if (length buf mod 8 =? 0)%nat then
    Ok (map (fun i => StringOfBigInt (getBigUint64 buf (8 * i)))
          (seq 0 (length buf / 8)))
  else Throw (TypeError "Size not a multiple of 8 bytes.").

(** The decimal numeral of an integer that fits 64 unsigned bits: what the
    platform sends as a snowflake. *)
Definition isSnowflake (s : string) : Prop :=
  exists n, 0 <= n < 2 ^ 64 /\ s = StringOfBigInt n.

Lemma BigInt_StringOfBigInt n : 0 <= n -> BigInt (StringOfBigInt n) = Ok n.
Proof.
  intros Hn. unfold BigInt, StringOfBigInt.
  destruct n as [|p|p]; [reflexivity| |lia].
  cbn [Z.to_int NilEmpty.string_of_int].
  rewrite NilEmpty.usu. unfold N.of_uint.
  rewrite DecimalPos.Unsigned.of_to. reflexivity.
Qed.

Lemma getBigUint64_BigUint64Bytes v rest :
  0 <= v < 2 ^ 64 -> getBigUint64 (BigUint64Bytes v ++ rest) 0 = v.
Proof.
  intros Hv. unfold getBigUint64, BigUint64Bytes.
  cbn [map app drop take fold_left].
  change 255 with (Z.ones 8). rewrite !Z.land_ones by lia.
  rewrite !Z.shiftr_div_pow2 by lia.
  change (2 ^ 8) with 256. change (2 ^ (8 * 0)) with 1.
  change (2 ^ (8 * 7)) with 72057594037927936.
  change (2 ^ (8 * 6)) with 281474976710656.
  change (2 ^ (8 * 5)) with 1099511627776.
  change (2 ^ (8 * 4)) with 4294967296.
  change (2 ^ (8 * 3)) with 16777216.
  change (2 ^ (8 * 2)) with 65536.
  change (2 ^ (8 * 1)) with 256.
  change (2 ^ 64) with 18446744073709551616 in Hv.
  rewrite take_0. cbn [fold_left].
  Z.div_mod_to_equations; lia.
Qed.

Lemma getBigUint64_skip v rest (i : nat) :
  getBigUint64 (BigUint64Bytes v ++ rest) (8 * S i) = getBigUint64 rest (8 * i).
Proof.
  unfold getBigUint64.
  replace (8 * S i)%nat with (8 + 8 * i)%nat by lia.
  rewrite (drop_app_add' (BigUint64Bytes v) rest 8 (8 * i)) by reflexivity.
  reflexivity.
Qed.

Lemma encodeSnowflakeArray_length array buf :
  encodeSnowflakeArray array = Ok buf -> length buf = (8 * length array)%nat.
Proof.
  revert buf. induction array as [|s array IH]; intros buf; cbn [encodeSnowflakeArray].
  - intros [= <-]. reflexivity.
  - destruct (BigInt s) as [v|e]; cbn [bind]; [|discriminate].
    destruct (encodeSnowflakeArray array) as [buf'|e]; cbn [bind]; [|discriminate].
    intros [= <-]. cbn [length]. rewrite (IH buf' eq_refl). lia.
Qed.

Lemma decodeSnowflakeArray_cons v buf strs :
  0 <= v < 2 ^ 64 ->
  decodeSnowflakeArray buf = Ok strs ->
  decodeSnowflakeArray (BigUint64Bytes v ++ buf) = Ok (StringOfBigInt v :: strs).
Proof.
  intros Hv. unfold decodeSnowflakeArray.
  rewrite length_app.
  change (length (BigUint64Bytes v)) with (1 * 8)%nat.
  rewrite Nat.add_comm, Nat.Div0.mod_add, Nat.div_add by lia.
  destruct (length buf mod 8 =? 0)%nat; [|discriminate].
  intros [= <-]. f_equal.
  rewrite Nat.add_1_r. cbn [seq map].
  rewrite getBigUint64_BigUint64Bytes by exact Hv. f_equal.
  rewrite <- seq_shift, map_map.
  apply map_ext. intros i. rewrite getBigUint64_skip. reflexivity.
Qed.

Lemma encode_decode_snowflakes array :
  Forall isSnowflake array ->
  exists buf, encodeSnowflakeArray array = Ok buf /\
              decodeSnowflakeArray buf = Ok array.
Proof.
  induction 1 as [|s array (n & Hn & ->) _ (buf & Henc & Hdec)].
  - exists []. split; reflexivity.
  - exists (BigUint64Bytes n ++ buf). cbn [encodeSnowflakeArray].
    rewrite BigInt_StringOfBigInt by lia. cbn [bind]. rewrite Henc. cbn [bind].
    split; [reflexivity|]. apply decodeSnowflakeArray_cons; assumption.
Qed.

(** C10. For an array of decimal numerals of integers in [0, 2^64),
    encoding succeeds, yields eight bytes per element and decodes back to
    the same array; decoding a buffer whose length is not a multiple of
    eight throws a [TypeError]. *)
Theorem snowflake_array_roundtrip (array : list string) (bad : list Z) :
  Forall isSnowflake array ->
  (length bad mod 8 <> 0)%nat ->
  (exists buf,
     encodeSnowflakeArray array = Ok buf /\
     length buf = (8 * length array)%nat /\
     decodeSnowflakeArray buf = Ok array) /\
  decodeSnowflakeArray bad = Throw (TypeError "Size not a multiple of 8 bytes.").
Proof.
  intros Harr Hbad. split.
  - destruct (encode_decode_snowflakes array Harr) as (buf & Henc & Hdec).
    exists buf. split; [exact Henc|]. split; [|exact Hdec].
    apply encodeSnowflakeArray_length. exact Henc.
  - unfold decodeSnowflakeArray.
    destruct (Nat.eqb_spec (length bad mod 8) 0) as [E|_]; [contradiction|].
    reflexivity.
Qed.

Lemma isSnowflake_example_ids :
  Forall isSnowflake ["175928847299117063"; "0"; "18446744073709551615"]%string.
Proof.
  repeat constructor.
  - exists 175928847299117063. split; [lia|reflexivity].
  - exists 0. split; [lia|reflexivity].
  - exists 18446744073709551615. split; [lia|reflexivity].
Qed.

Lemma snowflake_array_roundtrip_witness :
  (exists buf,
     encodeSnowflakeArray ["175928847299117063"; "0"; "18446744073709551615"]%string
       = Ok buf /\
     length buf = (8 * 3)%nat /\
     decodeSnowflakeArray buf
       = Ok ["175928847299117063"; "0"; "18446744073709551615"]%string) /\
  decodeSnowflakeArray [1; 2; 3]
    = Throw (TypeError "Size not a multiple of 8 bytes.").
Proof.
  apply (snowflake_array_roundtrip
           ["175928847299117063"; "0"; "18446744073709551615"]%string [1; 2; 3]).
  - exact isSnowflake_example_ids.
  - cbn. lia.
Defined.

(** Numerals that are not in the form [String] prints are normalised by
    the round trip: leading zeros are dropped and the empty string comes
    back as ["0"]. *)
Lemma snowflake_leading_zeros_normalised :
  (let* buf := encodeSnowflakeArray ["007"; ""]%string in
   decodeSnowflakeArray buf) = Ok ["7"; "0"]%string.
Proof. reflexivity. Qed.

(** Only the low 64 bits are stored: [2^64 + 5] comes back as ["5"]. *)
Lemma snowflake_out_of_range_wraps :
  (let* buf := encodeSnowflakeArray ["18446744073709551621"]%string in
   decodeSnowflakeArray buf) = Ok ["5"]%string.
Proof. reflexivity. Qed.

(** *** Numerals of any form

    [setBigUint64] keeps the low 64 bits of what [BigInt] reads. *)
Lemma BigUint64Bytes_mod v : BigUint64Bytes (v mod 2 ^ 64) = BigUint64Bytes v.
Proof.
  unfold BigUint64Bytes. apply map_ext_in. intros k Hk.
  assert (Hk' : 0 <= k <= 7).
  { cbn [In] in Hk. lia. }
  apply Z.bits_inj'. intros n Hn.
  rewrite !Z.land_spec, !Z.shiftr_spec by exact Hn.
  destruct (Z.ltb_spec n 8) as [Hlt|Hge].
  - rewrite Z.mod_pow2_bits_low by lia. reflexivity.
  - change 255 with (Z.ones 8). rewrite Z.ones_spec_high by lia.
    rewrite !andb_false_r. reflexivity.
Qed.

Lemma getBigUint64_wraps v rest :
  getBigUint64 (BigUint64Bytes v ++ rest) 0 = v mod 2 ^ 64.
Proof.
  rewrite <- BigUint64Bytes_mod.
  apply getBigUint64_BigUint64Bytes. apply Z.mod_pos_bound. lia.
Qed.




(** *** Image hashes

    [IMAGE_HASH_REGEX = /^(a_)?([0-9a-f]{32})$/]: a class of lower-case
    hexadecimal digits, the value of a digit as [Buffer.from(s, "hex")]
    reads it (capitals included) and the digit [toString("hex")] prints. *)
Definition isLowerHex (c : ascii) : bool :=
  let n := Z.of_N (N_of_ascii c) in
  ((48 <=? n) && (n <=? 57)) || ((97 <=? n) && (n <=? 102)).

Definition hexValue (c : ascii) : option Z :=
  let n := Z.of_N (N_of_ascii c) in
  if (48 <=? n) && (n <=? 57) then Some (n - 48)
  else if (97 <=? n) && (n <=? 102) then Some (n - 87)
  else if (65 <=? n) && (n <=? 70) then Some (n - 55)
  else None.

Definition hexDigit (v : Z) : ascii :=
  ascii_of_N (Z.to_N (if v <? 10 then v + 48 else v + 87)).

Lemma hexDigit_hexValue c :
  isLowerHex c = true ->
  exists v, hexValue c = Some v /\ 0 <= v < 16 /\ hexDigit v = c.
Proof.
  destruct c as [[] [] [] [] [] [] [] []]; intros H; try discriminate H;
    eexists; (split; [reflexivity|split; [vm_compute; split; [discriminate|reflexivity]|reflexivity]]).
Qed.

Lemma hexValue_hexDigit v :
  0 <= v < 16 -> hexValue (hexDigit v) = Some v /\ isLowerHex (hexDigit v) = true.
Proof.
  intros Hv.
  assert (H : v = 0 \/ v = 1 \/ v = 2 \/ v = 3 \/ v = 4 \/ v = 5 \/ v = 6 \/ v = 7 \/
              v = 8 \/ v = 9 \/ v = 10 \/ v = 11 \/ v = 12 \/ v = 13 \/ v = 14 \/ v = 15) by lia.
  repeat (destruct H as [->|H]; [split; reflexivity|]). subst v. split; reflexivity.
Qed.

(** [Buffer.from(s, "hex")] *)
Fixpoint fromHex (s : string) : list Z :=
  match s with
  | String c1 (String c2 rest) =>
    match hexValue c1, hexValue c2 with
    | Some a, Some b => (16 * a + b) :: fromHex rest
    | _, _ => []
    end
  | _ => []
  end.

(** [buf.toString("hex")] *)
Fixpoint toHex (bytes : list Z) : string :=
  match bytes with
  | [] => EmptyString
  | b :: bytes' => String (hexDigit (b / 16)) (String (hexDigit (b mod 16)) (toHex bytes'))
  end.

(** [[0-9a-f]{32}] anchored at both ends. *)
Fixpoint allLowerHex (s : string) : bool :=
  match s with
  | EmptyString => true
  | String c rest => isLowerHex c && allLowerHex rest
  end.

Definition isHex32 (s : string) : bool :=
  (String.length s =? 32)%nat && allLowerHex s.

(** [hash.match(IMAGE_HASH_REGEX)]: whether the group [(a_)] took part
    and the thirty-two digits.  The group is tried first, the match
    without it second. *)
Definition matchImageHash (hash : string) : option (bool * string) :=
  let plain := if isHex32 hash then Some (false, hash) else None in
  match hash with
  | String c1 (String c2 rest) =>
    if Ascii.eqb c1 "a" && Ascii.eqb c2 "_" && isHex32 rest then Some (true, rest)
    else plain
  | _ => plain
  end.

(** [Uint8Array | string] *)
Variant imageHash :=
| HashText (s : string)
| HashBytes (buf : list Z).

(** [encodeImageHash(hash)] for a string (the guard on [typeof hash] is
    for callers outside the declared type). *)
Definition encodeImageHash (hash : string) : imageHash :=
  match matchImageHash hash with
  | None => HashText hash
  | Some (animated, digits) => HashBytes (Z.b2z animated :: fromHex digits)
  end.

(** [decodeImageHash(encodedHash)] for a string or a [Uint8Array]. *)
Definition decodeImageHash (encodedHash : imageHash) : result string :=
  match encodedHash with
  | HashText s => Ok s
  | HashBytes buf =>
    if (length buf =? 17)%nat then
      let animated := negb (Z.land (nth 0 buf 0) 1 =? 0) in
      Ok (String.append (if animated then "a_" else "") (toHex (drop 1 buf)))
    else Throw (TypeError "Invalid size.")
  end.

Lemma toHex_fromHex (n : nat) : forall s,
  String.length s = (2 * n)%nat -> allLowerHex s = true ->
  toHex (fromHex s) = s /\ length (fromHex s) = n.
Proof.
  induction n as [|n IH]; intros s Hlen Hhex.
  - destruct s; [split; reflexivity|discriminate].
  - destruct s as [|c1 [|c2 rest]]; cbn [String.length] in Hlen; try lia.
    cbn [allLowerHex] in Hhex.
    apply andb_true_iff in Hhex as [H1 Hhex]. apply andb_true_iff in Hhex as [H2 Hhex].
    destruct (hexDigit_hexValue c1 H1) as (a & Ha & Hra & Hda).
    destruct (hexDigit_hexValue c2 H2) as (b & Hb & Hrb & Hdb).
    cbn [fromHex]. rewrite Ha, Hb. cbn [toHex length].
    destruct (IH rest) as [IHs IHl]; [lia|exact Hhex|].
    replace ((16 * a + b) / 16) with a by (Z.div_mod_to_equations; lia).
    replace ((16 * a + b) mod 16) with b by (Z.div_mod_to_equations; lia).
    rewrite Hda, Hdb, IHs, IHl. split; reflexivity.
Qed.

Lemma matchImageHash_Some hash animated digits :
  matchImageHash hash = Some (animated, digits) ->
  hash = ((if animated then "a_" else "") ++ digits)%string /\ isHex32 digits = true.
Proof.
  unfold matchImageHash.
  assert (Hplain : (if isHex32 hash then Some (false, hash) else None)
                   = Some (animated, digits) ->
                   hash = ((if animated then "a_" else "") ++ digits)%string /\
                   isHex32 digits = true).
  { destruct (isHex32 hash) eqn:Hh; [|discriminate].
    intros [= <- <-]. split; [reflexivity|exact Hh]. }
  destruct hash as [|c1 [|c2 rest]]; try exact Hplain.
  destruct (Ascii.eqb c1 "a" && Ascii.eqb c2 "_" && isHex32 rest) eqn:Hp; [|exact Hplain].
  apply andb_true_iff in Hp as [Hp Hrest]. apply andb_true_iff in Hp as [Ha Hu].
  apply Ascii.eqb_eq in Ha, Hu. subst c1 c2.
  intros [= <- <-]. split; [reflexivity|exact Hrest].
Qed.

(** Every string comes back from its encoding: one that is not an image
    hash is stored as it is, an image hash as seventeen bytes. *)
Theorem image_hash_roundtrip (hash : string) :
  decodeImageHash (encodeImageHash hash) = Ok hash.
Proof.
  unfold encodeImageHash.
  destruct (matchImageHash hash) as [[animated digits]|] eqn:Hm; [|reflexivity].
  apply matchImageHash_Some in Hm as [-> Hhex].
  unfold isHex32 in Hhex. apply andb_true_iff in Hhex as [Hlen Hhex].
  apply Nat.eqb_eq in Hlen.
  destruct (toHex_fromHex 16 digits Hlen Hhex) as [Hs Hl].
  unfold decodeImageHash. cbn [length nth skipn]. rewrite Hl. cbn [Nat.eqb].
  rewrite drop_0, Hs. destruct animated; reflexivity.
Qed.

Lemma fromHex_toHex bytes :
  Forall (fun b => 0 <= b < 256) bytes ->
  fromHex (toHex bytes) = bytes /\ allLowerHex (toHex bytes) = true /\
  String.length (toHex bytes) = (2 * length bytes)%nat.
Proof.
  induction 1 as [|b bytes Hb _ (IHf & IHa & IHl)]; [repeat split|].
  assert (Hhi : 0 <= b / 16 < 16) by (Z.div_mod_to_equations; lia).
  assert (Hlo : 0 <= b mod 16 < 16) by (Z.div_mod_to_equations; lia).
  destruct (hexValue_hexDigit _ Hhi) as [Hv1 Hx1].
  destruct (hexValue_hexDigit _ Hlo) as [Hv2 Hx2].
  cbn [toHex fromHex allLowerHex String.length length].
  rewrite Hv1, Hv2, Hx1, Hx2, IHf, IHa, IHl. repeat split; [|lia].
  f_equal. Z.div_mod_to_equations; lia.
Qed.

(** A byte array that is not seventeen bytes long is refused; one that is
    decodes to a hash whose encoding is the array again, the first byte
    reduced to its lowest bit. *)
Theorem image_hash_bytes (buf : list Z) :
  Forall (fun b => 0 <= b < 256) buf ->
  (length buf <> 17%nat ->
   decodeImageHash (HashBytes buf) = Throw (TypeError "Invalid size.")) /\
  (length buf = 17%nat ->
   exists hash,
     decodeImageHash (HashBytes buf) = Ok hash /\
     encodeImageHash hash = HashBytes (Z.land (nth 0 buf 0) 1 :: drop 1 buf)).
Proof.
  intros Hbytes. split; intros Hlen; unfold decodeImageHash.
  - destruct (Nat.eqb_spec (length buf) 17); [contradiction|reflexivity].
  - rewrite Hlen. cbn [Nat.eqb]. eexists. split; [reflexivity|].
    destruct buf as [|flag [|b rest]]; try discriminate Hlen.
    cbn [nth drop skipn].
    apply Forall_cons in Hbytes as [Hflag Hrest].
    destruct (fromHex_toHex (b :: rest) Hrest) as (Hf & Ha & Hl).
    assert (H32 : isHex32 (toHex (b :: rest)) = true).
    { unfold isHex32. rewrite Ha, Hl. cbn [length] in *.
      replace (length rest) with 15%nat by lia. reflexivity. }
    assert (Hbit : Z.land flag 1 = 0 \/ Z.land flag 1 = 1).
    { pose proof (Z.land_ones flag 1 ltac:(lia)) as Hmod.
      change (Z.ones 1) with 1 in Hmod. change (2 ^ 1) with 2 in Hmod.
      rewrite Hmod. Z.div_mod_to_equations; lia. }
    unfold encodeImageHash.
    destruct Hbit as [-> | ->]; cbn [Z.eqb negb].
    + replace (matchImageHash _) with (Some (false, toHex (b :: rest))).
      * rewrite Hf. reflexivity.
      * symmetry. change (String.append "" ?s) with s.
        unfold matchImageHash. rewrite H32. cbn [toHex].
        replace (Ascii.eqb (hexDigit (b mod 16)) "_") with false;
          [rewrite andb_false_r; reflexivity|].
        symmetry. apply Ascii.eqb_neq. intros Heq.
        assert (Hlo : 0 <= b mod 16 < 16).
        { apply Forall_cons in Hrest as [Hb _]. Z.div_mod_to_equations; lia. }
        destruct (hexValue_hexDigit _ Hlo) as [_ Hx]. rewrite Heq in Hx.
        discriminate Hx.
    + replace (matchImageHash _) with (Some (true, toHex (b :: rest))).
      * rewrite Hf. reflexivity.
      * symmetry. unfold matchImageHash.
        change (String.append "a_" ?s) with (String "a" (String "_" s)).
        cbv beta iota. rewrite H32. reflexivity.
Qed.

Lemma image_hash_bytes_witness :
  exists hash,
    decodeImageHash (HashBytes (1 :: repeat 171 16)) = Ok hash /\
    encodeImageHash hash
    = HashBytes (Z.land (nth 0 (1 :: repeat 171 16) 0) 1 :: drop 1 (1 :: repeat 171 16)).
Proof.
  refine (proj2 (image_hash_bytes (1 :: repeat 171 16) _) eq_refl).
  repeat constructor; lia.
Defined.

(** *** Permission overwrites as BLOBs *)

(** An [APIOverwrite]: [type] is a number, the others decimal strings. *)
Record APIOverwrite := {
  ow_type : Z;
  ow_id : string;
  ow_allow : string;
  ow_deny : string;
}.

Definition tooChonky : jsError :=
  RangeError "The permission integer is too chonky to fit into 64 bits".

(** [encodePermissionOverwrites(overwrites)]: twenty-five bytes for each
    overwrite, [setUint8] keeping the low eight bits of [type]. *)
Fixpoint encodePermissionOverwrites (overwrites : list APIOverwrite)
  : result (list Z) :=
  match overwrites with
  | [] => Ok []
  | overwrite :: overwrites' =>
    let* allow := BigInt (ow_allow overwrite) in
    let* deny := BigInt (ow_deny overwrite) in
    if (2 ^ 64 <=? allow) || (2 ^ 64 <=? deny) then Throw tooChonky
    else
      let* id := BigInt (ow_id overwrite) in
      let* buf := encodePermissionOverwrites overwrites' in
      Ok ([ow_type overwrite mod 256] ++ BigUint64Bytes id ++ BigUint64Bytes allow
          ++ BigUint64Bytes deny ++ buf)
  end.

Definition decodePermissionOverwrites (buf : list Z) : result (list APIOverwrite) :=
  if (length buf mod 25 =? 0)%nat then
    Ok (map (fun i =>
               let base := (i * 25)%nat in
               {| ow_type := nth base buf 0;
                  ow_id := StringOfBigInt (getBigUint64 buf (base + 1));
                  ow_allow := StringOfBigInt (getBigUint64 buf (base + 9));
                  ow_deny := StringOfBigInt (getBigUint64 buf (base + 17)) |})
          (seq 0 (length buf / 25)))
  else Throw (TypeError "Size not a multiple of 25 bytes.").

(** An overwrite as the platform sends it. *)
Definition isOverwrite (o : APIOverwrite) : Prop :=
  0 <= ow_type o < 256 /\ isSnowflake (ow_id o) /\
  isSnowflake (ow_allow o) /\ isSnowflake (ow_deny o).

Lemma getBigUint64_at (pre : list Z) v rest :
  0 <= v < 2 ^ 64 ->
  getBigUint64 (pre ++ BigUint64Bytes v ++ rest) (length pre) = v.
Proof.
  intros Hv. unfold getBigUint64. rewrite drop_app_length.
  apply (getBigUint64_BigUint64Bytes v rest Hv).
Qed.

Lemma getBigUint64_after (pre rest : list Z) (n : nat) :
  getBigUint64 (pre ++ rest) (length pre + n) = getBigUint64 rest n.
Proof.
  unfold getBigUint64. rewrite drop_app_add'; reflexivity.
Qed.

Lemma decodePermissionOverwrites_cons t id allow deny buf overwrites :
  0 <= id < 2 ^ 64 -> 0 <= allow < 2 ^ 64 -> 0 <= deny < 2 ^ 64 ->
  decodePermissionOverwrites buf = Ok overwrites ->
  decodePermissionOverwrites
    ([t] ++ BigUint64Bytes id ++ BigUint64Bytes allow ++ BigUint64Bytes deny ++ buf)
  = Ok ({| ow_type := t; ow_id := StringOfBigInt id;
           ow_allow := StringOfBigInt allow; ow_deny := StringOfBigInt deny |}
        :: overwrites).
Proof.
  intros Hid Hallow Hdeny. unfold decodePermissionOverwrites.
  set (block := [t] ++ BigUint64Bytes id ++ BigUint64Bytes allow ++ BigUint64Bytes deny).
  replace ([t] ++ BigUint64Bytes id ++ BigUint64Bytes allow ++ BigUint64Bytes deny ++ buf)
    with (block ++ buf) by (unfold block; rewrite <- !app_assoc; reflexivity).
  assert (Hblock : length block = 25%nat) by reflexivity.
  rewrite length_app, Hblock.
  replace (25 + length buf)%nat with (length buf + 1 * 25)%nat by lia.
  rewrite Nat.Div0.mod_add, Nat.div_add by lia.
  destruct (length buf mod 25 =? 0)%nat; [|discriminate].
  intros [= <-]. f_equal.
  rewrite Nat.add_1_r. cbn [seq map]. f_equal.
  - cbn [Nat.mul Nat.add].
    assert (H1 : getBigUint64 (block ++ buf) 1 = id)
      by exact (getBigUint64_at [t] id
                  (BigUint64Bytes allow ++ BigUint64Bytes deny ++ buf) Hid).
    assert (H2 : getBigUint64 (block ++ buf) 9 = allow)
      by exact (getBigUint64_at ([t] ++ BigUint64Bytes id) allow
                  (BigUint64Bytes deny ++ buf) Hallow).
    assert (H3 : getBigUint64 (block ++ buf) 17 = deny)
      by exact (getBigUint64_at ([t] ++ BigUint64Bytes id ++ BigUint64Bytes allow)
                  deny buf Hdeny).
    rewrite H1, H2, H3. reflexivity.
  - rewrite <- seq_shift, map_map. apply map_ext. intros i.
    replace (S i * 25)%nat with (length block + i * 25)%nat by (rewrite Hblock; lia).
    rewrite <- !Nat.add_assoc, !getBigUint64_after.
    reflexivity.
Qed.

Lemma encodePermissionOverwrites_length overwrites buf :
  encodePermissionOverwrites overwrites = Ok buf ->
  length buf = (25 * length overwrites)%nat.
Proof.
  revert buf. induction overwrites as [|o overwrites IH]; intros buf;
    cbn [encodePermissionOverwrites].
  - intros [= <-]. reflexivity.
  - destruct (BigInt (ow_allow o)) as [allow|e]; cbn [bind]; [|discriminate].
    destruct (BigInt (ow_deny o)) as [deny|e]; cbn [bind]; [|discriminate].
    destruct ((2 ^ 64 <=? allow) || (2 ^ 64 <=? deny)); [discriminate|].
    destruct (BigInt (ow_id o)) as [id|e]; cbn [bind]; [|discriminate].
    destruct (encodePermissionOverwrites overwrites) as [buf'|e]; cbn [bind];
      [|discriminate].
    intros [= <-]. cbn [app length BigUint64Bytes map].
    rewrite (IH buf' eq_refl). lia.
Qed.

Lemma encode_decode_overwrites overwrites :
  Forall isOverwrite overwrites ->
  exists buf, encodePermissionOverwrites overwrites = Ok buf /\
              decodePermissionOverwrites buf = Ok overwrites.
Proof.
  induction 1 as [|o overwrites (Ht & (id & Hid & Eid) & (allow & Hallow & Eallow)
                                 & (deny & Hdeny & Edeny)) _ (buf & Henc & Hdec)].
  - exists []. split; reflexivity.
  - destruct o as [t sid sallow sdeny]. cbn [ow_type ow_id ow_allow ow_deny] in *.
    subst sid sallow sdeny. eexists. cbn [encodePermissionOverwrites].
    cbn [ow_type ow_id ow_allow ow_deny].
    rewrite !BigInt_StringOfBigInt by lia. cbn [bind].
    replace ((2 ^ 64 <=? allow) || (2 ^ 64 <=? deny)) with false by lia.
    rewrite Henc. cbn [bind]. split; [reflexivity|].
    rewrite Z.mod_small by exact Ht.
    apply decodePermissionOverwrites_cons; assumption.
Qed.

(** Overwrites as the platform sends them are stored in twenty-five bytes
    each and read back as they were; a buffer whose length is not a
    multiple of twenty-five is refused. *)
Theorem permission_overwrites_roundtrip (overwrites : list APIOverwrite)
    (bad : list Z) :
  Forall isOverwrite overwrites ->
  (length bad mod 25 <> 0)%nat ->
  (exists buf,
     encodePermissionOverwrites overwrites = Ok buf /\
     length buf = (25 * length overwrites)%nat /\
     decodePermissionOverwrites buf = Ok overwrites) /\
  decodePermissionOverwrites bad
  = Throw (TypeError "Size not a multiple of 25 bytes.").
Proof.
  intros Hows Hbad. split.
  - destruct (encode_decode_overwrites overwrites Hows) as (buf & Henc & Hdec).
    exists buf. split; [exact Henc|]. split; [|exact Hdec].
    apply encodePermissionOverwrites_length. exact Henc.
  - unfold decodePermissionOverwrites.
    destruct (Nat.eqb_spec (length bad mod 25) 0) as [E|_]; [contradiction|].
    reflexivity.
Qed.

Definition viewOnly : APIOverwrite :=
  {| ow_type := 0; ow_id := "175928847299117063"; ow_allow := "1024";
     ow_deny := "0" |}.

Definition memberMuted : APIOverwrite :=
  {| ow_type := 1; ow_id := "80351110224678912"; ow_allow := "0";
     ow_deny := "18446744073709551615" |}.

Lemma isOverwrite_examples : Forall isOverwrite [viewOnly; memberMuted].
Proof.
  repeat constructor; cbn; try lia.
  - exists 175928847299117063. split; [lia|reflexivity].
  - exists 1024. split; [lia|reflexivity].
  - exists 0. split; [lia|reflexivity].
  - exists 80351110224678912. split; [lia|reflexivity].
  - exists 0. split; [lia|reflexivity].
  - exists 18446744073709551615. split; [lia|reflexivity].
Qed.

Lemma permission_overwrites_roundtrip_witness :
  (exists buf,
     encodePermissionOverwrites [viewOnly; memberMuted] = Ok buf /\
     length buf = (25 * 2)%nat /\
     decodePermissionOverwrites buf = Ok [viewOnly; memberMuted]) /\
  decodePermissionOverwrites (repeat 0 24)
  = Throw (TypeError "Size not a multiple of 25 bytes.").
Proof.
  apply (permission_overwrites_roundtrip [viewOnly; memberMuted] (repeat 0 24)).
  - exact isOverwrite_examples.
  - cbn. lia.
Defined.

(** A decimal numeral of a natural number, of any size. *)
Definition isNumeral (s : string) : Prop := exists n, 0 <= n /\ s = StringOfBigInt n.

Definition exceeds64Bits (s : string) : Prop :=
  exists n, 2 ^ 64 <= n /\ s = StringOfBigInt n.

Lemma exceeds64Bits_BigInt s v :
  exceeds64Bits s -> BigInt s = Ok v -> 2 ^ 64 <= v.
Proof.
  intros (n & Hn & ->). rewrite BigInt_StringOfBigInt by lia.
  intros [= <-]. exact Hn.
Qed.

(** An [allow] or a [deny] that does not fit sixty-four bits is refused,
    wherever it stands in the array. *)
Theorem permission_overwrites_too_big (overwrites : list APIOverwrite) :
  Forall (fun o => isNumeral (ow_id o) /\ isNumeral (ow_allow o)
                   /\ isNumeral (ow_deny o)) overwrites ->
  Exists (fun o => exceeds64Bits (ow_allow o) \/ exceeds64Bits (ow_deny o))
    overwrites ->
  encodePermissionOverwrites overwrites = Throw tooChonky.
Proof.
  induction 1 as [|o overwrites ((id & Hid & Eid) & (allow & Hallow & Eallow)
                                 & (deny & Hdeny & Edeny)) _ IH];
    intros Hbig; [inversion Hbig|].
  cbn [encodePermissionOverwrites].
  pose proof (BigInt_StringOfBigInt allow Hallow) as Ba.
  pose proof (BigInt_StringOfBigInt deny Hdeny) as Bd.
  rewrite <- Eallow in Ba. rewrite <- Edeny in Bd.
  rewrite Ba, Bd. cbn [bind].
  destruct ((2 ^ 64 <=? allow) || (2 ^ 64 <=? deny)) eqn:Hcheck; [reflexivity|].
  rewrite Eid, BigInt_StringOfBigInt by exact Hid. cbn [bind].
  apply Exists_cons in Hbig as [[Hbig|Hbig]|Hbig].
  - pose proof (exceeds64Bits_BigInt _ _ Hbig Ba). lia.
  - pose proof (exceeds64Bits_BigInt _ _ Hbig Bd). lia.
  - rewrite (IH Hbig). reflexivity.
Qed.

Definition tooMuchAllowed : APIOverwrite :=
  {| ow_type := 0; ow_id := "1"; ow_allow := "18446744073709551616";
     ow_deny := "0" |}.

Lemma permission_overwrites_too_big_witness :
  encodePermissionOverwrites [viewOnly; tooMuchAllowed] = Throw tooChonky.
Proof.
  apply (permission_overwrites_too_big [viewOnly; tooMuchAllowed]).
  - repeat constructor; cbn.
    + exists 175928847299117063. split; [lia|reflexivity].
    + exists 1024. split; [lia|reflexivity].
    + exists 0. split; [lia|reflexivity].
    + exists 1. split; [lia|reflexivity].
    + exists 18446744073709551616. split; [lia|reflexivity].
    + exists 0. split; [lia|reflexivity].
  - apply Exists_cons_tl, Exists_cons_hd. left.
    exists 18446744073709551616. split; [lia|reflexivity].
Defined.

End Encoding.

(* ===================================================================== *)
(** ** [db/request-handler.ts]: prepared statements and snapshots *)
(* ===================================================================== *)

Module Db.
Local Open Scope string_scope.
Local Open Scope list_scope.
Local Open Scope Z_scope.

(** *** SQLite values, rows and bound objects

    A value as SQLite stores it.  Values are taken after the column's
    type affinity has been applied, so a snowflake bound as a decimal
    string and the integer stored for it are the same [VInt]. *)
Variant value :=
| VNull
| VInt (z : Z)
| VText (s : string)
| VBlob (bytes : list Z).

#[global] Instance value_eq_dec : EqDecision value.
Proof. solve_decision. Defined.

(** [a = b] and [a IS b] in a [WHERE] clause. *)
Definition sqlEq (a b : value) : bool :=
  match a, b with
  | VNull, _ | _, VNull => false
  | _, _ => bool_decide (a = b)
  end.

Definition sqlIs (a b : value) : bool := bool_decide (a = b).

(** A row of a table, by column name; an absent column holds [NULL].  The
    object bound to a prepared statement, by property name. *)
Abbreviation row := (gmap string value).
Abbreviation object := (gmap string value).

Definition col (r : row) (c : string) : value := default VNull (r !! c).

(** *** The fragment of SQL the prepared statements use *)

Variant expr :=
| Col (c : string)        (* a column of the row at hand *)
| Param (p : string)      (* [:p], a named parameter *)
| Lit (v : value).

Variant cmp := CmpEq | CmpIs.

Record cond := { c_col : string; c_cmp : cmp; c_rhs : expr }.

Definition eval (e : expr) (o : object) (r : row) : value :=
  match e with
  | Col c => col r c
  | Param p => default VNull (o !! p)
  | Lit v => v
  end.

Definition exprParams (e : expr) : list string :=
  match e with Param p => [p] | _ => [] end.

Definition holds (o : object) (r : row) (c : cond) : bool :=
  match c_cmp c with
  | CmpEq => sqlEq (col r (c_col c)) (eval (c_rhs c) o r)
  | CmpIs => sqlIs (col r (c_col c)) (eval (c_rhs c) o r)
  end.

Definition matches (w : list cond) (o : object) (r : row) : bool :=
  forallb (holds o r) w.

Definition whereParams (w : list cond) : list string :=
  flat_map (fun c => exprParams (c_rhs c)) w.

(** better-sqlite3 binds an object by looking up each named parameter of
    the statement among the object's own properties; a parameter that is
    not there is a [RangeError], a property no parameter asks for is
    ignored. *)
Definition missingNamedParameter : jsError :=
  RangeError "Missing named parameter".

Definition bound (o : object) (params : list string) : bool :=
  forallb (fun p => bool_decide (is_Some (o !! p))) params.

Definition project (cols : list (string * expr)) (o : object) (r : row) : row :=
  list_to_map (map (fun ce => (ce.1, eval ce.2 o r)) cols).

(** [SELECT cols FROM t WHERE w] and, when [sel_getAll],
    [... WHERE w OR :$getAll = 1]. *)
Record select := {
  sel_cols : list (string * expr);
  sel_where : list cond;
  sel_getAll : bool;
}.

Definition selects (s : select) (o : object) (r : row) : bool :=
  matches (sel_where s) o r ||
  (sel_getAll s && sqlEq (default VNull (o !! "$getAll")) (VInt 1)).

Definition selectParams (s : select) : list string :=
  flat_map (fun ce => exprParams ce.2) (sel_cols s) ++ whereParams (sel_where s)
  ++ (if sel_getAll s then ["$getAll"] else []).

(** [statement.get(o)]: the first row selected, or [undefined]. *)
Definition get (s : select) (o : object) (t : list row) : result (option row) :=
  if bound o (selectParams s) then
    Ok (project (sel_cols s) o <$> List.find (selects s o) t)
  else Throw missingNamedParameter.

(** [INSERT INTO t (cols) VALUES (exprs)].  The schema file is not among
    the sources: none of its constraints is modelled. *)
Record insert := { ins_values : list (string * expr) }.

Definition insertParams (i : insert) : list string :=
  flat_map (fun ce => exprParams ce.2) (ins_values i).

Definition runInsert (i : insert) (o : object) (t : list row) : result (list row) :=
  if bound o (insertParams i) then Ok (t ++ [project (ins_values i) o ∅])
  else Throw missingNamedParameter.

(** [INSERT INTO dst (cols) SELECT exprs FROM src WHERE w]: the rows to
    add to [dst]. *)
Record insertSelect := {
  is_values : list (string * expr);
  is_where : list cond;
}.

Definition insertSelectParams (i : insertSelect) : list string :=
  flat_map (fun ce => exprParams ce.2) (is_values i) ++ whereParams (is_where i).

Definition runInsertSelect (i : insertSelect) (o : object) (src dst : list row)
  : result (list row) :=
  if bound o (insertSelectParams i) then
    Ok (dst ++ map (project (is_values i) o) (List.filter (matches (is_where i) o) src))
  else Throw missingNamedParameter.

(** [UPDATE t SET col = expr, ... WHERE w]. *)
Record update := {
  upd_set : list (string * expr);
  upd_where : list cond;
}.

Definition updateParams (u : update) : list string :=
  flat_map (fun ce => exprParams ce.2) (upd_set u) ++ whereParams (upd_where u).

Definition updateRow (u : update) (o : object) (r : row) : row :=
  if matches (upd_where u) o r then project (upd_set u) o r ∪ r else r.

Definition runUpdate (u : update) (o : object) (t : list row) : result (list row) :=
  if bound o (updateParams u) then Ok (map (updateRow u o) t)
  else Throw missingNamedParameter.

(** *** [ObjectStatements] and [getStatements] *)

Record ObjectStatements := {
  doesExist : select;
  getLatestSnapshot : select;
  isLatestSnapshotEqual : select;
  getTimestamp : select;
  addLatestSnapshot : insert;
  copyLatestSnapshot : insertSelect;
  replaceLatestSnapshot : update;
}.

Definition sameName (k : string) : string * expr := (k, Param k).
Definition sameCol (k : string) : string * expr := (k, Col k).
Definition one : list (string * expr) := [("1", Lit (VInt 1))].
Definition byId : cond :=
  {| c_col := "id"; c_cmp := CmpEq; c_rhs := Param "id" |}.

(** [getStatements(objectName, parentIDName, snapshotKeys, objectKeys)]:
    the statements over [latest_<objectName>_snapshots] and
    [previous_<objectName>_snapshots]. *)
Definition getStatements (snapshotKeys objectKeys : list string) : ObjectStatements :=
  {| doesExist :=
       {| sel_cols := one; sel_where := [byId]; sel_getAll := false |};
     getLatestSnapshot :=
       {| sel_cols := map sameCol
            (["id"; "_deleted"] ++ objectKeys ++ ["_timestamp"] ++ snapshotKeys);
          sel_where := [byId]; sel_getAll := true |};
     isLatestSnapshotEqual :=
       {| sel_cols := one;
          sel_where := byId ::
            map (fun k => {| c_col := k; c_cmp := CmpIs; c_rhs := Param k |})
              snapshotKeys;
          sel_getAll := false |};
     getTimestamp :=
       {| sel_cols := [sameCol "_timestamp"];
          sel_where := [byId]; sel_getAll := false |};
     addLatestSnapshot :=
       {| ins_values := map sameName
            (["id"] ++ objectKeys ++ ["_timestamp"] ++ snapshotKeys) |};
     copyLatestSnapshot :=
       {| is_values := map sameCol (["id"; "_timestamp"] ++ snapshotKeys);
          is_where := [byId] |};
     replaceLatestSnapshot :=
       {| upd_set := map sameName ("_timestamp" :: snapshotKeys);
          upd_where := [byId] |} |}.

(** The statements written out by hand for [latest_member_snapshots]. *)
Definition byMember : list cond :=
  [ {| c_col := "_user_id"; c_cmp := CmpEq; c_rhs := Param "_user_id" |};
    {| c_col := "_guild_id"; c_cmp := CmpEq; c_rhs := Param "_guild_id" |} ].

Definition memberSnapshotKeys : list string :=
  ["nick"; "avatar"; "roles"; "joined_at"; "premium_since"; "pending";
   "communication_disabled_until"].

Definition memberStatements : ObjectStatements :=
  {| doesExist :=
       {| sel_cols := one; sel_where := byMember; sel_getAll := false |};
     getLatestSnapshot :=
       {| sel_cols := map sameCol
            (["_user_id"; "_guild_id"; "_timestamp"] ++ memberSnapshotKeys);
          sel_where := byMember; sel_getAll := false |};
     isLatestSnapshotEqual :=
       {| sel_cols := one;
          sel_where := byMember ++
            map (fun k => {| c_col := k; c_cmp := CmpIs; c_rhs := Param k |})
              memberSnapshotKeys;
          sel_getAll := false |};
     getTimestamp :=
       {| sel_cols := [sameCol "_timestamp"];
          sel_where := byMember; sel_getAll := false |};
     addLatestSnapshot :=
       {| ins_values :=
            [ ("_user_id", Param "_user_id"); ("_guild_id", Param "_guild_id");
              ("_timestamp", Param "_timestamp"); ("nick", Param "nick");
              ("avatar", Param "avatar");
              ("joined_at", Param "roles"); ("roles", Param "joined_at");
              ("premium_since", Param "premium_since");
              ("pending", Param "pending");
              ("communication_disabled_until",
               Param "communication_disabled_until") ] |};
     copyLatestSnapshot :=
       {| is_values :=
            [ ("_user_id", Col "_user_id"); ("_guild_id", Col "_guild_id");
              ("_timestamp", Col "_timestamp"); ("nick", Col "nick");
              ("avatar", Col "avatar"); ("roles", Param "roles");
              ("joined_at", Col "joined_at");
              ("premium_since", Col "premium_since");
              ("pending", Col "pending");
              ("communication_disabled_until",
               Col "communication_disabled_until") ];
          is_where := byMember |};
     replaceLatestSnapshot :=
       {| upd_set := map sameName ("_timestamp" :: memberSnapshotKeys);
          upd_where := byMember |} |}.

(** *** [addSnapshot] *)

Variant AddSnapshotResult :=
| ADDED_FIRST_SNAPSHOT
| ADDED_ANOTHER_SNAPSHOT
| SAME_AS_LATEST
| PARTIAL_NO_SNAPSHOT.

(** The two tables of one kind of object. *)
Record tables := { latest : list row; previous : list row }.

Definition notMoreRecent : jsError :=
  RangeError "The added snapshot is not more recent than the latest one in the database but it's not equal to it.".

(** [BigInt(object._timestamp)] and the [_timestamp] read back from the
    table.  Timestamps are integers wherever [addSnapshot] is called
    ([encodeTiming], [Date.prototype.getTime]); another value is reported
    as a [TypeError]. *)
Definition timestampOf (v : option value) : result Z :=
  match v with
  | Some (VInt z) => Ok z
  | _ => Throw (TypeError "Cannot convert the timestamp to a BigInt")
  end.

(** [err.message.startsWith("Missing named parameter")] on a
    [RangeError]. *)
Definition isMissingNamedParameter (e : jsError) : bool :=
  match e with
  | RangeError m => String.prefix "Missing named parameter" m
  | _ => false
  end.

(** The part of [addSnapshot] after the object is known to have a latest
    row. *)
Definition addToExisting (st : ObjectStatements) (o : object)
    (checkIfChanged : bool) (t : tables) : tables * result AddSnapshotResult :=
  let write :=
    match runInsertSelect (copyLatestSnapshot st) o (latest t) (previous t) with
    | Throw e => (t, Throw e)
    | Ok previous' =>
      let t1 := {| latest := latest t; previous := previous' |} in
      match runUpdate (replaceLatestSnapshot st) o (latest t1) with
      | Throw e => (t1, Throw e)
      | Ok latest' =>
        ({| latest := latest'; previous := previous' |}, Ok ADDED_ANOTHER_SNAPSHOT)
      end
    end in
  if checkIfChanged then
    match get (isLatestSnapshotEqual st) o (latest t) with
    | Throw e => (t, Throw e)
    | Ok (Some _) => (t, Ok SAME_AS_LATEST)
    | Ok None =>
      match timestampOf (o !! "_timestamp") with
      | Throw e => (t, Throw e)
      | Ok new =>
        match get (getTimestamp st) o (latest t) with
        | Throw e => (t, Throw e)
        | Ok None => (t, Throw (TypeError "Cannot read properties of undefined"))
        | Ok (Some r) =>
          match timestampOf (r !! "_timestamp") with
          | Throw e => (t, Throw e)
          | Ok stored =>
            if new <=? stored then (t, Throw notMoreRecent) else write
          end
        end
      end
    end
  else write.

Definition addFirst (st : ObjectStatements) (o : object) (t : tables)
  : tables * result AddSnapshotResult :=
  match runInsert (addLatestSnapshot st) o (latest t) with
  | Ok latest' =>
    ({| latest := latest'; previous := previous t |}, Ok ADDED_FIRST_SNAPSHOT)
  | Throw e => (t, Throw e)
  end.

(** [addSnapshot(statements, object, partial = false, checkIfChanged = true)] *)
Definition addSnapshot (st : ObjectStatements) (o : object)
    (partial checkIfChanged : bool) (t : tables)
  : tables * result AddSnapshotResult :=
  if partial then
    let o := <["$getAll" := VInt 0]> o in
    match get (getLatestSnapshot st) o (latest t) with
    | Throw e => (t, Throw e)
    | Ok None =>
      match addFirst st o t with
      | (t', Throw e) =>
        if isMissingNamedParameter e then (t', Ok PARTIAL_NO_SNAPSHOT)
        else (t', Throw e)
      | done => done
      end
    | Ok (Some oldObject) => addToExisting st (o ∪ oldObject) checkIfChanged t
    end
  else
    match get (doesExist st) o (latest t) with
    | Throw e => (t, Throw e)
    | Ok None => addFirst st o t
    | Ok (Some _) => addToExisting st o checkIfChanged t
    end.

(** *** Facts about the SQL fragment *)

Lemma col_project_sameName cols o r c :
  c ∈ cols -> col (project (map sameName cols) o r) c = default VNull (o !! c).
Proof.
  unfold col, project. induction cols as [|a cols IH]; intros Hc.
  - inversion Hc.
  - cbn [map list_to_map foldr sameName fst snd eval].
    destruct (decide (a = c)) as [->|Hne].
    + rewrite lookup_insert_eq. reflexivity.
    + rewrite lookup_insert_ne by exact Hne. apply IH.
      apply elem_of_cons in Hc as [->|Hc]; [contradiction|exact Hc].
Qed.

Lemma lookup_project_sameName cols o r c :
  project (map sameName cols) o r !! c =
  if bool_decide (c ∈ cols) then Some (default VNull (o !! c)) else None.
Proof.
  unfold project. induction cols as [|a cols IH].
  - reflexivity.
  - cbn [map list_to_map foldr sameName fst snd eval].
    destruct (decide (a = c)) as [->|Hne].
    + rewrite lookup_insert_eq, bool_decide_eq_true_2 by left. reflexivity.
    + rewrite lookup_insert_ne by exact Hne. rewrite IH.
      apply (f_equal (fun b : bool => if b then _ else _)).
      apply bool_decide_ext. rewrite elem_of_cons.
      split; [intros Hc; right; exact Hc|].
      intros [->|Hc]; [contradiction|exact Hc].
Qed.

Lemma lookup_project_sameCol cols o r c :
  project (map sameCol cols) o r !! c =
  if bool_decide (c ∈ cols) then Some (col r c) else None.
Proof.
  unfold project. induction cols as [|a cols IH].
  - reflexivity.
  - cbn [map list_to_map foldr sameCol fst snd eval].
    destruct (decide (a = c)) as [->|Hne].
    + rewrite lookup_insert_eq, bool_decide_eq_true_2 by left. reflexivity.
    + rewrite lookup_insert_ne by exact Hne. rewrite IH.
      apply (f_equal (fun b : bool => if b then _ else _)).
      apply bool_decide_ext. rewrite elem_of_cons.
      split; [intros Hc; right; exact Hc|].
      intros [->|Hc]; [contradiction|exact Hc].
Qed.

Lemma bound_In o params p :
  bound o params = true -> p ∈ params -> is_Some (o !! p).
Proof.
  unfold bound. rewrite forallb_forall. intros H Hp.
  apply list_elem_of_In in Hp. apply H in Hp.
  apply bool_decide_eq_true in Hp. exact Hp.
Qed.

Lemma bound_sameName o cols :
  bound o (flat_map (fun ce => exprParams ce.2) (map sameName cols)) = bound o cols.
Proof.
  induction cols as [|a cols IH]; [reflexivity|].
  cbn [map flat_map sameName snd exprParams app bound forallb].
  f_equal. exact IH.
Qed.

Lemma params_sameCol cols :
  flat_map (fun ce => exprParams ce.2) (map sameCol cols) = [].
Proof. induction cols as [|a cols IH]; [reflexivity|exact IH]. Qed.

Lemma bound_cons o p ps :
  bound o (p :: ps) = bool_decide (is_Some (o !! p)) && bound o ps.
Proof. reflexivity. Qed.

Lemma bound_app o ps qs : bound o (ps ++ qs) = bound o ps && bound o qs.
Proof. apply forallb_app. Qed.

Lemma find_absent {A} (f : A -> bool) l :
  Forall (fun x => f x = false) l -> List.find f l = None.
Proof.
  induction 1 as [|x l Hx _ IH]; [reflexivity|]. cbn [List.find].
  rewrite Hx. exact IH.
Qed.

Lemma find_first {A} (f : A -> bool) l1 x l2 :
  Forall (fun x => f x = false) l1 -> f x = true ->
  List.find f (l1 ++ x :: l2) = Some x.
Proof.
  induction 1 as [|y l1 Hy _ IH]; intros Hx; cbn [app List.find].
  - rewrite Hx. reflexivity.
  - rewrite Hy. apply IH. exact Hx.
Qed.

Lemma filter_absent {A} (f : A -> bool) l :
  Forall (fun x => f x = false) l -> List.filter f l = [].
Proof.
  induction 1 as [|x l Hx _ IH]; [reflexivity|]. cbn [List.filter].
  rewrite Hx. exact IH.
Qed.

Lemma filter_only {A} (f : A -> bool) l1 x l2 :
  Forall (fun x => f x = false) l1 -> Forall (fun x => f x = false) l2 ->
  f x = true -> List.filter f (l1 ++ x :: l2) = [x].
Proof.
  intros H1 H2 Hx. rewrite List.filter_app. cbn [List.filter].
  rewrite Hx, (filter_absent f l1 H1), (filter_absent f l2 H2). reflexivity.
Qed.

Lemma map_only {A} (f : A -> bool) (g : A -> A) l1 x l2 :
  Forall (fun x => f x = false) l1 -> Forall (fun x => f x = false) l2 ->
  f x = true ->
  map (fun y => if f y then g y else y) (l1 ++ x :: l2) = l1 ++ g x :: l2.
Proof.
  intros H1 H2 Hx. rewrite map_app. cbn [map]. rewrite Hx.
  assert (Hid : forall l, Forall (fun x => f x = false) l ->
                          map (fun y => if f y then g y else y) l = l).
  { induction 1 as [|y l Hy _ IH]; [reflexivity|].
    cbn [map]. rewrite Hy, IH. reflexivity. }
  rewrite (Hid l1 H1), (Hid l2 H2). reflexivity.
Qed.

(** A first matching row splits the table around it. *)
Lemma find_split {A} (f : A -> bool) l x :
  List.find f l = Some x ->
  exists l1 l2, l = l1 ++ x :: l2 /\ Forall (fun y => f y = false) l1 /\ f x = true.
Proof.
  induction l as [|y l IH]; cbn [List.find]; [discriminate|].
  destruct (f y) eqn:Hy.
  - intros [= ->]. exists [], l. split; [reflexivity|]. split; [constructor|exact Hy].
  - intros H. destruct (IH H) as (l1 & l2 & -> & H1 & Hx).
    exists (y :: l1), l2. split; [reflexivity|]. split; [|exact Hx].
    constructor; assumption.
Qed.

(** *** [addSnapshot] over the statements of [getStatements] *)

(** The row is the one the object's [id] names. *)
Definition keyed (o : object) (r : row) : bool :=
  sqlEq (col r "id") (default VNull (o !! "id")).

Definition absent (o : object) (t : list row) : Prop :=
  Forall (fun r => keyed o r = false) t.

Section Generic.
Variables snapshotKeys objectKeys : list string.
Local Abbreviation st := (getStatements snapshotKeys objectKeys).

(** The monitored fields of the row are those of the object. *)
Definition sameSnapshot (o : object) (r : row) : bool :=
  forallb (fun k => sqlIs (col r k) (default VNull (o !! k))) snapshotKeys.

Definition insertColumns : list string :=
  ["id"] ++ objectKeys ++ ["_timestamp"] ++ snapshotKeys.

(** A full object binds every parameter of the [INSERT]. *)
Definition fullObject (o : object) : Prop := bound o insertColumns = true.

(** The row [addLatestSnapshot] stores, the row [copyLatestSnapshot]
    appends to the previous snapshots, and the latest row after
    [replaceLatestSnapshot]. *)
Definition insertedRow (o : object) : row :=
  project (map sameName insertColumns) o ∅.

Definition copiedRow (r : row) : row :=
  project (map sameCol (["id"; "_timestamp"] ++ snapshotKeys)) ∅ r.

Definition replacedRow (o : object) (r : row) : row :=
  project (map sameName ("_timestamp" :: snapshotKeys)) o r ∪ r.

Lemma matches_byId o r : matches [byId] o r = keyed o r.
Proof. unfold matches, keyed. cbn. apply andb_true_r. Qed.

Lemma matches_equal o r :
  matches (sel_where (isLatestSnapshotEqual st)) o r = keyed o r && sameSnapshot o r.
Proof.
  unfold matches, sameSnapshot. cbn [isLatestSnapshotEqual getStatements sel_where forallb].
  f_equal. induction snapshotKeys as [|k ks IH]; [reflexivity|].
  cbn [map forallb]. f_equal. exact IH.
Qed.

Lemma whereParams_snapshotKeys :
  whereParams (map (fun k => {| c_col := k; c_cmp := CmpIs; c_rhs := Param k |})
                 snapshotKeys) = snapshotKeys.
Proof.
  unfold whereParams. induction snapshotKeys as [|k ks IH]; [reflexivity|].
  cbn [map flat_map c_rhs exprParams app]. f_equal. exact IH.
Qed.

Lemma find_congr {A} (f g : A -> bool) l :
  (forall x, f x = g x) -> List.find f l = List.find g l.
Proof.
  intros H. induction l as [|x l IH]; [reflexivity|]. cbn [List.find].
  rewrite H, IH. reflexivity.
Qed.

Lemma get_doesExist o t :
  is_Some (o !! "id") ->
  get (doesExist st) o t = Ok (project one o <$> List.find (keyed o) t).
Proof.
  intros Hid. unfold get.
  replace (bound o (selectParams (doesExist st))) with true.
  2:{ cbn. rewrite bool_decide_eq_true_2 by exact Hid. reflexivity. }
  f_equal. f_equal. apply find_congr. intros r.
  unfold selects. cbn [doesExist getStatements sel_where sel_getAll andb].
  rewrite orb_false_r. apply matches_byId.
Qed.

Lemma get_getTimestamp o t :
  is_Some (o !! "id") ->
  get (getTimestamp st) o t =
  Ok (project [sameCol "_timestamp"] o <$> List.find (keyed o) t).
Proof.
  intros Hid. unfold get.
  replace (bound o (selectParams (getTimestamp st))) with true.
  2:{ cbn. rewrite bool_decide_eq_true_2 by exact Hid. reflexivity. }
  f_equal. f_equal. apply find_congr. intros r.
  unfold selects. cbn [getTimestamp getStatements sel_where sel_getAll andb].
  rewrite orb_false_r. apply matches_byId.
Qed.

Lemma get_isLatestSnapshotEqual o t :
  bound o ("id" :: snapshotKeys) = true ->
  get (isLatestSnapshotEqual st) o t =
  Ok (project one o <$> List.find (fun r => keyed o r && sameSnapshot o r) t).
Proof.
  intros Hb. unfold get.
  replace (bound o (selectParams (isLatestSnapshotEqual st))) with true.
  2:{ symmetry. unfold selectParams.
      cbn [isLatestSnapshotEqual getStatements sel_cols sel_where sel_getAll
           one flat_map snd exprParams app whereParams c_rhs].
      rewrite app_nil_r.
      change (flat_map (fun c => exprParams (c_rhs c)) ?l) with (whereParams l).
      rewrite whereParams_snapshotKeys. exact Hb. }
  f_equal. f_equal. apply find_congr. intros r.
  unfold selects. cbn [isLatestSnapshotEqual getStatements sel_getAll andb].
  rewrite orb_false_r. apply matches_equal.
Qed.

Lemma get_getLatestSnapshot o t :
  is_Some (o !! "id") ->
  get (getLatestSnapshot st) (<["$getAll" := VInt 0]> o) t =
  Ok (project (sel_cols (getLatestSnapshot st)) (<["$getAll" := VInt 0]> o)
        <$> List.find (keyed o) t).
Proof.
  intros Hid. unfold get.
  replace (bound _ (selectParams (getLatestSnapshot st))) with true.
  2:{ symmetry. unfold selectParams.
      cbn [getLatestSnapshot getStatements sel_cols sel_where sel_getAll].
      rewrite params_sameCol. cbn [app whereParams flat_map byId c_rhs exprParams bound forallb].
      rewrite lookup_insert_ne by discriminate.
      rewrite lookup_insert_eq.
      rewrite !bool_decide_eq_true_2; [reflexivity|eexists; reflexivity|exact Hid]. }
  f_equal. f_equal. apply find_congr. intros r.
  unfold selects. cbn [getLatestSnapshot getStatements sel_where sel_getAll andb].
  rewrite lookup_insert_eq.
  change (sqlEq (default VNull (Some (VInt 0))) (VInt 1)) with false.
  rewrite orb_false_r, matches_byId. unfold keyed.
  rewrite lookup_insert_ne by discriminate. reflexivity.
Qed.

Lemma runInsert_addLatestSnapshot o t :
  runInsert (addLatestSnapshot st) o t =
  if bound o insertColumns then Ok (t ++ [insertedRow o])
  else Throw missingNamedParameter.
Proof.
  unfold runInsert, insertParams.
  cbn [addLatestSnapshot getStatements ins_values].
  fold insertColumns. rewrite bound_sameName. reflexivity.
Qed.

Lemma project_sameCol_any cols o o' r :
  project (map sameCol cols) o r = project (map sameCol cols) o' r.
Proof. apply map_eq. intros c. rewrite !lookup_project_sameCol. reflexivity. Qed.

Lemma runInsertSelect_copyLatestSnapshot o l1 r l2 prev :
  is_Some (o !! "id") -> absent o l1 -> absent o l2 -> keyed o r = true ->
  runInsertSelect (copyLatestSnapshot st) o (l1 ++ r :: l2) prev =
  Ok (prev ++ [copiedRow r]).
Proof.
  intros Hid H1 H2 Hr. unfold runInsertSelect.
  replace (bound o (insertSelectParams (copyLatestSnapshot st))) with true.
  2:{ symmetry. unfold insertSelectParams.
      cbn [copyLatestSnapshot getStatements is_values is_where].
      rewrite params_sameCol. cbn.
      rewrite bool_decide_eq_true_2 by exact Hid. reflexivity. }
  cbn [copyLatestSnapshot getStatements is_values is_where].
  rewrite (List.filter_ext _ (keyed o)) by (intros x; apply matches_byId).
  rewrite (filter_only (keyed o) l1 r l2 H1 H2 Hr). cbn [map].
  unfold copiedRow. rewrite (project_sameCol_any _ o ∅). reflexivity.
Qed.

Lemma runUpdate_replaceLatestSnapshot o l1 r l2 :
  bound o ("id" :: "_timestamp" :: snapshotKeys) = true ->
  absent o l1 -> absent o l2 -> keyed o r = true ->
  runUpdate (replaceLatestSnapshot st) o (l1 ++ r :: l2) =
  Ok (l1 ++ replacedRow o r :: l2).
Proof.
  intros Hb H1 H2 Hr. unfold runUpdate.
  replace (bound o (updateParams (replaceLatestSnapshot st))) with true.
  2:{ symmetry. unfold updateParams.
      cbn [replaceLatestSnapshot getStatements upd_set upd_where].
      rewrite bound_app, bound_sameName.
      rewrite bound_cons in Hb. apply andb_true_iff in Hb as [Hid Hb].
      rewrite Hb. cbn [whereParams flat_map byId c_rhs exprParams app andb].
      rewrite bound_cons, Hid. reflexivity. }
  f_equal.
  rewrite (map_ext _ (fun y => if keyed o y then replacedRow o y else y)).
  2:{ intros y. unfold updateRow.
      cbn [replaceLatestSnapshot getStatements upd_set upd_where].
      rewrite matches_byId. reflexivity. }
  apply map_only; assumption.
Qed.

Lemma sqlEq_refl v : v <> VNull -> sqlEq v v = true.
Proof.
  intros Hv. unfold sqlEq. destruct v; try contradiction;
    apply bool_decide_eq_true_2; reflexivity.
Qed.

Lemma sqlIs_refl v : sqlIs v v = true.
Proof. apply bool_decide_eq_true_2. reflexivity. Qed.

Lemma bound_incl o ps qs :
  bound o ps = true -> (forall q, q ∈ qs -> q ∈ ps) -> bound o qs = true.
Proof.
  intros Hb Hincl. unfold bound. apply forallb_forall. intros q Hq.
  apply list_elem_of_In in Hq. apply bool_decide_eq_true_2.
  apply (bound_In o ps); [exact Hb|]. apply Hincl. exact Hq.
Qed.

Lemma insertColumns_id : "id" ∈ insertColumns.
Proof. unfold insertColumns. set_solver. Qed.

Lemma insertColumns_timestamp : "_timestamp" ∈ insertColumns.
Proof. unfold insertColumns. set_solver. Qed.

Lemma insertColumns_snapshotKeys k : k ∈ snapshotKeys -> k ∈ insertColumns.
Proof. unfold insertColumns. set_solver. Qed.

Lemma fullObject_bound o :
  fullObject o -> bound o ("id" :: "_timestamp" :: snapshotKeys) = true.
Proof.
  intros Hfull. apply (bound_incl o insertColumns); [exact Hfull|].
  intros q Hq. apply elem_of_cons in Hq as [->|Hq]; [apply insertColumns_id|].
  apply elem_of_cons in Hq as [->|Hq]; [apply insertColumns_timestamp|].
  apply insertColumns_snapshotKeys. exact Hq.
Qed.

Lemma keyed_insertedRow o :
  default VNull (o !! "id") <> VNull -> keyed o (insertedRow o) = true.
Proof.
  intros Hid. unfold keyed, insertedRow.
  rewrite col_project_sameName by apply insertColumns_id.
  apply sqlEq_refl. exact Hid.
Qed.

Lemma sameSnapshot_insertedRow o : sameSnapshot o (insertedRow o) = true.
Proof.
  unfold sameSnapshot. apply forallb_forall. intros k Hk.
  apply list_elem_of_In in Hk. unfold insertedRow.
  rewrite col_project_sameName by (apply insertColumns_snapshotKeys; exact Hk).
  apply sqlIs_refl.
Qed.

Lemma insertedRow_timestamp o :
  insertedRow o !! "_timestamp" = Some (default VNull (o !! "_timestamp")).
Proof.
  unfold insertedRow. rewrite lookup_project_sameName.
  rewrite bool_decide_eq_true_2 by apply insertColumns_timestamp. reflexivity.
Qed.

(** What [addSnapshot] does once the latest row [r] of the object is at
    hand, for an object [m] that binds the parameters of the statements. *)
Lemma addToExisting_spec m l1 r l2 prev ts ts0 :
  bound m ("id" :: "_timestamp" :: snapshotKeys) = true ->
  m !! "_timestamp" = Some (VInt ts) ->
  r !! "_timestamp" = Some (VInt ts0) ->
  absent m l1 -> absent m l2 -> keyed m r = true ->
  addToExisting st m true {| latest := l1 ++ r :: l2; previous := prev |} =
  if sameSnapshot m r then
    ({| latest := l1 ++ r :: l2; previous := prev |}, Ok SAME_AS_LATEST)
  else if ts <=? ts0 then
    ({| latest := l1 ++ r :: l2; previous := prev |}, Throw notMoreRecent)
  else
    ({| latest := l1 ++ replacedRow m r :: l2; previous := prev ++ [copiedRow r] |},
     Ok ADDED_ANOTHER_SNAPSHOT).
Proof.
  intros Hb Hts Hts0 H1 H2 Hr.
  assert (Hid : is_Some (m !! "id")).
  { apply (bound_In m _ "id" Hb). left. }
  assert (Hb' : bound m ("id" :: snapshotKeys) = true).
  { apply (bound_incl m _ _ Hb). intros q Hq.
    apply elem_of_cons in Hq as [->|Hq]; [left|right; right; exact Hq]. }
  unfold addToExisting. cbn [latest previous].
  rewrite get_isLatestSnapshotEqual by exact Hb'.
  destruct (sameSnapshot m r) eqn:Hs.
  - rewrite (find_first _ l1 r l2).
    + reflexivity.
    + eapply Forall_impl; [exact H1|]. cbn. intros x ->. reflexivity.
    + rewrite Hr, Hs. reflexivity.
  - rewrite find_absent.
    2:{ apply Forall_app. split.
        - eapply Forall_impl; [exact H1|]. cbn. intros x ->. reflexivity.
        - constructor; [rewrite Hs; apply andb_false_r|].
          eapply Forall_impl; [exact H2|]. cbn. intros x ->. reflexivity. }
    cbn [fmap option_fmap option_map]. rewrite Hts. cbn [timestampOf].
    rewrite get_getTimestamp by exact Hid.
    rewrite (find_first _ l1 r l2 H1 Hr).
    cbn [fmap option_fmap option_map].
    replace (project [sameCol "_timestamp"] m r !! "_timestamp")
      with (Some (VInt ts0)).
    2:{ unfold project. cbn [map list_to_map foldr sameCol fst snd eval].
        rewrite lookup_insert_eq. unfold col. rewrite Hts0. reflexivity. }
    cbn [timestampOf].
    destruct (ts <=? ts0); [reflexivity|].
    rewrite runInsertSelect_copyLatestSnapshot by assumption.
    cbn [latest].
    rewrite runUpdate_replaceLatestSnapshot by assumption.
    reflexivity.
Qed.

(** A full add of an object with no latest row. *)
Lemma addSnapshot_first o t :
  fullObject o -> absent o (latest t) ->
  addSnapshot st o false true t =
  ({| latest := latest t ++ [insertedRow o]; previous := previous t |},
   Ok ADDED_FIRST_SNAPSHOT).
Proof.
  intros Hfull Habs.
  assert (Hid : is_Some (o !! "id")).
  { apply (bound_In o _ "id" Hfull). apply insertColumns_id. }
  unfold addSnapshot. rewrite get_doesExist by exact Hid.
  rewrite (find_absent _ _ Habs). cbn [fmap option_fmap option_map].
  unfold addFirst. rewrite runInsert_addLatestSnapshot.
  unfold fullObject in Hfull. rewrite Hfull. reflexivity.
Qed.

(** A full add of an object whose latest row is [r]. *)
Lemma addSnapshot_existing o l1 r l2 prev ts ts0 :
  fullObject o ->
  o !! "_timestamp" = Some (VInt ts) ->
  r !! "_timestamp" = Some (VInt ts0) ->
  absent o l1 -> absent o l2 -> keyed o r = true ->
  addSnapshot st o false true {| latest := l1 ++ r :: l2; previous := prev |} =
  if sameSnapshot o r then
    ({| latest := l1 ++ r :: l2; previous := prev |}, Ok SAME_AS_LATEST)
  else if ts <=? ts0 then
    ({| latest := l1 ++ r :: l2; previous := prev |}, Throw notMoreRecent)
  else
    ({| latest := l1 ++ replacedRow o r :: l2; previous := prev ++ [copiedRow r] |},
     Ok ADDED_ANOTHER_SNAPSHOT).
Proof.
  intros Hfull Hts Hts0 H1 H2 Hr.
  assert (Hid : is_Some (o !! "id")).
  { apply (bound_In o _ "id" Hfull). apply insertColumns_id. }
  unfold addSnapshot. rewrite get_doesExist by exact Hid. cbn [latest].
  rewrite (find_first _ l1 r l2 H1 Hr). cbn [fmap option_fmap option_map].
  apply addToExisting_spec; try assumption.
  apply fullObject_bound. exact Hfull.
Qed.

(** Adding the object a second time, right after its first snapshot. *)
Lemma addSnapshot_again o t ts :
  fullObject o ->
  default VNull (o !! "id") <> VNull ->
  o !! "_timestamp" = Some (VInt ts) ->
  absent o (latest t) ->
  let t1 := {| latest := latest t ++ [insertedRow o]; previous := previous t |} in
  addSnapshot st o false true t1 = (t1, Ok SAME_AS_LATEST).
Proof.
  intros Hfull Hid Hts Habs t1. subst t1.
  rewrite (addSnapshot_existing o (latest t) (insertedRow o) [] (previous t) ts ts);
    try assumption.
  - rewrite sameSnapshot_insertedRow. reflexivity.
  - rewrite insertedRow_timestamp, Hts. reflexivity.
  - constructor.
  - apply keyed_insertedRow. exact Hid.
Qed.

(** *** Partial adds *)

(** [Object.assign(oldObject, object)] for the latest row [r]. *)
Definition mergedObject (o : object) (r : row) : object :=
  <["$getAll" := VInt 0]> o ∪
  project (sel_cols (getLatestSnapshot st)) (<["$getAll" := VInt 0]> o) r.


Lemma mergedObject_lookup_l o r k v :
  k <> "$getAll" -> o !! k = Some v -> mergedObject o r !! k = Some v.
Proof.
  intros Hk Hv. unfold mergedObject. apply lookup_union_Some_l.
  rewrite lookup_insert_ne by congruence. exact Hv.
Qed.

Lemma mergedObject_lookup_r o r k :
  k <> "$getAll" -> o !! k = None ->
  k ∈ ["id"; "_deleted"] ++ objectKeys ++ ["_timestamp"] ++ snapshotKeys ->
  mergedObject o r !! k = Some (col r k).
Proof.
  intros Hk Hv Hin. unfold mergedObject. rewrite lookup_union_r.
  - cbn [getLatestSnapshot getStatements sel_cols].
    rewrite lookup_project_sameCol, bool_decide_eq_true_2 by exact Hin.
    reflexivity.
  - rewrite lookup_insert_ne by congruence. exact Hv.
Qed.

Lemma mergedObject_bound o r :
  bound (mergedObject o r) ("id" :: "_timestamp" :: snapshotKeys) = true.
Proof.
  unfold bound. apply forallb_forall. intros k Hk.
  apply bool_decide_eq_true_2. unfold mergedObject.
  apply list_elem_of_In in Hk.
  assert (Hin : k ∈ ["id"; "_deleted"] ++ objectKeys ++ ["_timestamp"] ++ snapshotKeys).
  { apply elem_of_cons in Hk as [->|Hk]; [set_solver|].
    apply elem_of_cons in Hk as [->|Hk]; set_solver. }
  apply lookup_union_is_Some. right.
  cbn [getLatestSnapshot getStatements sel_cols].
  rewrite lookup_project_sameCol, bool_decide_eq_true_2 by exact Hin.
  eexists. reflexivity.
Qed.

Lemma keyed_mergedObject o r x :
  is_Some (o !! "id") -> keyed (mergedObject o r) x = keyed o x.
Proof.
  intros [v Hv]. unfold keyed.
  rewrite (mergedObject_lookup_l o r "id" v) by (discriminate || exact Hv).
  rewrite Hv. reflexivity.
Qed.

Lemma absent_mergedObject o r l :
  is_Some (o !! "id") -> absent o l -> absent (mergedObject o r) l.
Proof.
  intros Hid Habs. unfold absent. eapply Forall_impl; [exact Habs|].
  cbn. intros x Hx. rewrite keyed_mergedObject by exact Hid. exact Hx.
Qed.

(** A partial add of an object whose latest row is [r]. *)
Lemma addSnapshot_partial_existing o l1 r l2 prev :
  is_Some (o !! "id") -> absent o l1 -> keyed o r = true ->
  addSnapshot st o true true {| latest := l1 ++ r :: l2; previous := prev |} =
  addToExisting st (mergedObject o r) true
    {| latest := l1 ++ r :: l2; previous := prev |}.
Proof.
  intros Hid H1 Hr. unfold addSnapshot. cbn [latest].
  rewrite get_getLatestSnapshot by exact Hid.
  rewrite (find_first _ l1 r l2 H1 Hr). reflexivity.
Qed.


(** *** When [addSnapshot] throws *)







(** The contract of a full add, case by case, for an object [o] and a
    table that holds either no row of [o] ([l1 ++ l2]) or the one latest
    row [r] ([l1 ++ r :: l2]): with no row the object is inserted; with
    a row whose monitored fields are those of the object nothing is
    written; with a row that differs and is older, the row is copied to
    the previous snapshots and then replaced in place; and adding the
    object again right after its first snapshot writes nothing. *)
Theorem addSnapshot_full_contract o l1 r l2 prev ts ts0 :
  fullObject o ->
  default VNull (o !! "id") <> VNull ->
  o !! "_timestamp" = Some (VInt ts) ->
  r !! "_timestamp" = Some (VInt ts0) ->
  absent o l1 -> absent o l2 -> keyed o r = true ->
  let without := {| latest := l1 ++ l2; previous := prev |} in
  let stored := {| latest := l1 ++ r :: l2; previous := prev |} in
  let first := {| latest := (l1 ++ l2) ++ [insertedRow o]; previous := prev |} in
  addSnapshot st o false true without = (first, Ok ADDED_FIRST_SNAPSHOT) /\
  (sameSnapshot o r = true ->
   addSnapshot st o false true stored = (stored, Ok SAME_AS_LATEST)) /\
  (sameSnapshot o r = false -> ts0 < ts ->
   addSnapshot st o false true stored =
   ({| latest := l1 ++ replacedRow o r :: l2; previous := prev ++ [copiedRow r] |},
    Ok ADDED_ANOTHER_SNAPSHOT)) /\
  addSnapshot st o false true first = (first, Ok SAME_AS_LATEST).
Proof.
  intros Hfull Hid Hts Hts0 H1 H2 Hr without stored first.
  assert (Habs : absent o (l1 ++ l2)) by (apply Forall_app; split; assumption).
  split; [|split; [|split]].
  - apply (addSnapshot_first o without Hfull Habs).
  - intros Hs. unfold stored.
    rewrite (addSnapshot_existing o l1 r l2 prev ts ts0) by assumption.
    rewrite Hs. reflexivity.
  - intros Hs Hlt. unfold stored.
    rewrite (addSnapshot_existing o l1 r l2 prev ts ts0) by assumption.
    rewrite Hs. replace (ts <=? ts0) with false by lia. reflexivity.
  - apply (addSnapshot_again o without ts Hfull Hid Hts Habs).
Qed.

End Generic.

(** *** Worked tables *)

(** [objectStatements.user] *)
Definition userSnapshotKeys : list string :=
  ["username"; "discriminator"; "global_name"; "avatar"; "public_flags"].

Definition userStatements : ObjectStatements :=
  getStatements userSnapshotKeys ["bot"].

(** An encoded user, as [ADD_USER_SNAPSHOT] hands it to [addSnapshot]. *)
Definition userObject (ts : Z) (username : string) : object :=
  list_to_map
    [ ("id", VInt 1); ("bot", VInt 0); ("_timestamp", VInt ts);
      ("username", VText username); ("discriminator", VNull);
      ("global_name", VNull); ("avatar", VNull); ("public_flags", VInt 0) ].

Definition noTables : tables := {| latest := []; previous := [] |}.

(** The tables after the first snapshot of a user taken at time 10. *)
Definition userTables : tables :=
  fst (addSnapshot userStatements (userObject 10 "ann") false true noTables).

(** An encoded member, as [ADD_MEMBER_SNAPSHOT] hands it to
    [addSnapshot]: one role, joined on 2020-01-01. *)
Definition memberObject (ts : Z) : object :=
  list_to_map
    [ ("_user_id", VInt 5); ("_guild_id", VInt 9); ("_timestamp", VInt ts);
      ("nick", VNull); ("avatar", VNull);
      ("roles", VBlob [0; 0; 0; 0; 0; 0; 0; 1]);
      ("joined_at", VInt 1577836800000); ("premium_since", VNull);
      ("flags", VInt 0); ("pending", VInt 0); ("permissions", VNull);
      ("communication_disabled_until", VNull) ].

Definition memberTables : tables :=
  fst (addSnapshot memberStatements (memberObject 10) false true noTables).

Lemma user_added_twice :
  snd (addSnapshot userStatements (userObject 10 "ann") false true noTables)
    = Ok ADDED_FIRST_SNAPSHOT /\
  addSnapshot userStatements (userObject 10 "ann") false true userTables
    = (userTables, Ok SAME_AS_LATEST).
Proof. split; vm_compute; reflexivity. Qed.

(** C6 (the code departs from it for members). The [INSERT] written out
    for [latest_member_snapshots] lists the columns [joined_at, roles]
    against the values [:roles, :joined_at]: the first snapshot of a
    member is stored with the two swapped, so the same member added again
    is not found equal to its latest row.  With the same timing the add
    throws; with a later one it records another snapshot. *)
Lemma member_added_twice_is_not_a_no_op :
  snd (addSnapshot memberStatements (memberObject 10) false true noTables)
    = Ok ADDED_FIRST_SNAPSHOT /\
  map (fun r => (col r "roles", col r "joined_at")) (latest memberTables)
    = [(VInt 1577836800000, VBlob [0; 0; 0; 0; 0; 0; 0; 1])] /\
  addSnapshot memberStatements (memberObject 10) false true memberTables
    = (memberTables, Throw notMoreRecent) /\
  snd (addSnapshot memberStatements (memberObject 12) false true memberTables)
    = Ok ADDED_ANOTHER_SNAPSHOT.
Proof. repeat split; vm_compute; reflexivity. Qed.






Lemma addSnapshot_full_contract_witness :
  addSnapshot userStatements (userObject 12 "anna") false true
    {| latest := [insertedRow userSnapshotKeys ["bot"] (userObject 10 "ann")];
       previous := [] |}
  = ({| latest := [replacedRow userSnapshotKeys (userObject 12 "anna")
                     (insertedRow userSnapshotKeys ["bot"] (userObject 10 "ann"))];
        previous := [copiedRow userSnapshotKeys
                       (insertedRow userSnapshotKeys ["bot"] (userObject 10 "ann"))] |},
     Ok ADDED_ANOTHER_SNAPSHOT).
Proof.
  refine (proj1 (proj2 (proj2
    (addSnapshot_full_contract userSnapshotKeys ["bot"] (userObject 12 "anna") []
       (insertedRow userSnapshotKeys ["bot"] (userObject 10 "ann")) [] [] 12 10
       _ _ _ _ _ _ _))) _ _).
  - vm_compute. reflexivity.
  - vm_compute. discriminate.
  - vm_compute. reflexivity.
  - vm_compute. reflexivity.
  - constructor.
  - constructor.
  - vm_compute. reflexivity.
  - vm_compute. reflexivity.
  - lia.
Defined.

(** *** Reactions *)

Record Timing := { timestamp : Z; realtime : bool }.

(** [encodeTiming]: [0n] for [null], else
    [BigInt(timestamp) << 1n | BigInt(realtime)]. *)
Definition encodeTiming (timing : option Timing) : Z :=
  match timing with
  | None => 0
  | Some t => Z.lor (Z.shiftl (timestamp t) 1) (Z.b2z (realtime t))
  end.

(** [APIPartialEmoji]: a custom emoji has an [id], a built-in one only a
    [name] (the fields [emoji_id] and [emoji_name] here). *)
Record APIPartialEmoji := { emoji_id : option Z; emoji_name : option string }.

(** [encodeEmoji] of [generic-encoding.ts]. *)
Definition encodeEmoji (emoji : APIPartialEmoji) : value :=
  match emoji_id emoji with
  | Some i => VInt i
  | None => match emoji_name emoji with Some n => VText n | None => VNull end
  end.

Definition whereIs (c : string) (e : expr) : cond :=
  {| c_col := c; c_cmp := CmpIs; c_rhs := e |}.

(** The prepared statements over the [reactions] table. *)
Definition addReactionPlacement : insert :=
  {| ins_values :=
       [ ("message_id", Param "message_id"); ("emoji", Param "emoji");
         ("type", Param "type"); ("user_id", Param "user_id");
         ("start", Param "start"); ("end", Lit VNull) ] |}.


Definition markReactionsAsRemovedByMessage : update :=
  {| upd_set := [("end", Param "end")];
     upd_where := [ whereIs "message_id" (Param "message_id"); whereIs "end" (Lit VNull) ] |}.

Definition markReactionsAsRemovedByMessageAndEmoji : update :=
  {| upd_set := [("end", Param "end")];
     upd_where :=
       [ whereIs "message_id" (Param "message_id"); whereIs "emoji" (Param "emoji");
         whereIs "end" (Lit VNull) ] |}.

Definition checkForReaction : select :=
  {| sel_cols := one;
     sel_where :=
       [ whereIs "message_id" (Param "message_id"); whereIs "emoji" (Param "emoji");
         whereIs "type" (Param "type"); whereIs "user_id" (Param "user_id");
         whereIs "end" (Lit VNull) ];
     sel_getAll := false |}.

(** The reaction requests of the request handler, over the [reactions]
    table. *)
Definition ADD_REACTION_PLACEMENT (messageID : Z) (emoji : APIPartialEmoji)
    (reactionType userID : Z) (timing : Timing) (t : list row) : result (list row) :=
  let o : object :=
    list_to_map [ ("message_id", VInt messageID); ("emoji", encodeEmoji emoji);
                  ("type", VInt reactionType); ("user_id", VInt userID) ] in
  let* found := get checkForReaction o t in
  match found with
  | None => runInsert addReactionPlacement
              (<["start" := VInt (encodeTiming (Some timing))]> o) t
  | Some _ => Ok t
  end.


Definition MARK_REACTIONS_AS_REMOVED_BULK (messageID : Z)
    (emoji : option APIPartialEmoji) (timing : Timing) (t : list row)
  : result (list row) :=
  match emoji with
  | None =>
    runUpdate markReactionsAsRemovedByMessage
      (list_to_map [ ("message_id", VInt messageID);
                     ("end", VInt (encodeTiming (Some timing))) ]) t
  | Some e =>
    runUpdate markReactionsAsRemovedByMessage
      (list_to_map [ ("message_id", VInt messageID); ("emoji", encodeEmoji e);
                     ("end", VInt (encodeTiming (Some timing))) ]) t
  end.

(** A placement with no end time. *)
Definition isOpen (r : row) : bool := sqlIs (col r "end") VNull.

(** Set the end time of the rows [P] picks, leave the others as they
    are. *)
Definition closeWhere (P : row -> bool) (endTime : Z) (t : list row) : list row :=
  map (fun r => if P r then <["end" := VInt endTime]> r else r) t.

Lemma project_end o r :
  project [("end", Param "end")] o r ∪ r = <["end" := default VNull (o !! "end")]> r.
Proof.
  unfold project. cbn [map list_to_map foldr fst snd eval].
  rewrite insert_empty. symmetry. apply insert_union_singleton_l.
Qed.


Lemma MARK_REACTIONS_AS_REMOVED_BULK_closes messageID emoji timing t :
  MARK_REACTIONS_AS_REMOVED_BULK messageID emoji timing t =
  Ok (closeWhere
        (fun r => sqlIs (col r "message_id") (VInt messageID) && isOpen r)
        (encodeTiming (Some timing)) t).
Proof.
  unfold MARK_REACTIONS_AS_REMOVED_BULK, closeWhere.
  destruct emoji as [e|]; unfold runUpdate;
    (replace (bound _ _) with true by reflexivity);
    f_equal; apply map_ext; intros r; unfold updateRow;
    rewrite project_end;
    (replace (matches _ _ r)
       with (sqlIs (col r "message_id") (VInt messageID) && isOpen r)
       by (unfold matches; cbn; rewrite andb_true_r; reflexivity));
    reflexivity.
Qed.

(** Message 7 carries two open placements: "sparkles" by user 100 and
    "fire" by user 200. *)
Definition sparkles : APIPartialEmoji := {| emoji_id := None; emoji_name := Some "sparkles" |}.
Definition fire : APIPartialEmoji := {| emoji_id := None; emoji_name := Some "fire" |}.
Definition at1000 : Timing := {| timestamp := 1000; realtime := true |}.
Definition at2000 : Timing := {| timestamp := 2000; realtime := true |}.

Definition twoReactions : result (list row) :=
  let* t := ADD_REACTION_PLACEMENT 7 sparkles 0 100 at1000 [] in
  ADD_REACTION_PLACEMENT 7 fire 0 200 at1000 t.

Definition endTimes (t : result (list row)) : result (list (value * value)) :=
  let* t := t in Ok (map (fun r => (col r "emoji", col r "end")) t).

(** C8 (the code departs from it). [MESSAGE_REACTION_REMOVE_EMOJI] for
    "sparkles" on message 7 runs [markReactionsAsRemovedByMessage] with an
    [emoji] property that the statement has no parameter for: the open
    "fire" placement is closed too.  The statement written for the case,
    [markReactionsAsRemovedByMessageAndEmoji], would have closed
    "sparkles" alone. *)
Lemma bulk_removal_of_one_emoji_closes_the_others :
  endTimes (let* t := twoReactions in
            MARK_REACTIONS_AS_REMOVED_BULK 7 (Some sparkles) at2000 t)
    = Ok [(VText "sparkles", VInt 4001); (VText "fire", VInt 4001)] /\
  endTimes (let* t := twoReactions in
            runUpdate markReactionsAsRemovedByMessageAndEmoji
              (list_to_map [ ("message_id", VInt 7);
                             ("emoji", encodeEmoji sparkles);
                             ("end", VInt (encodeTiming (Some at2000))) ]) t)
    = Ok [(VText "sparkles", VInt 4001); (VText "fire", VNull)].
Proof. split; vm_compute; reflexivity. Qed.

(** *** Timings *)

(** [decodeTiming(timing)] for the [bigint | null] of a column.  A
    timestamp is a number that [BigInt] accepted, an integer, and
    [Number] of that integer is the number again. *)
Definition decodeTiming (timing : option Z) : option Timing :=
  match timing with
  | None => None
  | Some z =>
    if z =? 0 then None
    else Some {| timestamp := Z.shiftr z 1; realtime := negb (Z.land z 1 =? 0) |}
  end.

Lemma encodeTiming_double t :
  encodeTiming (Some t) = 2 * timestamp t + Z.b2z (realtime t).
Proof.
  cbn [encodeTiming]. apply Z.bits_inj'. intros n Hn.
  rewrite Z.lor_spec.
  destruct (Z.eq_dec n 0) as [->|Hpos].
  - rewrite Z.testbit_0_r, Z.shiftl_spec_low by lia.
    rewrite Z.b2z_bit0. reflexivity.
  - replace n with (Z.succ (n - 1)) by lia.
    rewrite Z.testbit_succ_r by lia.
    rewrite Z.shiftl_spec by lia.
    replace (Z.succ (n - 1) - 1) with (n - 1) by lia.
    replace (Z.testbit (Z.b2z (realtime t)) (Z.succ (n - 1))) with false;
      [apply orb_false_r|].
    destruct (realtime t); cbn [Z.b2z]; [|rewrite Z.testbit_0_l; reflexivity].
    symmetry. apply (Z.bits_above_log2 1); cbn; lia.
Qed.

(** A timing comes back from its encoding, except the timing of the epoch
    that is not realtime: it is encoded as [0n], which is how [null] is
    encoded, and decodes to [null]. *)
Theorem timing_roundtrip (t : Timing) :
  decodeTiming (Some (encodeTiming (Some t))) =
  if (timestamp t =? 0) && negb (realtime t) then None else Some t.
Proof.
  rewrite encodeTiming_double. unfold decodeTiming.
  destruct t as [ts rt]. cbn [timestamp realtime].
  assert (Hshift : Z.shiftr (2 * ts + Z.b2z rt) 1 = ts).
  { rewrite Z.shiftr_div_pow2 by lia. change (2 ^ 1) with 2.
    destruct rt; cbn [Z.b2z]; Z.div_mod_to_equations; lia. }
  assert (Hbit : negb (Z.land (2 * ts + Z.b2z rt) 1 =? 0) = rt).
  { pose proof (Z.land_ones (2 * ts + Z.b2z rt) 1 ltac:(lia)) as Hmod.
    change (Z.ones 1) with 1 in Hmod. change (2 ^ 1) with 2 in Hmod.
    rewrite Hmod. destruct rt; cbn [Z.b2z].
    - replace ((2 * ts + 1) mod 2) with 1 by (Z.div_mod_to_equations; lia).
      reflexivity.
    - replace ((2 * ts + 0) mod 2) with 0 by (Z.div_mod_to_equations; lia).
      reflexivity. }
  rewrite Hshift, Hbit.
  destruct (Z.eqb_spec ts 0) as [->|Hts]; destruct rt; cbn [Z.b2z andb negb];
    try reflexivity.
  - destruct (Z.eqb_spec (2 * ts + 1) 0); [lia|reflexivity].
  - destruct (Z.eqb_spec (2 * ts + 0) 0); [lia|reflexivity].
Qed.

(** The encoding keeps the order of the timestamps, whatever [realtime]
    is, and tells any two timings apart. *)
Theorem encodeTiming_order (t1 t2 : Timing) :
  (timestamp t1 < timestamp t2 ->
   encodeTiming (Some t1) < encodeTiming (Some t2)) /\
  (encodeTiming (Some t1) < encodeTiming (Some t2) ->
   timestamp t1 <= timestamp t2) /\
  (encodeTiming (Some t1) = encodeTiming (Some t2) <-> t1 = t2).
Proof.
  rewrite !encodeTiming_double.
  destruct t1 as [ts1 rt1], t2 as [ts2 rt2]. cbn [timestamp realtime].
  split; [|split; [|split]].
  - destruct rt1, rt2; cbn [Z.b2z]; lia.
  - destruct rt1, rt2; cbn [Z.b2z]; lia.
  - intros H. destruct rt1, rt2; cbn [Z.b2z] in H; try lia; f_equal; lia.
  - intros [= -> ->]. reflexivity.
Qed.

(** *** Deletions *)

(** [markAsDeleted] of [getStatements]:
    [UPDATE latest_<name>_snapshots SET _deleted = :_deleted WHERE id = :id]. *)
Definition markAsDeleted : update :=
  {| upd_set := [("_deleted", Param "_deleted")]; upd_where := [byId] |}.

(** [MARK_ROLE_AS_DELETED], [MARK_CHANNEL_AS_DELETED] and
    [MARK_MESSAGE_AS_DELETED]: the statement is run and the response is
    [getChanges() > 0], the number of rows the [UPDATE] reached. *)
Definition MARK_AS_DELETED (id : Z) (timing : Timing) (t : list row)
  : result (list row * bool) :=
  let o : object :=
    list_to_map [ ("id", VInt id);
                  ("_deleted", VInt (encodeTiming (Some timing))) ] in
  let* t' := runUpdate markAsDeleted o t in
  Ok (t', (0 <? length (List.filter (matches (upd_where markAsDeleted) o) t))%nat).

(** The row of the object [id]. *)
Definition hasId (id : Z) (r : row) : bool := sqlEq (col r "id") (VInt id).

Definition deletedAt (id : Z) (timing : Timing) (r : row) : row :=
  if hasId id r
  then <["_deleted" := VInt (encodeTiming (Some timing))]> r else r.

Lemma MARK_AS_DELETED_spec id timing t :
  MARK_AS_DELETED id timing t =
  Ok (map (deletedAt id timing) t, existsb (hasId id) t).
Proof.
  unfold MARK_AS_DELETED, runUpdate.
  replace (bound _ _) with true by reflexivity. cbn [bind]. f_equal. f_equal.
  - apply map_ext. intros r. unfold updateRow, deletedAt.
    cbn [markAsDeleted upd_where upd_set]. rewrite matches_byId.
    replace (keyed _ r) with (hasId id r) by reflexivity.
    destruct (hasId id r); [|reflexivity].
    unfold project. cbn [map list_to_map foldr fst snd eval].
    rewrite insert_empty. symmetry. apply insert_union_singleton_l.
  - cbn [markAsDeleted upd_where].
    induction t as [|r t IH]; [reflexivity|].
    cbn [List.filter existsb]. rewrite matches_byId.
    replace (keyed _ r) with (hasId id r) by reflexivity.
    destruct (hasId id r); [reflexivity|exact IH].
Qed.

Lemma hasId_deletedAt id id' timing r :
  hasId id (deletedAt id' timing r) = hasId id r.
Proof.
  unfold deletedAt. destruct (hasId id' r); [|reflexivity].
  unfold hasId, col. rewrite lookup_insert_ne by discriminate. reflexivity.
Qed.

(** Marking an object as deleted answers whether a row has its id, and
    never fails; the rows of other objects are as they were and the row
    of the object changes in [_deleted] alone.  Marking it again answers
    the same and leaves the later time of deletion: the table is the one
    the second request alone would have given. *)
Theorem MARK_AS_DELETED_twice id first second t :
  exists t1 found,
    MARK_AS_DELETED id first t = Ok (t1, found) /\
    (found = true <-> exists r, r ∈ t /\ col r "id" = VInt id) /\
    Forall2 (fun r r1 => forall c,
               c <> "_deleted" \/ col r "id" <> VInt id -> col r1 c = col r c) t t1 /\
    MARK_AS_DELETED id second t1 = Ok (map (deletedAt id second) t, found) /\
    MARK_AS_DELETED id second t = Ok (map (deletedAt id second) t, found).
Proof.
  exists (map (deletedAt id first) t), (existsb (hasId id) t).
  split; [apply MARK_AS_DELETED_spec|]. split; [|split; [|split]].
  - rewrite existsb_exists. split.
    + intros (r & Hin & Hr). exists r. split; [apply list_elem_of_In, Hin|].
      unfold hasId, sqlEq in Hr. destruct (col r "id"); try discriminate.
      apply bool_decide_eq_true in Hr. exact Hr.
    + intros (r & Hin & Hr). exists r. split; [apply list_elem_of_In, Hin|].
      unfold hasId. rewrite Hr. apply sqlEq_refl. discriminate.
  - induction t as [|r t IH]; constructor; [|exact IH].
    intros c Hc. unfold deletedAt. destruct (hasId id r) eqn:Hr; [|reflexivity].
    unfold col. destruct Hc as [Hc|Hc].
    + rewrite lookup_insert_ne by congruence. reflexivity.
    + exfalso. apply Hc. unfold hasId, sqlEq in Hr.
      destruct (col r "id"); try discriminate.
      apply bool_decide_eq_true in Hr. exact Hr.
  - rewrite MARK_AS_DELETED_spec. f_equal. f_equal.
    + rewrite map_map. apply map_ext. intros r. unfold deletedAt at 1.
      rewrite hasId_deletedAt. unfold deletedAt.
      destruct (hasId id r); [|reflexivity]. apply insert_insert_eq.
    + induction t as [|r t IH]; [reflexivity|]. cbn [map existsb].
      rewrite hasId_deletedAt, IH. reflexivity.
  - apply MARK_AS_DELETED_spec.
Qed.

(** *** Members who leave *)

(** [ADD_MEMBER_LEAVE]: [addSnapshot(objectStatements.member,
    assignTiming({ _user_id, joined_at: null, ... }, req.timing))]. *)
Definition ADD_MEMBER_LEAVE (userID : Z) (timing : Timing) (t : tables)
  : tables * result AddSnapshotResult :=
  addSnapshot memberStatements
    (<["_timestamp" := VInt (encodeTiming (Some timing))]>
       (list_to_map
          [ ("_user_id", VInt userID); ("joined_at", VNull); ("nick", VNull);
            ("avatar", VNull); ("premium_since", VNull); ("pending", VNull);
            ("communication_disabled_until", VNull) ]))
    false true t.

Lemma unbound_parameter (o : object) params p :
  o !! p = None -> p ∈ params -> bound o params = false.
Proof.
  intros Hnone Hp. destruct (bound o params) eqn:Hbound; [|reflexivity].
  destruct (bound_In _ _ _ Hbound Hp) as [v Hv]. congruence.
Qed.

(** An object without [_guild_id] is not added to the members, partial
    or not: the first statement that [addSnapshot] runs names the
    parameter, and the call throws, whatever the tables hold, and writes
    nothing.  The object of [ADD_MEMBER_LEAVE] is such an object: the
    request always throws. *)
Theorem ADD_MEMBER_LEAVE_throws userID timing t :
  (forall o partial checkIfChanged,
     o !! "_guild_id" = None ->
     addSnapshot memberStatements o partial checkIfChanged t
     = (t, Throw missingNamedParameter)) /\
  ADD_MEMBER_LEAVE userID timing t = (t, Throw missingNamedParameter).
Proof.
  assert (Hthrows : forall o partial checkIfChanged,
            o !! "_guild_id" = None ->
            addSnapshot memberStatements o partial checkIfChanged t
            = (t, Throw missingNamedParameter)).
  { intros o partial checkIfChanged Hnone. unfold addSnapshot, get.
    destruct partial.
    - rewrite (unbound_parameter _ _ "_guild_id"); [reflexivity| |].
      + rewrite lookup_insert_ne by discriminate. exact Hnone.
      + cbn. set_solver.
    - rewrite (unbound_parameter _ _ "_guild_id" Hnone); [reflexivity|].
      cbn. set_solver. }
  split; [exact Hthrows|]. apply Hthrows. reflexivity.
Qed.

(** *** Placements and removals of reactions *)







Lemma isOpen_closed endTime r : isOpen (<["end" := VInt endTime]> r) = false.
Proof. unfold isOpen, col. rewrite lookup_insert_eq. reflexivity. Qed.

Lemma existsb_closeWhere (P Q : row -> bool) endTime t :
  (forall r, Q r = true -> isOpen r = true) ->
  (forall r, Q r = true -> P r = true) ->
  existsb Q (closeWhere P endTime t) = false.
Proof.
  intros Hopen Himp. unfold closeWhere. induction t as [|r t IH]; [reflexivity|].
  cbn [map existsb]. rewrite IH, orb_false_r.
  destruct (P r) eqn:HP.
  - apply not_true_is_false. intros HQ. apply Hopen in HQ.
    rewrite isOpen_closed in HQ. discriminate.
  - apply not_true_is_false. intros HQ. apply Himp in HQ. congruence.
Qed.

Lemma closeWhere_rows (P : row -> bool) endTime t :
  Forall2 (fun r r' => r' = if P r then <["end" := VInt endTime]> r else r)
    t (closeWhere P endTime t).
Proof.
  unfold closeWhere. induction t as [|r t IH]; constructor; [reflexivity|exact IH].
Qed.


(** An open placement on the message. *)
Definition openOn (messageID : Z) (r : row) : bool :=
  sqlIs (col r "message_id") (VInt messageID) && isOpen r.

(** The bulk removal, with an emoji or without one, never fails and
    leaves no open placement on the message: every open placement on the
    message gets the end time of the request, whatever its emoji, and
    every other row stays as it is. *)
Theorem MARK_REACTIONS_AS_REMOVED_BULK_leaves_none messageID emoji timing t :
  exists t',
    MARK_REACTIONS_AS_REMOVED_BULK messageID emoji timing t = Ok t' /\
    Forall2 (fun r r' =>
               r' = if openOn messageID r
                    then <["end" := VInt (encodeTiming (Some timing))]> r else r)
      t t' /\
    existsb (openOn messageID) t' = false.
Proof.
  eexists. split; [apply MARK_REACTIONS_AS_REMOVED_BULK_closes|].
  change (fun r => sqlIs (col r "message_id") (VInt messageID) && isOpen r)
    with (openOn messageID).
  split; [apply closeWhere_rows|].
  apply existsb_closeWhere; [|tauto].
  intros r Hr. unfold openOn in Hr. apply andb_true_iff in Hr as [_ Hr]. exact Hr.
Qed.

(** *** Partial adds, case by case *)

Section Partial.
Variables snapshotKeys objectKeys : list string.
Local Abbreviation st := (getStatements snapshotKeys objectKeys).
Local Abbreviation merged := (mergedObject snapshotKeys objectKeys).

(** The fields the partial object gives are those of the row. *)
Definition nothingNew (o : object) (r : row) : Prop :=
  forall k, k ∈ snapshotKeys -> o !! k = None \/ o !! k = Some (col r k).

Lemma sameSnapshot_merged o r :
  "$getAll" ∉ snapshotKeys -> nothingNew o r ->
  sameSnapshot snapshotKeys (merged o r) r = true.
Proof.
  intros Hkeys Hsame. unfold sameSnapshot. apply forallb_forall. intros k Hk.
  apply list_elem_of_In in Hk.
  assert (Hne : k <> "$getAll") by (intros ->; contradiction).
  destruct (Hsame k Hk) as [Hnone|Hsome].
  - rewrite (mergedObject_lookup_r snapshotKeys objectKeys o r k Hne Hnone).
    + apply sqlIs_refl.
    + rewrite !elem_of_app. right. right. right. exact Hk.
  - rewrite (mergedObject_lookup_l snapshotKeys objectKeys o r k _ Hne Hsome).
    apply sqlIs_refl.
Qed.

(** A partial add of an object with no latest row: the [INSERT] is tried
    with the object as it is, and the missing parameter it meets is
    answered by [PARTIAL_NO_SNAPSHOT], the tables untouched.  With a
    latest row, the object is laid over the row and added like a full
    object: nothing is written when the monitored fields are those of
    the row, the add throws when they differ and the timestamp is not
    greater, and otherwise the row is copied and then replaced. *)
Theorem addSnapshot_partial_contract o l1 r l2 prev ts ts0 :
  is_Some (o !! "id") ->
  o !! "_timestamp" = Some (VInt ts) ->
  r !! "_timestamp" = Some (VInt ts0) ->
  absent o l1 -> absent o l2 -> keyed o r = true ->
  let without := {| latest := l1 ++ l2; previous := prev |} in
  let stored := {| latest := l1 ++ r :: l2; previous := prev |} in
  addSnapshot st o true true without =
    (if bound (<["$getAll" := VInt 0]> o) (insertColumns snapshotKeys objectKeys)
     then ({| latest := (l1 ++ l2) ++
                [insertedRow snapshotKeys objectKeys (<["$getAll" := VInt 0]> o)];
              previous := prev |}, Ok ADDED_FIRST_SNAPSHOT)
     else (without, Ok PARTIAL_NO_SNAPSHOT)) /\
  addSnapshot st o true true stored =
    (if sameSnapshot snapshotKeys (merged o r) r then (stored, Ok SAME_AS_LATEST)
     else if ts <=? ts0 then (stored, Throw notMoreRecent)
     else ({| latest := l1 ++ replacedRow snapshotKeys (merged o r) r :: l2;
              previous := prev ++ [copiedRow snapshotKeys r] |},
           Ok ADDED_ANOTHER_SNAPSHOT)).
Proof.
  intros Hid Hts Hts0 H1 H2 Hr without stored. split.
  - unfold addSnapshot.
    rewrite get_getLatestSnapshot by exact Hid. cbn [latest without].
    rewrite find_absent by (apply Forall_app; split; assumption).
    cbn [fmap option_fmap option_map]. unfold addFirst.
    rewrite runInsert_addLatestSnapshot. cbn [latest previous].
    destruct (bound _ (insertColumns snapshotKeys objectKeys)); reflexivity.
  - unfold stored.
    rewrite (addSnapshot_partial_existing snapshotKeys objectKeys o l1 r l2 prev)
      by assumption.
    apply (addToExisting_spec snapshotKeys objectKeys (merged o r) l1 r l2 prev ts ts0).
    + apply mergedObject_bound.
    + apply mergedObject_lookup_l; [discriminate|exact Hts].
    + exact Hts0.
    + apply absent_mergedObject; assumption.
    + apply absent_mergedObject; assumption.
    + rewrite keyed_mergedObject by exact Hid. exact Hr.
Qed.

(** A partial add that brings nothing new writes nothing. *)
Theorem addSnapshot_partial_nothing_new o l1 r l2 prev ts ts0 :
  "$getAll" ∉ snapshotKeys ->
  is_Some (o !! "id") ->
  o !! "_timestamp" = Some (VInt ts) ->
  r !! "_timestamp" = Some (VInt ts0) ->
  absent o l1 -> absent o l2 -> keyed o r = true ->
  nothingNew o r ->
  addSnapshot st o true true {| latest := l1 ++ r :: l2; previous := prev |} =
  ({| latest := l1 ++ r :: l2; previous := prev |}, Ok SAME_AS_LATEST).
Proof.
  intros Hkeys Hid Hts Hts0 H1 H2 Hr Hsame.
  rewrite (addSnapshot_partial_existing snapshotKeys objectKeys o l1 r l2 prev)
    by assumption.
  rewrite (addToExisting_spec snapshotKeys objectKeys (merged o r) l1 r l2 prev ts ts0).
  - rewrite sameSnapshot_merged by assumption. reflexivity.
  - apply mergedObject_bound.
  - apply mergedObject_lookup_l; [discriminate|exact Hts].
  - exact Hts0.
  - apply absent_mergedObject; assumption.
  - apply absent_mergedObject; assumption.
  - rewrite keyed_mergedObject by exact Hid. exact Hr.
Qed.

End Partial.

(** The first snapshot of user 1, and partial objects for the user. *)
Definition userRow : row :=
  insertedRow userSnapshotKeys ["bot"] (userObject 10 "ann").

Definition renamedTo (ts : Z) (username : string) : object :=
  list_to_map [ ("id", VInt 1); ("_timestamp", VInt ts);
                ("username", VText username) ].

Lemma userRow_keyed_partial ts username :
  keyed (renamedTo ts username) userRow = true.
Proof. vm_compute. reflexivity. Qed.

Lemma userRow_timestamp : userRow !! "_timestamp" = Some (VInt 10).
Proof. vm_compute. reflexivity. Qed.

Lemma renamed_is_not_full :
  bound (<["$getAll" := VInt 0]> (renamedTo 12 "anna"))
    (insertColumns userSnapshotKeys ["bot"]) = false.
Proof. vm_compute. reflexivity. Qed.

Lemma renamed_differs :
  sameSnapshot userSnapshotKeys
    (mergedObject userSnapshotKeys ["bot"] (renamedTo 12 "anna") userRow) userRow
  = false.
Proof. vm_compute. reflexivity. Qed.

Lemma addSnapshot_partial_contract_witness :
  addSnapshot userStatements (renamedTo 12 "anna") true true noTables
    = (noTables, Ok PARTIAL_NO_SNAPSHOT) /\
  snd (addSnapshot userStatements (renamedTo 12 "anna") true true
         {| latest := [userRow]; previous := [] |})
    = Ok ADDED_ANOTHER_SNAPSHOT.
Proof.
  destruct (addSnapshot_partial_contract userSnapshotKeys ["bot"]
              (renamedTo 12 "anna") [] userRow [] [] 12 10) as [Hfirst Hstored].
  - eexists. reflexivity.
  - reflexivity.
  - exact userRow_timestamp.
  - constructor.
  - constructor.
  - apply userRow_keyed_partial.
  - split.
    + rewrite renamed_is_not_full in Hfirst. exact Hfirst.
    + rewrite renamed_differs in Hstored. exact (f_equal snd Hstored).
Defined.

Lemma addSnapshot_partial_nothing_new_witness :
  addSnapshot userStatements (renamedTo 12 "ann") true true
    {| latest := [userRow]; previous := [] |}
  = ({| latest := [userRow]; previous := [] |}, Ok SAME_AS_LATEST).
Proof.
  apply (addSnapshot_partial_nothing_new userSnapshotKeys ["bot"]
           (renamedTo 12 "ann") [] userRow [] [] 12 10).
  - intros Hin. apply list_elem_of_In in Hin. cbn in Hin.
    repeat (destruct Hin as [Hin|Hin]; [discriminate Hin|]). exact Hin.
  - eexists. reflexivity.
  - reflexivity.
  - exact userRow_timestamp.
  - constructor.
  - constructor.
  - apply userRow_keyed_partial.
  - intros k Hk. apply list_elem_of_In in Hk. cbn in Hk.
    destruct Hk as [<-|Hk]; [right; vm_compute; reflexivity|].
    repeat (destruct Hk as [<-|Hk]; [left; reflexivity|]). destruct Hk.
Defined.

End Db.

(* ===================================================================== *)
(** ** [archiver/index.ts]: the message backfill of [syncMessages] *)
(* ===================================================================== *)

Module Sync.
Import Db.
Local Open Scope Z_scope.

(** [count_details] and [emoji] of an [APIReaction]. *)
Record APIReaction := {
  normal : Z;
  burst : Z;
  emoji : APIPartialEmoji;
}.

(** The part of an [APIMessage] that [syncMessages] reads: its [id] (as
    the integer the decimal string denotes) and its [reactions]
    ([undefined] and the empty array are both the empty list). *)
Record APIMessage := {
  message_id : Z;
  reactions : list APIReaction;
}.

(** The users found for one emoji and one kind of reaction. *)
Record ReactionData := {
  rd_emoji : APIPartialEmoji;
  reactionType : Z;
  userIDs : list Z;
}.

Variant DbRequest :=
| GET_LAST_MESSAGE_ID
| BEGIN_TRANSACTION
| COMMIT_TRANSACTION
| ADD_MESSAGE_SNAPSHOT (message : APIMessage)
| ADD_INITIAL_REACTIONS (messageID : Z) (rd : ReactionData).

(** What the run sends out, in the order it is sent: the requests for a
    page of messages ([/channels/<id>/messages?limit=<limit>&after=<after>])
    and the requests to the database. *)
Variant event :=
| GetMessages (limit after : Z)
| Database (request : DbRequest).

(** What an awaited [account.request] for a page comes to: the operation
    is aborted (the request throws [abortError], or the signal is aborted
    by the time the response is there), or a response arrives. *)
Variant reply :=
| RequestAborted
| Response (status : Z) (messages : list APIMessage).

Definition ok (status : Z) : bool := (200 <=? status) && (status <=? 299).

(** Why a run ends.  [Hung]: after a 403 or a 404 the run waits for its
    abort and ends with it.  [ReactionsInterrupted]: the enumeration of
    the users who reacted to a message ended the run ([break main], or a
    403 or a 404 there). *)
Variant stop :=
| NotNeeded
| Aborted
| Hung (status : Z)
| NotOk (status : Z)
| ReactionsInterrupted
| KnownMessage
| Finished
| OutOfFuel.

Variant pageOutcome :=
| PageAdded (last : option AddSnapshotResult)
| PageInterrupted.

Section Run.

(** The database writer, as far as the run observes it. *)
Variable DB : Type.
Variable lastMessageID_of : DB -> option Z.
Variable addMessageSnapshot : DB -> APIMessage -> DB * AddSnapshotResult.

(** The platform: the reply to the [n]-th request for a page, asked with
    [after]; and the enumeration of the users who reacted to a message,
    [None] when it ends the run (abort, a response that is not OK). *)
Variable getMessages : nat -> Z -> reply.
Variable getReactions : APIMessage -> option (list ReactionData).

(** [options["no-reactions"]] *)
Variable noReactions : bool.

(** The requests of a transaction, in order.  Modelled from the spec:
    [db.transaction] (db/index.ts) is not among the sources; "wraps a
    block of requests in BEGIN/COMMIT". *)
Definition transaction (body : list DbRequest) : list event :=
  map Database ([BEGIN_TRANSACTION] ++ body ++ [COMMIT_TRANSACTION]).

(** The adds of a batch, oldest first; [last] is the result of the most
    recent add ([lastMessageAddPromise]). *)
Fixpoint addAll (db : DB) (last : option AddSnapshotResult)
    (batch : list APIMessage) : DB * option AddSnapshotResult :=
  match batch with
  | [] => (db, last)
  | m :: batch' =>
    let '(db', r) := addMessageSnapshot db m in
    addAll db' (Some r) batch'
  end.

(** [flushMessagesWithoutReactions]: the pending messages without
    reactions go into one transaction; nothing is sent when there is
    none. *)
Definition flushMessagesWithoutReactions (db : DB)
    (last : option AddSnapshotResult) (pending : list APIMessage)
  : DB * list event * option AddSnapshotResult :=
  match pending with
  | [] => (db, [], last)
  | _ =>
    let '(db', last') := addAll db last pending in
    (db', transaction (map ADD_MESSAGE_SNAPSHOT pending), last')
  end.

Definition hasReactions (m : APIMessage) : bool :=
  negb noReactions && negb (Nat.eqb (length (reactions m)) 0).

(** The [for (i = messages.length - 1; i >= 0; i--)] loop over one page
    and the [flushMessagesWithoutReactions()] after it.  [messages] is
    what is left of the page from index [i] down, so oldest first;
    [pending] are the messages from [startMWRIndex] down to [i + 1]. *)
Fixpoint addPage (db : DB) (last : option AddSnapshotResult)
    (pending messages : list APIMessage) : DB * list event * pageOutcome :=
  match messages with
  | [] =>
    let '(db', sent, last') := flushMessagesWithoutReactions db last pending in
    (db', sent, PageAdded last')
  | m :: messages' =>
    if hasReactions m then
      let '(db1, sent1, last1) := flushMessagesWithoutReactions db last pending in
      match getReactions m with
      | None => (db1, sent1, PageInterrupted)
      | Some found =>
        let '(db2, r) := addMessageSnapshot db1 m in
        let sent2 :=
          transaction (ADD_MESSAGE_SNAPSHOT m ::
                       map (ADD_INITIAL_REACTIONS (message_id m)) found) in
        let '(db3, sent3, out) := addPage db2 (Some r) [] messages' in
        (db3, sent1 ++ sent2 ++ sent3, out)
      end
    else addPage db last (pending ++ [m]) messages'
  end.

Definition isFirst (r : option AddSnapshotResult) : bool :=
  match r with Some ADDED_FIRST_SNAPSHOT => true | _ => false end.

(** One turn of the [while (true)] loop: the request for the page after
    [messageID] and what is done with the reply.  The turn either ends
    the run or gives the cursor of the next turn. *)
Definition syncPage (n : nat) (messageID : Z) (db : DB)
  : DB * list event * (stop + Z) :=
  let request := GetMessages 100 messageID in
  match getMessages n messageID with
  | RequestAborted => (db, [request], inl Aborted)
  | Response status messages =>
    if (status =? 403) || (status =? 404) then (db, [request], inl (Hung status))
    else if negb (ok status) then (db, [request], inl (NotOk status))
    else
      match messages with
      | [] => (db, [request], inl Finished)
      | newest :: _ =>
        let '(db', sent, out) := addPage db None [] (rev messages) in
        match out with
        | PageInterrupted => (db', request :: sent, inl ReactionsInterrupted)
        | PageAdded last =>
          if negb (isFirst last) then (db', request :: sent, inl KnownMessage)
          else if (length messages <? 100)%nat then
            (db', request :: sent, inl Finished)
          else (db', request :: sent, inr (message_id newest))
        end
      end
  end.

(** The loop, for at most [fuel] pages. *)
Fixpoint syncLoop (fuel n : nat) (messageID : Z) (db : DB)
  : DB * list event * stop :=
  match fuel with
  | O => (db, [], OutOfFuel)
  | S fuel' =>
    match syncPage n messageID db with
    | (db', sent, inl reason) => (db', sent, reason)
    | (db', sent, inr next) =>
      let '(db'', sent', reason) := syncLoop fuel' (S n) next db' in
      (db'', sent ++ sent', reason)
    end
  end.

(** [lastMessageID == null || lastStoredMessageID == null ||
     lastStoredMessageID < BigInt(lastMessageID)] *)
Definition needsSync (lastMessageID lastStoredMessageID : option Z) : bool :=
  match lastMessageID, lastStoredMessageID with
  | Some l, Some s => s <? l
  | _, _ => true
  end.

(** [syncMessages(account, channel)] from the query for the last stored
    message on; [lastMessageID] is [channel.syncInfo?.lastMessageID]. *)
Definition syncMessages (fuel : nat) (lastMessageID : option Z) (db : DB)
  : DB * list event * stop :=
  let lastStoredMessageID := lastMessageID_of db in
  if needsSync lastMessageID lastStoredMessageID then
    let '(db', sent, reason) :=
      syncLoop fuel 0 (default 0 lastStoredMessageID) db in
    (db', Database GET_LAST_MESSAGE_ID :: sent, reason)
  else (db, [Database GET_LAST_MESSAGE_ID], NotNeeded).

(** The ids of the messages whose snapshots are written, and the page
    requests, each in the order sent. *)
Definition addedIDs (sent : list event) : list Z :=
  flat_map (fun e => match e with
                     | Database (ADD_MESSAGE_SNAPSHOT m) => [message_id m]
                     | _ => []
                     end) sent.

Definition pageRequests (sent : list event) : list (Z * Z) :=
  flat_map (fun e => match e with
                     | GetMessages limit after => [(limit, after)]
                     | _ => []
                     end) sent.

(** *** The order of the writes *)

Lemma addedIDs_app sent sent' :
  addedIDs (sent ++ sent') = addedIDs sent ++ addedIDs sent'.
Proof. apply flat_map_app. Qed.

Lemma addedIDs_messages pending :
  addedIDs (transaction (map ADD_MESSAGE_SNAPSHOT pending)) = map message_id pending.
Proof.
  unfold transaction. cbn [app map addedIDs flat_map].
  rewrite map_app, <- (app_nil_r (map message_id pending)).
  change (flat_map _ ?l) with (addedIDs l). rewrite addedIDs_app.
  f_equal. induction pending as [|m pending IH]; [reflexivity|].
  cbn [map addedIDs flat_map app]. f_equal. exact IH.
Qed.

Lemma addedIDs_reactions m found :
  addedIDs (transaction (ADD_MESSAGE_SNAPSHOT m ::
                         map (ADD_INITIAL_REACTIONS (message_id m)) found))
  = [message_id m].
Proof.
  unfold transaction. cbn [app map addedIDs flat_map]. f_equal.
  rewrite map_app. change (flat_map _ ?l) with (addedIDs l).
  rewrite addedIDs_app. cbn [map addedIDs flat_map app]. rewrite app_nil_r.
  induction found as [|rd found IH]; [reflexivity|exact IH].
Qed.

Lemma flush_addedIDs db last pending :
  addedIDs (flushMessagesWithoutReactions db last pending).1.2
  = map message_id pending.
Proof.
  unfold flushMessagesWithoutReactions.
  destruct pending as [|m pending]; [reflexivity|].
  destruct (addAll db last (m :: pending)) as [db' last'].
  cbn [fst snd]. apply addedIDs_messages.
Qed.

(** A page writes its messages oldest first, each once, and stops short
    only when the enumeration of reactions interrupts it. *)
Lemma addPage_addedIDs messages : forall db last pending,
  let out := addPage db last pending messages in
  addedIDs out.1.2 `prefix_of` map message_id (pending ++ messages) /\
  (forall l, out.2 = PageAdded l ->
             addedIDs out.1.2 = map message_id (pending ++ messages)).
Proof.
  induction messages as [|m messages IH]; intros db last pending; cbn [addPage].
  - pose proof (flush_addedIDs db last pending) as Hf.
    destruct (flushMessagesWithoutReactions db last pending) as [[db' sent] last'].
    cbn [fst snd] in *. rewrite app_nil_r, Hf. split; [reflexivity|]. reflexivity.
  - destruct (hasReactions m).
    + pose proof (flush_addedIDs db last pending) as Hf.
      destruct (flushMessagesWithoutReactions db last pending) as [[db1 sent1] last1].
      cbn [fst snd] in Hf.
      destruct (getReactions m) as [found|].
      * destruct (addMessageSnapshot db1 m) as [db2 r].
        specialize (IH db2 (Some r) []).
        destruct (addPage db2 (Some r) [] messages) as [[db3 sent3] out].
        cbn [fst snd app] in *. destruct IH as [IHp IHe].
        rewrite !addedIDs_app, Hf, addedIDs_reactions.
        rewrite map_app. cbn [map].
        split.
        -- apply prefix_app. apply (prefix_app [message_id m]). exact IHp.
        -- intros l Hl. rewrite (IHe l Hl). reflexivity.
      * cbn [fst snd]. rewrite Hf. split; [|discriminate].
        rewrite map_app. apply prefix_app_r. reflexivity.
    + specialize (IH db last (pending ++ [m])).
      rewrite <- app_assoc in IH. exact IH.
Qed.

Lemma StronglySorted_rev_gt l :
  StronglySorted Z.gt l -> StronglySorted Z.lt (rev l).
Proof.
  induction 1 as [|x l Hl IH Hx]; [constructor|]. cbn [rev].
  apply StronglySorted_app_2; [|exact IH|repeat constructor].
  intros x1 x2 H1 H2. apply list_elem_of_singleton in H2 as ->.
  apply list_elem_of_In in H1. apply (proj2 (in_rev l x1)) in H1.
  apply (proj1 (List.Forall_forall _ _) Hx) in H1. lia.
Qed.

Lemma StronglySorted_prefix l k :
  l `prefix_of` k -> StronglySorted Z.lt k -> StronglySorted Z.lt l.
Proof. intros [k' ->]. apply StronglySorted_app_1_l. Qed.

Lemma Forall_prefix (P : Z -> Prop) l k :
  l `prefix_of` k -> Forall P k -> Forall P l.
Proof. intros [k' ->] H. apply Forall_app in H as [H _]. exact H. Qed.

(** The platform answers a request for the messages after a cursor with
    messages newer than the cursor, newest first. *)
Definition newestFirstAfterCursor : Prop :=
  forall n after status messages,
    getMessages n after = Response status messages -> ok status = true ->
    StronglySorted Z.gt (map message_id messages) /\
    Forall (fun m => after < message_id m) messages.

(** What one turn writes: ascending ids, all above the cursor of the
    turn and none above the cursor it hands on. *)
Lemma syncPage_addedIDs n messageID db :
  newestFirstAfterCursor ->
  let out := syncPage n messageID db in
  StronglySorted Z.lt (addedIDs out.1.2) /\
  Forall (fun i => messageID < i) (addedIDs out.1.2) /\
  (forall next, out.2 = inr next ->
                messageID < next /\ Forall (fun i => i <= next) (addedIDs out.1.2)).
Proof.
  intros Hplatform. unfold syncPage.
  assert (Hnone : StronglySorted Z.lt (addedIDs [GetMessages 100 messageID]) /\
                  Forall (fun i => messageID < i) (addedIDs [GetMessages 100 messageID])).
  { split; constructor. }
  destruct (getMessages n messageID) as [|status messages] eqn:Hreply.
  { cbn [fst snd]. split; [apply Hnone|]. split; [apply Hnone|discriminate]. }
  destruct ((status =? 403) || (status =? 404)).
  { cbn [fst snd]. split; [apply Hnone|]. split; [apply Hnone|discriminate]. }
  destruct (ok status) eqn:Hok; cbn [negb].
  2:{ cbn [fst snd]. split; [apply Hnone|]. split; [apply Hnone|discriminate]. }
  destruct (Hplatform n messageID status messages Hreply Hok) as [Hsorted Hafter].
  destruct messages as [|newest older] eqn:Hmessages.
  { cbn [fst snd]. split; [apply Hnone|]. split; [apply Hnone|discriminate]. }
  rewrite <- Hmessages in *.
  destruct (addPage_addedIDs (rev messages) db None []) as [Hprefix _].
  destruct (addPage db None [] (rev messages)) as [[db' sent] out].
  cbn [fst snd app] in Hprefix. rewrite map_rev in Hprefix.
  assert (Hasc : StronglySorted Z.lt (addedIDs sent)).
  { apply (StronglySorted_prefix _ _ Hprefix), StronglySorted_rev_gt, Hsorted. }
  assert (Hall : Forall (fun i => messageID < i) (addedIDs sent)).
  { apply (Forall_prefix _ _ _ Hprefix), Forall_rev, Forall_map. exact Hafter. }
  assert (Hnext : messageID < message_id newest /\
                  Forall (fun i => i <= message_id newest) (addedIDs sent)).
  { subst messages. split.
    - apply Forall_cons in Hafter as [H _]. exact H.
    - apply (Forall_prefix _ _ _ Hprefix), Forall_rev.
      cbn [map] in Hsorted |- *. apply StronglySorted_inv in Hsorted as [_ Hle].
      constructor; [lia|]. eapply Forall_impl; [exact Hle|]. cbn. lia. }
  assert (Hgen : forall s : stop + Z,
    (forall next, s = inr next -> next = message_id newest) ->
    StronglySorted Z.lt (addedIDs (GetMessages 100 messageID :: sent)) /\
    Forall (fun i => messageID < i) (addedIDs (GetMessages 100 messageID :: sent)) /\
    (forall next, s = inr next ->
       messageID < next /\
       Forall (fun i => i <= next) (addedIDs (GetMessages 100 messageID :: sent)))).
  { intros s Hs. split; [exact Hasc|]. split; [exact Hall|].
    intros next Hn. rewrite (Hs next Hn). exact Hnext. }
  destruct out as [last|]; cbn [fst snd].
  - destruct (isFirst last); cbn [negb fst snd].
    + destruct (length messages <? 100)%nat; cbn [fst snd]; apply Hgen.
      * discriminate.
      * intros next [= <-]. reflexivity.
    + apply Hgen. discriminate.
  - apply Hgen. discriminate.
Qed.

Lemma syncLoop_addedIDs fuel : forall n messageID db,
  newestFirstAfterCursor ->
  let out := syncLoop fuel n messageID db in
  StronglySorted Z.lt (addedIDs out.1.2) /\
  Forall (fun i => messageID < i) (addedIDs out.1.2).
Proof.
  induction fuel as [|fuel IH]; intros n messageID db Hplatform; cbn [syncLoop].
  - split; constructor.
  - pose proof (syncPage_addedIDs n messageID db Hplatform) as Hpage.
    destruct (syncPage n messageID db) as [[db' sent] [reason|next]];
      cbn [fst snd] in Hpage |- *.
    + split; apply Hpage.
    + destruct Hpage as (Hasc & Hall & Hnext).
      destruct (Hnext next eq_refl) as [Hlt Hle].
      specialize (IH (S n) next db' Hplatform).
      destruct (syncLoop fuel (S n) next db') as [[db'' sent'] reason].
      cbn [fst snd] in IH |- *. destruct IH as [IHasc IHall].
      rewrite addedIDs_app. split.
      * apply StronglySorted_app_2; [|exact Hasc|exact IHasc].
        intros x1 x2 H1 H2.
        apply list_elem_of_In in H1, H2.
        apply (proj1 (List.Forall_forall _ _) Hle) in H1.
        apply (proj1 (List.Forall_forall _ _) IHall) in H2. lia.
      * apply Forall_app. split; [exact Hall|].
        eapply Forall_impl; [exact IHall|]. cbn. lia.
Qed.

(** C1. Whatever the number of pages, the snapshots of a backfill are
    written in strictly ascending order of message id, provided every
    page comes newest first and holds messages after its cursor. *)
Theorem syncMessages_writes_ascending fuel lastMessageID db :
  newestFirstAfterCursor ->
  StronglySorted Z.lt (addedIDs (syncMessages fuel lastMessageID db).1.2).
Proof.
  intros Hplatform. unfold syncMessages.
  destruct (needsSync lastMessageID (lastMessageID_of db)).
  - pose proof (syncLoop_addedIDs fuel 0 (default 0 (lastMessageID_of db)) db
                  Hplatform) as [Hasc _].
    destruct (syncLoop fuel 0 (default 0 (lastMessageID_of db)) db)
      as [[db' sent] reason].
    cbn [fst snd] in Hasc |- *. exact Hasc.
  - constructor.
Qed.

(** *** The turns of the loop *)

(** The results of adding the messages of a list one after the other,
    and the database after them. *)
Fixpoint addResults (db : DB) (messages : list APIMessage) : list AddSnapshotResult :=
  match messages with
  | [] => []
  | m :: messages' =>
    let '(db', r) := addMessageSnapshot db m in r :: addResults db' messages'
  end.

Fixpoint dbAfter (db : DB) (messages : list APIMessage) : DB :=
  match messages with
  | [] => db
  | m :: messages' => dbAfter (addMessageSnapshot db m).1 messages'
  end.

(** The most recent result: the last of [results], or [last] when there
    is none. *)
Definition lastResult (last : option AddSnapshotResult)
    (results : list AddSnapshotResult) : option AddSnapshotResult :=
  fold_left (fun _ r => Some r) results last.

Lemma addAll_spec batch : forall db last,
  addAll db last batch = (dbAfter db batch, lastResult last (addResults db batch)).
Proof.
  induction batch as [|m batch IH]; intros db last; cbn [addAll dbAfter addResults].
  - reflexivity.
  - destruct (addMessageSnapshot db m) as [db' r]. cbn [fst].
    rewrite IH. reflexivity.
Qed.

Lemma addResults_app a b db :
  addResults db (a ++ b) = addResults db a ++ addResults (dbAfter db a) b.
Proof.
  revert db. induction a as [|m a IH]; intros db; cbn [app addResults dbAfter].
  - reflexivity.
  - destruct (addMessageSnapshot db m) as [db' r]. cbn [fst app].
    rewrite IH. reflexivity.
Qed.

Lemma dbAfter_app a b db : dbAfter db (a ++ b) = dbAfter (dbAfter db a) b.
Proof.
  revert db. induction a as [|m a IH]; intros db; cbn [app dbAfter];
    [reflexivity|apply IH].
Qed.

Lemma lastResult_app last a b :
  lastResult last (a ++ b) = lastResult (lastResult last a) b.
Proof. apply fold_left_app. Qed.

Lemma flush_spec db last pending :
  (flushMessagesWithoutReactions db last pending).1.1 = dbAfter db pending /\
  (flushMessagesWithoutReactions db last pending).2
    = lastResult last (addResults db pending).
Proof.
  unfold flushMessagesWithoutReactions. destruct pending as [|m pending].
  - split; reflexivity.
  - rewrite addAll_spec. split; reflexivity.
Qed.

(** The enumeration of reactions interrupts no message of the page. *)
Definition reactionsFound (messages : list APIMessage) : Prop :=
  Forall (fun m => hasReactions m = true -> is_Some (getReactions m)) messages.

(** A page that is not interrupted adds all its messages; the result it
    ends with is that of its last message. *)
Lemma addPage_completes messages : forall db last pending,
  reactionsFound messages ->
  let out := addPage db last pending messages in
  out.1.1 = dbAfter db (pending ++ messages) /\
  out.2 = PageAdded (lastResult last (addResults db (pending ++ messages))).
Proof.
  induction messages as [|m messages IH]; intros db last pending Hfound;
    cbn [addPage].
  - destruct (flush_spec db last pending) as [Hdb Hlast].
    destruct (flushMessagesWithoutReactions db last pending) as [[db' sent] last'].
    cbn [fst snd] in *. rewrite app_nil_r, Hdb, Hlast. split; reflexivity.
  - apply Forall_cons in Hfound as [Hm Hfound].
    destruct (hasReactions m) eqn:Hhas.
    + destruct (flush_spec db last pending) as [Hdb Hlast].
      destruct (flushMessagesWithoutReactions db last pending) as [[db1 sent1] last1].
      cbn [fst snd] in Hdb, Hlast.
      destruct (Hm eq_refl) as [found ->].
      destruct (addMessageSnapshot db1 m) as [db2 r] eqn:Hadd.
      specialize (IH db2 (Some r) [] Hfound).
      destruct (addPage db2 (Some r) [] messages) as [[db3 sent3] out].
      cbn [fst snd app] in IH |- *. destruct IH as [IHdb IHout].
      rewrite dbAfter_app, addResults_app, lastResult_app. cbn [dbAfter addResults].
      rewrite <- Hdb, Hadd. cbn [fst lastResult fold_left].
      split; [exact IHdb|exact IHout].
    + specialize (IH db last (pending ++ [m]) Hfound).
      rewrite <- app_assoc in IH. exact IH.
Qed.



(** A page that arrives with an OK status and is not interrupted is
    written whole: the snapshot of each of its messages is requested
    once, from the oldest to the newest, and the database is the one
    these adds leave. *)
Theorem syncPage_writes_every_message n messageID db status messages :
  getMessages n messageID = Response status messages ->
  ok status = true ->
  reactionsFound messages ->
  addedIDs (syncPage n messageID db).1.2 = rev (map message_id messages) /\
  (syncPage n messageID db).1.1 = dbAfter db (rev messages).
Proof.
  intros Hreply Hok Hfound. unfold syncPage. rewrite Hreply.
  unfold ok in Hok.
  replace ((status =? 403) || (status =? 404)) with false by lia.
  unfold ok. rewrite Hok. cbn [negb].
  destruct messages as [|newest older]; [split; reflexivity|].
  assert (Hrev : reactionsFound (rev (newest :: older))).
  { unfold reactionsFound. apply Forall_rev. exact Hfound. }
  destruct (addPage_addedIDs (rev (newest :: older)) db None []) as [_ Hids].
  destruct (addPage_completes (rev (newest :: older)) db None [] Hrev)
    as [Hdb Hout].
  destruct (addPage db None [] (rev (newest :: older))) as [[db' sent] out].
  cbn [fst snd app] in Hids, Hdb, Hout. subst out.
  specialize (Hids _ eq_refl). rewrite map_rev in Hids.
  destruct (negb (isFirst _)); [split; assumption|].
  destruct (_ <? _)%nat; split; assumption.
Qed.

End Run.

(** *** A channel of 250 messages

    The database keeps the ids it holds; the channel holds the messages
    1 to [total], of which message 150 carries a reaction. *)
Definition storedAdd (db : list Z) (m : APIMessage) : list Z * AddSnapshotResult :=
  if bool_decide (message_id m ∈ db) then (db, SAME_AS_LATEST)
  else (db ++ [message_id m], ADDED_FIRST_SNAPSHOT).

Definition storedLast (db : list Z) : option Z :=
  match db with
  | [] => None
  | i :: db' => Some (fold_right Z.max i db')
  end.

Definition thumbsUp : APIReaction :=
  {| normal := 1; burst := 0;
     emoji := {| emoji_id := None; emoji_name := Some "thumbsup" |} |}.

Definition message (i : Z) : APIMessage :=
  {| message_id := i; reactions := if i =? 150 then [thumbsUp] else [] |}.

(** [count] messages from [newest] down. *)
Fixpoint downFrom (newest : Z) (count : nat) : list APIMessage :=
  match count with
  | O => []
  | S count' => message newest :: downFrom (newest - 1) count'
  end.

Definition channelPage (total : Z) (n : nat) (after : Z) : reply :=
  let newest := Z.min total (after + 100) in
  Response 200 (downFrom newest (Z.to_nat (newest - after))).

Definition channelReactions (m : APIMessage) : option (list ReactionData) :=
  Some [ {| rd_emoji := {| emoji_id := None; emoji_name := Some "thumbsup" |};
            reactionType := 0; userIDs := [7] |} ].

Lemma downFrom_bounds newest count :
  Forall (fun m => newest - Z.of_nat count < message_id m <= newest)
    (downFrom newest count).
Proof.
  revert newest. induction count as [|count IH]; intros newest; cbn [downFrom].
  - constructor.
  - constructor; [cbn; lia|].
    eapply Forall_impl; [apply IH|]. cbn. intros m. lia.
Qed.

Lemma downFrom_sorted newest count :
  StronglySorted Z.gt (map message_id (downFrom newest count)).
Proof.
  revert newest. induction count as [|count IH]; intros newest; cbn [downFrom map].
  - constructor.
  - constructor; [apply IH|]. apply Forall_map.
    eapply Forall_impl; [apply downFrom_bounds|]. cbn. intros m. lia.
Qed.

Lemma channelPage_newestFirstAfterCursor total :
  newestFirstAfterCursor (channelPage total).
Proof.
  intros n after status messages [= <- <-] _. split.
  - apply downFrom_sorted.
  - eapply Forall_impl; [apply downFrom_bounds|]. cbn. intros m. lia.
Qed.

Lemma syncMessages_writes_ascending_witness :
  StronglySorted Z.lt
    (addedIDs (syncMessages (list Z) storedLast storedAdd (channelPage 250)
                 channelReactions false 5 (Some 250) []).1.2).
Proof.
  apply (syncMessages_writes_ascending (list Z) storedLast storedAdd
           (channelPage 250) channelReactions false 5 (Some 250) []).
  apply channelPage_newestFirstAfterCursor.
Defined.

(** A fresh start on the channel: three pages are requested, after 0,
    100 and 200, the 250 messages are written from 1 up, each once, and
    the run ends on the short page. *)
Lemma fresh_start_three_pages :
  let run := syncMessages (list Z) storedLast storedAdd (channelPage 250)
               channelReactions false 5 (Some 250) [] in
  pageRequests run.1.2 = [(100, 0); (100, 100); (100, 200)] /\
  addedIDs run.1.2 = map Z.of_nat (seq 1 250) /\
  run.1.1 = map Z.of_nat (seq 1 250) /\
  run.2 = Finished.
Proof. vm_compute. repeat split; reflexivity. Qed.

(** Started again on what the first run stored, the run requests
    nothing. *)
Lemma restart_requests_nothing :
  syncMessages (list Z) storedLast storedAdd (channelPage 250)
    channelReactions false 5 (Some 250) (map Z.of_nat (seq 1 250))
  = (map Z.of_nat (seq 1 250), [Database GET_LAST_MESSAGE_ID], NotNeeded).
Proof. vm_compute. reflexivity. Qed.


Lemma syncPage_writes_every_message_witness :
  addedIDs (syncPage (list Z) storedAdd (channelPage 250) channelReactions false
              2 200 (map Z.of_nat (seq 1 200))).1.2
  = rev (map message_id (downFrom 250 50)) /\
  (syncPage (list Z) storedAdd (channelPage 250) channelReactions false
     2 200 (map Z.of_nat (seq 1 200))).1.1
  = dbAfter (list Z) storedAdd (map Z.of_nat (seq 1 200)) (rev (downFrom 250 50)).
Proof.
  apply (syncPage_writes_every_message (list Z) storedAdd (channelPage 250)
           channelReactions false 2 200 (map Z.of_nat (seq 1 200)) 200
           (downFrom 250 50)).
  - reflexivity.
  - reflexivity.
  - apply Forall_forall. intros m _ _. eexists. reflexivity.
Defined.

End Sync.

(* ===================================================================== *)
(** ** [archiver/cache.ts] and [archiver/index.ts]: the cache, the
       permission sets and the registries of ongoing operations *)
(* ===================================================================== *)

Module Cache.
Local Open Scope string_scope.
Local Open Scope list_scope.
Local Open Scope Z_scope.

(** *** JavaScript [Set]s and [Map]s

    Both iterate in insertion order: a [Set] is a list without
    duplicates, a [Map] a list of entries with distinct keys. *)
Section Containers.
Context {K : Type} `{EqDecision K} {V : Type}.

Definition setHas (x : K) (s : list K) : bool := bool_decide (x ∈ s).

Definition setAdd (x : K) (s : list K) : list K :=
  if setHas x s then s else s ++ [x].

Definition setDelete (x : K) (s : list K) : list K :=
  List.filter (fun y => negb (bool_decide (y = x))) s.

Definition mapGet (k : K) (m : list (K * V)) : option V :=
  snd <$> List.find (fun e => bool_decide (e.1 = k)) m.

Definition mapHas (k : K) (m : list (K * V)) : bool :=
  match mapGet k m with Some _ => true | None => false end.

Definition mapSet (k : K) (v : V) (m : list (K * V)) : list (K * V) :=
  if mapHas k m then
    map (fun e => if bool_decide (e.1 = k) then (k, v) else e) m
  else m ++ [(k, v)].

Definition mapDelete (k : K) (m : list (K * V)) : list (K * V) :=
  List.filter (fun e => negb (bool_decide (e.1 = k))) m.

(** [new Map(entries)] *)
Definition mapOf (entries : list (K * V)) : list (K * V) :=
  fold_left (fun m e => mapSet e.1 e.2 m) entries [].

End Containers.

(** *** Permissions *)

(** [PermissionFlagsBits] of the platform's API types. *)
Definition Administrator : Z := Z.shiftl 1 3.
Definition ViewChannel : Z := Z.shiftl 1 10.
Definition ReadMessageHistory : Z := Z.shiftl 1 16.
Definition ManageThreads : Z := Z.shiftl 1 34.
Definition allPermissions : Z := Z.ones 64.

(** [ChannelType] *)
Definition GuildText : Z := 0.
Definition GuildVoice : Z := 2.
Definition GuildAnnouncement : Z := 5.
Definition PrivateThread : Z := 12.
Definition GuildForum : Z := 15.

Record Overwrite := { allow : Z; deny : Z }.

#[global] Instance Overwrite_eq_dec : EqDecision Overwrite.
Proof. solve_decision. Defined.

Record GuildAccountData := {
  roles : list Z;            (* the ids of the roles of the account *)
  guildPermissions : Z;
}.

(** A thread being synced, or a cached channel handed to [syncMessages]:
    [parent] is [None] for a channel.  ([ThreadInfo] and the fields of a
    [CachedChannel] that [syncMessages] reads.) *)
Record SyncTarget := {
  target_id : Z;
  parent : option Z;         (* the id of the parent channel *)
  guild : option Z;          (* the guild of the channel, or of the parent *)
  private : bool;
  lastMessageID : option Z;
}.

Record CachedChannel := {
  channel_id : Z;
  channel_type : Z;
  channel_name : string;
  permissionOverwrites : list (Z * Overwrite);
  accountsWithReadPermission : list string;
  accountsWithManageThreadsPermission : list string;
  (** [syncInfo]: [lastMessageID] and the active threads, [None] once
      cleared. *)
  syncInfo : option (option Z * list SyncTarget);
}.

Record CachedGuild := {
  guild_id : Z;
  guild_name : string;
  ownerID : Z;
  rolePermissions : list (Z * Z);
  accountData : list (string * GuildAccountData);
  textChannels : list (Z * CachedChannel);
}.

(** An entry of a registry of message syncs: its abort controller and
    the channel or thread it syncs. *)
Record Sync := { aborted : bool; target : SyncTarget }.

(** An account, by its [name]; [user_id] is [details.id]. *)
Record Account := {
  user_id : Z;
  numberOfOngoingRESTOperations : Z;
  ongoingMessageSyncs : list (Z * list (Z * Sync));
  ongoingPrivateThreadMessageSyncs : list (Z * list (Z * Sync));
  ongoingPublicThreadListSyncs : list (Z * bool);
  ongoingPrivateThreadListSyncs : list (Z * bool);
  ongoingJoinedPrivateThreadListSyncs : list (Z * bool);
}.

(** Modelled from the spec: [computeGuildPermissions] of
    [archiver/permissions.ts], which is not among the sources.  "OR of the
    role permission bitfields; if the bit ADMINISTRATOR is set or the
    account is the server owner, returns all-ones." *)
Definition computeGuildPermissions (account : Account) (guild : CachedGuild)
    (roles : list Z) : Z :=
  let permissions :=
    fold_left (fun p role => Z.lor p (default 0 (mapGet role (rolePermissions guild))))
      roles 0 in
  if (Z.land permissions Administrator =? Administrator)
     || (user_id account =? ownerID guild)
  then allPermissions else permissions.

Definition applyOverwrite (permissions : Z) (o : option Overwrite) : Z :=
  match o with
  | Some o => Z.lor (Z.land permissions (Z.lnot (deny o))) (allow o)
  | None => permissions
  end.

(** Modelled from the spec: [computeChannelPermissions] of
    [archiver/permissions.ts], which is not among the sources.  "Starts
    from server permissions; then applies overwrites in the platform's
    documented order: (1) @everyone overwrite, (2) role overwrites (deny
    mask then allow mask, OR'd across roles), (3) member overwrite."  The
    order the platform documents starts by granting everything to an
    administrator; the @everyone overwrite is the one under the id of the
    guild. *)
Definition computeChannelPermissions (account : Account) (guild : CachedGuild)
    (channel : CachedChannel) (accountData : GuildAccountData) : Z :=
  let base := guildPermissions accountData in
  if Z.land base Administrator =? Administrator then allPermissions
  else
    let overwrites := permissionOverwrites channel in
    let p1 := applyOverwrite base (mapGet (guild_id guild) overwrites) in
    let roleOverwrites := omap (fun role => mapGet role overwrites) (roles accountData) in
    let denied := fold_left (fun d o => Z.lor d (deny o)) roleOverwrites 0 in
    let allowed := fold_left (fun a o => Z.lor a (allow o)) roleOverwrites 0 in
    let p2 := Z.lor (Z.land p1 (Z.lnot denied)) allowed in
    applyOverwrite p2 (mapGet (user_id account) overwrites).

(** Modelled from the spec: [hasChannelPermissions] of
    [archiver/permissions.ts], which is not among the sources.  "Tests use
    [(computed & required) == required]." *)
Definition hasChannelPermissions (computed required : Z) : bool :=
  Z.land computed required =? required.

(** Modelled from the spec: [areMapsEqual] of [util/map-equality.ts],
    which is not among the sources; the spec names it as the comparison
    of two maps.  Two maps are equal when they have as many entries and
    every entry of the first has an equal value under the same key in the
    second. *)
Definition areMapsEqual {K V} `{EqDecision K} (a b : list (K * V))
    (equal : V -> V -> bool) : bool :=
  Nat.eqb (length a) (length b) &&
  forallb (fun e => match mapGet e.1 b with
                    | Some v => equal e.2 v
                    | None => false
                    end) a.

(** *** The state of the archiver *)

(** The account objects, by name, the cached guilds, by id, and
    [allReady]. *)
Record State := {
  accounts : list (string * Account);
  guilds : list (Z * CachedGuild);
  allReady : bool;
}.

(** [options["no-sync"]] and [options.guild]. *)
Record Options := { noSync : bool; guildFilter : option (list Z) }.

Definition newAccount : Account :=
  {| user_id := 0; numberOfOngoingRESTOperations := 0;
     ongoingMessageSyncs := []; ongoingPrivateThreadMessageSyncs := [];
     ongoingPublicThreadListSyncs := []; ongoingPrivateThreadListSyncs := [];
     ongoingJoinedPrivateThreadListSyncs := [] |}.

Definition account (s : State) (name : string) : Account :=
  default newAccount (mapGet name (accounts s)).

Definition setAccount (name : string) (a : Account) (s : State) : State :=
  {| accounts := mapSet name a (accounts s); guilds := guilds s;
     allReady := allReady s |}.

(** [getLeastRESTOccupiedAccount(iterable)] *)
Definition getLeastRESTOccupiedAccount (s : State) (iterable : list string)
  : option string :=
  fold_left
    (fun min name =>
       match min with
       | None => Some name
       | Some m =>
         if numberOfOngoingRESTOperations (account s name)
            <? numberOfOngoingRESTOperations (account s m)
         then Some name else Some m
       end) iterable None.

(** *** The registries of message syncs *)

Definition parentChannel (t : SyncTarget) : Z := default (target_id t) (parent t).

(** [channel.parent !== null && channel.private] *)
Definition isPrivateThread (t : SyncTarget) : bool :=
  match parent t with Some _ => private t | None => false end.

Definition setMessageSyncs (registry : list (Z * list (Z * Sync))) (a : Account)
  : Account :=
  {| user_id := user_id a;
     numberOfOngoingRESTOperations := numberOfOngoingRESTOperations a;
     ongoingMessageSyncs := registry;
     ongoingPrivateThreadMessageSyncs := ongoingPrivateThreadMessageSyncs a;
     ongoingPublicThreadListSyncs := ongoingPublicThreadListSyncs a;
     ongoingPrivateThreadListSyncs := ongoingPrivateThreadListSyncs a;
     ongoingJoinedPrivateThreadListSyncs := ongoingJoinedPrivateThreadListSyncs a |}.

Definition setPrivateThreadMessageSyncs (registry : list (Z * list (Z * Sync)))
    (a : Account) : Account :=
  {| user_id := user_id a;
     numberOfOngoingRESTOperations := numberOfOngoingRESTOperations a;
     ongoingMessageSyncs := ongoingMessageSyncs a;
     ongoingPrivateThreadMessageSyncs := registry;
     ongoingPublicThreadListSyncs := ongoingPublicThreadListSyncs a;
     ongoingPrivateThreadListSyncs := ongoingPrivateThreadListSyncs a;
     ongoingJoinedPrivateThreadListSyncs := ongoingJoinedPrivateThreadListSyncs a |}.

Definition addRESTOperations (d : Z) (a : Account) : Account :=
  {| user_id := user_id a;
     numberOfOngoingRESTOperations := numberOfOngoingRESTOperations a + d;
     ongoingMessageSyncs := ongoingMessageSyncs a;
     ongoingPrivateThreadMessageSyncs := ongoingPrivateThreadMessageSyncs a;
     ongoingPublicThreadListSyncs := ongoingPublicThreadListSyncs a;
     ongoingPrivateThreadListSyncs := ongoingPrivateThreadListSyncs a;
     ongoingJoinedPrivateThreadListSyncs := ongoingJoinedPrivateThreadListSyncs a |}.

(** The registry [syncMessages] picks for the target, and its update. *)
Definition ongoingSyncs (t : SyncTarget) (a : Account) : list (Z * list (Z * Sync)) :=
  if isPrivateThread t then ongoingPrivateThreadMessageSyncs a
  else ongoingMessageSyncs a.

Definition setOngoingSyncs (t : SyncTarget) (registry : list (Z * list (Z * Sync)))
    (a : Account) : Account :=
  if isPrivateThread t then setPrivateThreadMessageSyncs registry a
  else setMessageSyncs registry a.

(** [syncMessages(account, channel)] up to its first [await]: the sync is
    entered in the registry and counted. *)
Definition syncMessagesStart (s : State) (name : string) (t : SyncTarget) : State :=
  let a := account s name in
  let sync := {| aborted := false; target := t |} in
  let registry := ongoingSyncs t a in
  let registry' :=
    match mapGet (parentChannel t) registry with
    | Some ongoingChannelSyncs =>
      mapSet (parentChannel t) (mapSet (target_id t) sync ongoingChannelSyncs) registry
    | None => mapSet (parentChannel t) [(target_id t, sync)] registry
    end in
  setAccount name (addRESTOperations 1 (setOngoingSyncs t registry' a)) s.

(** The end of [syncMessages]: the sync leaves the registry. *)
Definition syncMessagesEnd (s : State) (name : string) (t : SyncTarget) : State :=
  let a := account s name in
  let registry := ongoingSyncs t a in
  let ongoingChannelSyncs := default [] (mapGet (parentChannel t) registry) in
  let registry' :=
    if (1 <? length ongoingChannelSyncs)%nat then
      mapSet (parentChannel t) (mapDelete (target_id t) ongoingChannelSyncs) registry
    else mapDelete (parentChannel t) registry in
  setAccount name (addRESTOperations (-1) (setOngoingSyncs t registry' a)) s.

(** [account.ongoingMessageSyncs.get(parentChannel)?.has(id)] *)
Definition hasMessageSync (a : Account) (parentChannel id : Z) : bool :=
  match mapGet parentChannel (ongoingMessageSyncs a) with
  | Some ongoingChannelSyncs => mapHas id ongoingChannelSyncs
  | None => false
  end.

Definition hasPrivateThreadMessageSync (a : Account) (parentChannel id : Z) : bool :=
  match mapGet parentChannel (ongoingPrivateThreadMessageSyncs a) with
  | Some ongoingChannelSyncs => mapHas id ongoingChannelSyncs
  | None => false
  end.


(** The part of an [APIThreadChannel] that [extractThreadInfo] reads. *)
Record APIThreadChannel := {
  thread_id : Z;
  thread_type : Z;
  last_message_id : option Z;
}.

(** [extractThreadInfo(thread, parent)] *)
Definition extractThreadInfo (thread : APIThreadChannel) (g : CachedGuild)
    (parent : CachedChannel) : SyncTarget :=
  {| target_id := thread_id thread;
     parent := Some (channel_id parent);
     guild := Some (guild_id g);
     private := thread_type thread =? PrivateThread;
     lastMessageID := last_message_id thread |}.


(** The accounts that hold a sync of [(parentChannel, id)], in the
    registry of message syncs and in that of private-thread message
    syncs. *)
Definition holdersOfMessageSync (s : State) (parentChannel id : Z) : list string :=
  map fst (List.filter (fun e => hasMessageSync e.2 parentChannel id) (accounts s)).

Definition holdersOfPrivateThreadMessageSync (s : State) (parentChannel id : Z)
  : list string :=
  map fst (List.filter (fun e => hasPrivateThreadMessageSync e.2 parentChannel id)
             (accounts s)).

(** The number of message syncs registered for [(parentChannel, id)]
    across the accounts. *)
Definition messageSyncsFor (s : State) (parentChannel id : Z) : nat :=
  length (holdersOfMessageSync s parentChannel id)
  + length (holdersOfPrivateThreadMessageSync s parentChannel id).

(** *** [updateGuildChannelPermissions] *)

Definition setPermissionSets (reads manage : list string) (c : CachedChannel)
  : CachedChannel :=
  {| channel_id := channel_id c; channel_type := channel_type c;
     channel_name := channel_name c;
     permissionOverwrites := permissionOverwrites c;
     accountsWithReadPermission := reads;
     accountsWithManageThreadsPermission := manage;
     syncInfo := syncInfo c |}.

(** One turn of the loop over [guild.accountData.entries()]: the channel
    with its two sets, and the accounts found to have lost the read and
    the manage-threads permission so far. *)
Definition updateAccountSets (s : State) (g : CachedGuild)
    (st : CachedChannel * list string * list string)
    (entry : string * GuildAccountData)
  : CachedChannel * list string * list string :=
  let '(c, lostRead, lostManage) := st in
  let '(name, data) := entry in
  let permissions := computeChannelPermissions (account s name) g c data in
  let hasReadPermission := hasChannelPermissions permissions ReadMessageHistory in
  let hasManageThreadsPermission :=
    hasReadPermission && hasChannelPermissions permissions ManageThreads in
  let reads := accountsWithReadPermission c in
  let manage := accountsWithManageThreadsPermission c in
  let '(reads', lostRead') :=
    if hasReadPermission then (setAdd name reads, lostRead)
    else if setHas name reads then (setDelete name reads, setAdd name lostRead)
    else (reads, lostRead) in
  let '(manage', lostManage') :=
    if hasManageThreadsPermission then (setAdd name manage, lostManage)
    else if setHas name reads' then (setDelete name manage, setAdd name lostManage)
    else (manage, lostManage) in
  (setPermissionSets reads' manage' c, lostRead', lostManage').

Definition updatePermissionSets (s : State) (g : CachedGuild) (c : CachedChannel)
  : CachedChannel * list string * list string :=
  fold_left (updateAccountSets s g) (accountData g) (c, [], []).

(** [ArchivedThreadListType] *)
Variant ArchivedThreadListType := PUBLIC | PRIVATE | JOINED_PRIVATE.

Definition setThreadListSyncs (type : ArchivedThreadListType)
    (registry : list (Z * bool)) (a : Account) : Account :=
  {| user_id := user_id a;
     numberOfOngoingRESTOperations := numberOfOngoingRESTOperations a;
     ongoingMessageSyncs := ongoingMessageSyncs a;
     ongoingPrivateThreadMessageSyncs := ongoingPrivateThreadMessageSyncs a;
     ongoingPublicThreadListSyncs :=
       match type with PUBLIC => registry | _ => ongoingPublicThreadListSyncs a end;
     ongoingPrivateThreadListSyncs :=
       match type with PRIVATE => registry | _ => ongoingPrivateThreadListSyncs a end;
     ongoingJoinedPrivateThreadListSyncs :=
       match type with
       | JOINED_PRIVATE => registry
       | _ => ongoingJoinedPrivateThreadListSyncs a
       end |}.

Definition threadListSyncs (type : ArchivedThreadListType) (a : Account)
  : list (Z * bool) :=
  match type with
  | PUBLIC => ongoingPublicThreadListSyncs a
  | PRIVATE => ongoingPrivateThreadListSyncs a
  | JOINED_PRIVATE => ongoingJoinedPrivateThreadListSyncs a
  end.

(** [syncAllArchivedThreads(account, channel, type)] up to its first
    [await]: [ongoingMap.set(channel, { abortController })]. *)
Definition syncAllArchivedThreadsStart (s : State) (name : string) (channel : Z)
    (type : ArchivedThreadListType) : State :=
  let a := account s name in
  setAccount name
    (setThreadListSyncs type (mapSet channel false (threadListSyncs type a)) a) s.

(** [sync.abortController.abort()] for every sync of a list, each
    followed by [syncMessages(newAccount, sync.channel)] when the set
    [candidates] still holds an account. *)
Definition abortSync (sync : Sync) : Sync :=
  {| aborted := true; target := target sync |}.

Fixpoint handOver (s : State) (candidates : list string) (syncs : list (Z * Sync))
  : State :=
  match syncs with
  | [] => s
  | (_, sync) :: syncs' =>
    let s' :=
      match getLeastRESTOccupiedAccount s candidates with
      | Some newAccount => syncMessagesStart s newAccount (target sync)
      | None => s
      end in
    handOver s' candidates syncs'
  end.

Definition abortAll (channel : Z) (registry : list (Z * list (Z * Sync)))
  : list (Z * list (Z * Sync)) :=
  match mapGet channel registry with
  | Some syncs => mapSet channel (map (fun e => (e.1, abortSync e.2)) syncs) registry
  | None => registry
  end.

(** The accounts that lost the read permission: their message syncs of
    the channel are aborted and handed over. *)
Fixpoint switchMessageSyncs (s : State) (c : CachedChannel) (lost : list string)
  : State :=
  match lost with
  | [] => s
  | name :: lost' =>
    let a := account s name in
    let syncs := default [] (mapGet (channel_id c) (ongoingMessageSyncs a)) in
    let s1 := setAccount name
                (setMessageSyncs (abortAll (channel_id c) (ongoingMessageSyncs a)) a) s in
    switchMessageSyncs (handOver s1 (accountsWithReadPermission c) syncs) c lost'
  end.

(** The accounts that lost the manage-threads permission: their
    enumeration of private threads and their private-thread message syncs
    are aborted, the latter handed over. *)
Fixpoint switchPrivateThreadSyncs (s : State) (c : CachedChannel) (lost : list string)
  : State :=
  match lost with
  | [] => s
  | name :: lost' =>
    let a := account s name in
    let a1 :=
      match mapGet (channel_id c) (ongoingPrivateThreadListSyncs a) with
      | Some _ =>
        setThreadListSyncs PRIVATE
          (mapSet (channel_id c) true (ongoingPrivateThreadListSyncs a)) a
      | None => a
      end in
    let syncs :=
      default [] (mapGet (channel_id c) (ongoingPrivateThreadMessageSyncs a1)) in
    let s1 := setAccount name
                (setPrivateThreadMessageSyncs
                   (abortAll (channel_id c) (ongoingPrivateThreadMessageSyncs a1)) a1) s in
    switchPrivateThreadSyncs
      (handOver s1 (accountsWithManageThreadsPermission c) syncs) c lost'
  end.

Definition channelTarget (g : CachedGuild) (c : CachedChannel) : SyncTarget :=
  {| target_id := channel_id c; parent := None; guild := Some (guild_id g);
     private := false;
     lastMessageID := match syncInfo c with Some (l, _) => l | None => None end |}.

Definition syncEnabledFor (opts : Options) (g : CachedGuild) : bool :=
  negb (noSync opts) &&
  match guildFilter opts with
  | None => true
  | Some ids => setHas (guild_id g) ids
  end.

(** The syncs started for a channel that became readable, or manageable,
    once all accounts are ready. *)
Definition syncGained (s : State) (g : CachedGuild) (before after : CachedChannel)
  : State :=
  let s1 :=
    match accountsWithReadPermission before,
          getLeastRESTOccupiedAccount s (accountsWithReadPermission after) with
    | [], Some name =>
      let s' := syncMessagesStart s name (channelTarget g after) in
      match getLeastRESTOccupiedAccount s' (accountsWithReadPermission after) with
      | Some name' => syncAllArchivedThreadsStart s' name' (channel_id after) PUBLIC
      | None => s'
      end
    | _, _ => s
    end in
  match accountsWithManageThreadsPermission before,
        getLeastRESTOccupiedAccount s1 (accountsWithManageThreadsPermission after) with
  | [], Some name => syncAllArchivedThreadsStart s1 name (channel_id after) PRIVATE
  | _, _ => s1
  end.

(** [updateGuildChannelPermissions(cachedChannel)]: the state and the
    channel after it. *)
Definition updateGuildChannelPermissions (opts : Options) (s : State)
    (g : CachedGuild) (c : CachedChannel) : State * CachedChannel :=
  let '(c', accountsThatLostReadPermission, accountsThatLostManageThreadsPermission) :=
    updatePermissionSets s g c in
  if syncEnabledFor opts g then
    let s1 := switchMessageSyncs s c' accountsThatLostReadPermission in
    let s2 := switchPrivateThreadSyncs s1 c' accountsThatLostManageThreadsPermission in
    if allReady s then (syncGained s2 g c c', c') else (s2, c')
  else (s, c').

(** *** The [CHANNEL_UPDATE] dispatch *)

Record APIOverwrite := { overwrite_id : Z; overwrite_allow : Z; overwrite_deny : Z }.

(** The part of the [APIChannel] of the payload that the handler reads. *)
Record APIChannel := {
  api_id : Z;
  api_type : Z;
  api_guild_id : option Z;
  api_name : string;
  permission_overwrites : option (list APIOverwrite);
  api_last_message_id : option Z;
}.

Definition isChannelCacheable (channel : APIChannel) : bool :=
  (api_type channel =? GuildAnnouncement) || (api_type channel =? GuildForum)
  || (api_type channel =? GuildText) || (api_type channel =? GuildVoice).

(** [new Map(channel.permission_overwrites?.map(o => [o.id, {allow, deny}]))] *)
Definition overwritesOf (channel : APIChannel) : list (Z * Overwrite) :=
  mapOf (map (fun o => (overwrite_id o,
                        {| allow := overwrite_allow o; deny := overwrite_deny o |}))
           (default [] (permission_overwrites channel))).

Definition setChannel (g : Z) (c : CachedChannel) (s : State) : State :=
  match mapGet g (guilds s) with
  | None => s
  | Some cachedGuild =>
    let cachedGuild' :=
      {| guild_id := guild_id cachedGuild; guild_name := guild_name cachedGuild;
         ownerID := ownerID cachedGuild;
         rolePermissions := rolePermissions cachedGuild;
         accountData := accountData cachedGuild;
         textChannels := mapSet (channel_id c) c (textChannels cachedGuild) |} in
    {| accounts := accounts s; guilds := mapSet g cachedGuild' (guilds s);
       allReady := allReady s |}
  end.

(** [createCachedChannel(channel, cachedGuild)] *)
Definition createCachedChannel (channel : APIChannel) : CachedChannel :=
  {| channel_id := api_id channel; channel_type := api_type channel;
     channel_name := api_name channel;
     permissionOverwrites := overwritesOf channel;
     accountsWithReadPermission := [];
     accountsWithManageThreadsPermission := [];
     syncInfo := Some (api_last_message_id channel, []) |}.

(** The cache side of the handler of [GatewayDispatchEvents.ChannelCreate]. *)
Definition onChannelCreate (s : State) (channel : APIChannel) : State :=
  if isChannelCacheable channel then
    match api_guild_id channel with
    | None => s
    | Some g => setChannel g (createCachedChannel channel) s
    end
  else s.

Definition overwriteEqual (a b : Overwrite) : bool :=
  (allow a =? allow b) && (deny a =? deny b).

(** The cache side of the handler of [GatewayDispatchEvents.ChannelUpdate]
    (the snapshot it sends to the database is not part of this state). *)
Definition onChannelUpdate (opts : Options) (s : State) (channel : APIChannel)
  : State :=
  if isChannelCacheable channel then
    match api_guild_id channel with
    | None => s
    | Some g =>
      match mapGet g (guilds s) with
      | None => s
      | Some cachedGuild =>
        match mapGet (api_id channel) (textChannels cachedGuild) with
        | None => s
        | Some cachedChannel =>
          let renamed :=
            {| channel_id := channel_id cachedChannel;
               channel_type := channel_type cachedChannel;
               channel_name := api_name channel;
               permissionOverwrites := permissionOverwrites cachedChannel;
               accountsWithReadPermission := accountsWithReadPermission cachedChannel;
               accountsWithManageThreadsPermission :=
                 accountsWithManageThreadsPermission cachedChannel;
               syncInfo := syncInfo cachedChannel |} in
          let permissionOverwrites' := overwritesOf channel in
          let didPermsChange :=
            areMapsEqual (permissionOverwrites renamed) (permissionOverwrites renamed)
              overwriteEqual in
          if didPermsChange then
            let replaced :=
              {| channel_id := channel_id renamed;
                 channel_type := channel_type renamed;
                 channel_name := channel_name renamed;
                 permissionOverwrites := permissionOverwrites';
                 accountsWithReadPermission := accountsWithReadPermission renamed;
                 accountsWithManageThreadsPermission :=
                   accountsWithManageThreadsPermission renamed;
                 syncInfo := syncInfo renamed |} in
            let '(s', c') := updateGuildChannelPermissions opts s cachedGuild replaced in
            setChannel g c' s'
          else setChannel g renamed s
        end
      end
    end
  else s.

(** *** Facts about [Map]s *)

Section MapFacts.
Context {K : Type} `{EqDecision K} {V : Type}.
Implicit Types (k : K) (v : V) (m : list (K * V)).

Lemma find_key_replaced k v m :
  List.find (fun e => bool_decide (e.1 = k))
    (map (fun e : K * V => if bool_decide (e.1 = k) then (k, v) else e) m)
  = (fun _ => (k, v)) <$> List.find (fun e => bool_decide (e.1 = k)) m.
Proof.
  induction m as [|e m IH]; [reflexivity|]. cbn [map List.find].
  destruct (bool_decide (e.1 = k)) eqn:He; cbn [fst].
  - rewrite bool_decide_eq_true_2 by reflexivity. reflexivity.
  - rewrite He. exact IH.
Qed.

Lemma find_other_key_replaced k k' v m :
  k <> k' ->
  List.find (fun e => bool_decide (e.1 = k'))
    (map (fun e : K * V => if bool_decide (e.1 = k) then (k, v) else e) m)
  = List.find (fun e => bool_decide (e.1 = k')) m.
Proof.
  intros Hne. induction m as [|e m IH]; [reflexivity|]. cbn [map List.find].
  destruct (bool_decide (e.1 = k)) eqn:He; cbn [fst].
  - apply bool_decide_eq_true in He.
    rewrite (bool_decide_eq_false_2 (k = k')) by exact Hne.
    rewrite (bool_decide_eq_false_2 (e.1 = k')) by congruence. exact IH.
  - destruct (bool_decide (e.1 = k')); [reflexivity|exact IH].
Qed.

Lemma find_app_none {A} (f : A -> bool) l l' :
  List.find f l = None -> List.find f (l ++ l') = List.find f l'.
Proof.
  induction l as [|x l IH]; [reflexivity|]. cbn [app List.find].
  destruct (f x); [discriminate|exact IH].
Qed.

Lemma find_app_some {A} (f : A -> bool) l l' x :
  List.find f l = Some x -> List.find f (l ++ l') = Some x.
Proof.
  induction l as [|y l IH]; [discriminate|]. cbn [app List.find].
  destruct (f y); [trivial|exact IH].
Qed.

Lemma mapGet_mapSet_eq k v m : mapGet k (mapSet k v m) = Some v.
Proof.
  unfold mapSet, mapHas, mapGet.
  destruct (List.find (fun e => bool_decide (e.1 = k)) m) as [e|] eqn:Hfind;
    cbn [fmap option_fmap option_map].
  - rewrite find_key_replaced, Hfind. reflexivity.
  - rewrite (find_app_none _ _ _ Hfind). cbn [List.find fst].
    rewrite bool_decide_eq_true_2 by reflexivity. reflexivity.
Qed.

Lemma mapGet_mapSet_ne k k' v m :
  k <> k' -> mapGet k' (mapSet k v m) = mapGet k' m.
Proof.
  intros Hne. unfold mapSet, mapHas.
  destruct (mapGet k m); unfold mapGet.
  - rewrite find_other_key_replaced by exact Hne. reflexivity.
  - destruct (List.find (fun e => bool_decide (e.1 = k')) m) as [e|] eqn:Hfind.
    + rewrite (find_app_some _ _ _ _ Hfind). reflexivity.
    + rewrite (find_app_none _ _ _ Hfind). cbn [List.find fst].
      rewrite bool_decide_eq_false_2 by exact Hne. reflexivity.
Qed.

Lemma mapHas_mapSet_eq k v m : mapHas k (mapSet k v m) = true.
Proof. unfold mapHas. rewrite mapGet_mapSet_eq. reflexivity. Qed.

(** Setting the value of a key that is there changes that entry alone,
    when keys are distinct. *)
Lemma mapSet_split k v0 v m1 m2 :
  Forall (fun e => e.1 <> k) m1 ->
  Forall (fun e => e.1 <> k) m2 ->
  mapSet k v (m1 ++ (k, v0) :: m2) = m1 ++ (k, v) :: m2.
Proof.
  intros H1 H2. unfold mapSet.
  assert (Hid : forall m, Forall (fun e => e.1 <> k) m ->
            map (fun e : K * V => if bool_decide (e.1 = k) then (k, v) else e) m = m).
  { induction 1 as [|e m He _ IH]; [reflexivity|]. cbn [map].
    rewrite bool_decide_eq_false_2 by exact He. rewrite IH. reflexivity. }
  replace (mapHas k (m1 ++ (k, v0) :: m2)) with true.
  - rewrite map_app. cbn [map fst].
    rewrite bool_decide_eq_true_2 by reflexivity.
    rewrite (Hid m1 H1), (Hid m2 H2). reflexivity.
  - symmetry. unfold mapHas, mapGet.
    assert (Hnone : List.find (fun e : K * V => bool_decide (e.1 = k)) m1 = None).
    { clear -H1. induction H1 as [|e m He _ IH]; [reflexivity|]. cbn [List.find].
      rewrite bool_decide_eq_false_2 by exact He. exact IH. }
    rewrite (find_app_none _ _ _ Hnone). cbn [List.find fst].
    rewrite bool_decide_eq_true_2 by reflexivity. reflexivity.
Qed.

End MapFacts.

(** *** Spawning a message sync only if none is registered *)

Lemma mapGet_of_entry {K V} `{EqDecision K} (k : K) (v : V) m :
  NoDup (map fst m) -> (k, v) ∈ m -> mapGet k m = Some v.
Proof.
  unfold mapGet. induction m as [|e m IH]; intros Hnd Hin.
  - inversion Hin.
  - cbn [map] in Hnd. apply NoDup_cons in Hnd as [Hfresh Hnd]. cbn [List.find].
    apply elem_of_cons in Hin as [<-|Hin].
    + cbn [fst]. rewrite bool_decide_eq_true_2 by reflexivity. reflexivity.
    + rewrite bool_decide_eq_false_2; [apply IH; assumption|].
      intros He. apply Hfresh. rewrite He.
      apply (list_elem_of_fmap_2 fst m (k, v) Hin).
Qed.




(** *** The permission sets after [updateGuildChannelPermissions] *)

Section SetFacts.
Context {K : Type} `{EqDecision K}.
Implicit Types (x y : K) (s : list K).

Lemma setHas_true x s : setHas x s = true <-> x ∈ s.
Proof.
  unfold setHas. split; intros Hx.
  - exact (bool_decide_eq_true_1 _ Hx).
  - exact (bool_decide_eq_true_2 _ Hx).
Qed.

Lemma elem_of_setAdd x y s : x ∈ setAdd y s <-> x = y \/ x ∈ s.
Proof.
  unfold setAdd. destruct (setHas y s) eqn:Hy.
  - apply setHas_true in Hy. split; [intros Hx; right; exact Hx|].
    intros [->|Hx]; assumption.
  - rewrite elem_of_app, list_elem_of_singleton. tauto.
Qed.

Lemma elem_of_setDelete x y s : x ∈ setDelete y s <-> x <> y /\ x ∈ s.
Proof.
  unfold setDelete. rewrite list_elem_of_In, List.filter_In, <- list_elem_of_In.
  rewrite negb_true_iff, bool_decide_eq_false. tauto.
Qed.

End SetFacts.

Lemma computeChannelPermissions_overwrites a g c1 c2 data :
  permissionOverwrites c1 = permissionOverwrites c2 ->
  computeChannelPermissions a g c1 data = computeChannelPermissions a g c2 data.
Proof. intros Heq. unfold computeChannelPermissions. rewrite Heq. reflexivity. Qed.



Lemma updateGuildChannelPermissions_channel opts s g c :
  (updateGuildChannelPermissions opts s g c).2 = (updatePermissionSets s g c).1.1.
Proof.
  unfold updateGuildChannelPermissions.
  destruct (updatePermissionSets s g c) as [[c' lostRead] lostManage].
  destruct (syncEnabledFor opts g); [destruct (allReady s)|]; reflexivity.
Qed.


(** *** A guild with two accounts *)

Definition reader : GuildAccountData :=
  {| roles := []; guildPermissions := Z.lor ViewChannel ReadMessageHistory |}.

Definition general : CachedChannel :=
  {| channel_id := 10; channel_type := GuildText; channel_name := "general";
     permissionOverwrites := [];
     accountsWithReadPermission := ["account #0"; "account #1"];
     accountsWithManageThreadsPermission := [];
     syncInfo := Some (None, []) |}.

(** A channel whose overwrite for [@everyone] (the role with the id of
    the guild) denies [ViewChannel]. *)
Definition hidden : CachedChannel :=
  {| channel_id := 11; channel_type := GuildText; channel_name := "hidden";
     permissionOverwrites := [(1, {| allow := 0; deny := ViewChannel |})];
     accountsWithReadPermission := [];
     accountsWithManageThreadsPermission := [];
     syncInfo := Some (None, []) |}.

Definition server : CachedGuild :=
  {| guild_id := 1; guild_name := "server"; ownerID := 500;
     rolePermissions := [(1, Z.lor ViewChannel ReadMessageHistory)];
     accountData := [("account #0", reader); ("account #1", reader)];
     textChannels := [(10, general); (11, hidden)] |}.

Definition withUser (user : Z) : Account :=
  {| user_id := user; numberOfOngoingRESTOperations := 0;
     ongoingMessageSyncs := []; ongoingPrivateThreadMessageSyncs := [];
     ongoingPublicThreadListSyncs := []; ongoingPrivateThreadListSyncs := [];
     ongoingJoinedPrivateThreadListSyncs := [] |}.

Definition twoAccounts : State :=
  {| accounts := [("account #0", withUser 100); ("account #1", withUser 101)];
     guilds := [(1, server)]; allReady := true |}.

Definition syncing : Options := {| noSync := false; guildFilter := None |}.

Lemma server_accounts_distinct : NoDup (map fst (accountData server)).
Proof.
  cbn. apply NoDup_cons. split.
  - intros Hin. apply list_elem_of_singleton in Hin. discriminate.
  - apply NoDup_singleton.
Qed.



(** *** Message syncs of the two accounts *)

Definition PublicThread : Z := 11.

Definition archivedThread : APIThreadChannel :=
  {| thread_id := 77; thread_type := PublicThread; last_message_id := Some 900 |}.




(** *** [CHANNEL_UPDATE] *)

Definition cachedChannel (s : State) (g c : Z) : option CachedChannel :=
  match mapGet g (guilds s) with
  | Some cachedGuild => mapGet c (textChannels cachedGuild)
  | None => None
  end.

Lemma areMapsEqual_same {K V} `{EqDecision K} (m : list (K * V)) equal :
  NoDup (map fst m) -> (forall v, equal v v = true) -> areMapsEqual m m equal = true.
Proof.
  intros Hnd Hrefl. unfold areMapsEqual. rewrite Nat.eqb_refl. cbn [andb].
  apply forallb_forall. intros [k v] Hin. cbn [fst snd].
  rewrite (mapGet_of_entry k v m Hnd); [apply Hrefl|].
  apply list_elem_of_In. exact Hin.
Qed.

Lemma overwriteEqual_refl o : overwriteEqual o o = true.
Proof. unfold overwriteEqual. rewrite !Z.eqb_refl. reflexivity. Qed.

(** Whatever the incoming overwrites are, the handler replaces the cached
    ones and calls [updateGuildChannelPermissions]. *)
Lemma onChannelUpdate_recomputes opts s channel g cachedGuild c :
  isChannelCacheable channel = true ->
  api_guild_id channel = Some g ->
  mapGet g (guilds s) = Some cachedGuild ->
  mapGet (api_id channel) (textChannels cachedGuild) = Some c ->
  NoDup (map fst (permissionOverwrites c)) ->
  onChannelUpdate opts s channel
  = setChannel g
      (updateGuildChannelPermissions opts s cachedGuild
         {| channel_id := channel_id c; channel_type := channel_type c;
            channel_name := api_name channel;
            permissionOverwrites := overwritesOf channel;
            accountsWithReadPermission := accountsWithReadPermission c;
            accountsWithManageThreadsPermission :=
              accountsWithManageThreadsPermission c;
            syncInfo := syncInfo c |}).2
      (updateGuildChannelPermissions opts s cachedGuild
         {| channel_id := channel_id c; channel_type := channel_type c;
            channel_name := api_name channel;
            permissionOverwrites := overwritesOf channel;
            accountsWithReadPermission := accountsWithReadPermission c;
            accountsWithManageThreadsPermission :=
              accountsWithManageThreadsPermission c;
            syncInfo := syncInfo c |}).1.
Proof.
  intros Hcacheable Hguild Hcached Hchannel Hnd. unfold onChannelUpdate.
  rewrite Hcacheable, Hguild, Hcached, Hchannel.
  cbn [permissionOverwrites channel_id channel_type channel_name
       accountsWithReadPermission accountsWithManageThreadsPermission syncInfo].
  rewrite (areMapsEqual_same _ _ Hnd overwriteEqual_refl).
  destruct (updateGuildChannelPermissions _ _ _ _) as [s' c']. reflexivity.
Qed.

Definition news : APIChannel :=
  {| api_id := 12; api_type := GuildText; api_guild_id := Some 1;
     api_name := "news";
     permission_overwrites :=
       Some [{| overwrite_id := 1; overwrite_allow := 0;
                overwrite_deny := ManageThreads |}];
     api_last_message_id := None |}.

(** The same channel under another name, its overwrites as before. *)
Definition newsRenamed : APIChannel :=
  {| api_id := 12; api_type := GuildText; api_guild_id := Some 1;
     api_name := "announcements";
     permission_overwrites := permission_overwrites news;
     api_last_message_id := None |}.

(** C9 (the code departs from it). A channel is created and then
    renamed.  The overwrites of the [CHANNEL_UPDATE] equal the cached
    ones, yet the handler, which compares the cached map with itself,
    recomputes the permission sets: the empty [accountsWithReadPermission]
    of the channel becomes both accounts, and a message sync of the
    channel starts. *)
Lemma channel_update_with_equal_overwrites_recomputes :
  let created := onChannelCreate twoAccounts news in
  let updated := onChannelUpdate syncing created newsRenamed in
  (permissionOverwrites <$> cachedChannel created 1 12) = Some (overwritesOf newsRenamed) /\
  areMapsEqual (overwritesOf newsRenamed) (overwritesOf news) overwriteEqual = true /\
  (accountsWithReadPermission <$> cachedChannel created 1 12) = Some [] /\
  (accountsWithReadPermission <$> cachedChannel updated 1 12)
  = Some ["account #0"; "account #1"] /\
  messageSyncsFor created 12 12 = 0%nat /\
  messageSyncsFor updated 12 12 = 1%nat.
Proof. cbv zeta. repeat split; vm_compute; reflexivity. Qed.

(** *** The least occupied account *)

Definition restOperations (s : State) (name : string) : Z :=
  numberOfOngoingRESTOperations (account s name).

Lemma leastFrom s iterable : forall a,
  exists m,
    fold_left
      (fun min name =>
         match min with
         | None => Some name
         | Some m =>
           if numberOfOngoingRESTOperations (account s name)
              <? numberOfOngoingRESTOperations (account s m)
           then Some name else Some m
         end) iterable (Some a) = Some m /\
    ((m = a /\ Forall (fun n => restOperations s a <= restOperations s n) iterable)
     \/ exists l1 l2,
          iterable = l1 ++ m :: l2 /\ restOperations s m < restOperations s a /\
          Forall (fun n => restOperations s m < restOperations s n) l1 /\
          Forall (fun n => restOperations s m <= restOperations s n) l2).
Proof.
  induction iterable as [|n iterable IH]; intros a; cbn [fold_left].
  - exists a. split; [reflexivity|]. left. split; [reflexivity|constructor].
  - fold (restOperations s n). fold (restOperations s a).
    destruct (Z.ltb_spec (restOperations s n) (restOperations s a)) as [Hlt|Hge].
    + destruct (IH n) as (m & Hm & [[Heq Hall]|(l1 & l2 & Hl & Hless & H1 & H2)]);
        exists m; (split; [exact Hm|]); right.
      * subst m. exists [], iterable. repeat split; [exact Hlt|constructor|exact Hall].
      * subst iterable. exists (n :: l1), l2. repeat split; [lia| |exact H2].
        constructor; [exact Hless|exact H1].
    + destruct (IH a) as (m & Hm & [[Heq Hall]|(l1 & l2 & Hl & Hless & H1 & H2)]);
        exists m; (split; [exact Hm|]).
      * left. subst m. split; [reflexivity|]. constructor; [exact Hge|exact Hall].
      * right. subst iterable. exists (n :: l1), l2.
        repeat split; [exact Hless| |exact H2].
        constructor; [lia|exact H1].
Qed.

(** [getLeastRESTOccupiedAccount] answers [undefined] for no account,
    and otherwise the first, in the order of iteration, of the accounts
    with the fewest ongoing REST operations. *)
Theorem getLeastRESTOccupiedAccount_first_least s iterable :
  (iterable = [] -> getLeastRESTOccupiedAccount s iterable = None) /\
  (iterable <> [] ->
   exists m l1 l2,
     getLeastRESTOccupiedAccount s iterable = Some m /\
     iterable = l1 ++ m :: l2 /\
     Forall (fun n => restOperations s m < restOperations s n) l1 /\
     Forall (fun n => restOperations s m <= restOperations s n) l2).
Proof.
  split; [intros ->; reflexivity|]. intros Hne.
  destruct iterable as [|a iterable]; [contradiction|].
  unfold getLeastRESTOccupiedAccount. cbn [fold_left].
  destruct (leastFrom s iterable a)
    as (m & Hm & [[Heq Hall]|(l1 & l2 & Hl & Hless & H1 & H2)]);
    exists m.
  - subst m. exists [], iterable. repeat split; [exact Hm|constructor|exact Hall].
  - subst iterable. exists (a :: l1), l2. repeat split; [exact Hm| |exact H2].
    constructor; [exact Hless|exact H1].
Qed.

(** *** The accounts that may manage threads *)

(** What one turn of the loop decides about [accountsWithManageThreadsPermission]. *)
Lemma updateAccountSets_manage s g c lostRead lostManage name data :
  let c' := (updateAccountSets s g (c, lostRead, lostManage) (name, data)).1.1 in
  let permissions := computeChannelPermissions (account s name) g c data in
  permissionOverwrites c' = permissionOverwrites c /\
  forall n, n ∈ accountsWithManageThreadsPermission c' <->
    if bool_decide (n = name)
    then if hasChannelPermissions permissions ReadMessageHistory
         then hasChannelPermissions permissions ManageThreads = true
         else n ∈ accountsWithManageThreadsPermission c
    else n ∈ accountsWithManageThreadsPermission c.
Proof.
  cbv zeta. unfold updateAccountSets.
  set (permissions := computeChannelPermissions (account s name) g c data).
  destruct (hasChannelPermissions permissions ReadMessageHistory) eqn:Hread;
    cbn [andb].
  - destruct (hasChannelPermissions permissions ManageThreads) eqn:Hmanage.
    + split; [reflexivity|]. intros n.
      cbn [fst accountsWithManageThreadsPermission setPermissionSets].
      rewrite elem_of_setAdd. case_bool_decide; subst; intuition congruence.
    + replace (setHas name (setAdd name (accountsWithReadPermission c))) with true.
      2:{ symmetry. apply setHas_true, elem_of_setAdd. left. reflexivity. }
      split; [reflexivity|]. intros n.
      cbn [fst accountsWithManageThreadsPermission setPermissionSets].
      rewrite elem_of_setDelete. case_bool_decide; subst; intuition congruence.
  - destruct (setHas name (accountsWithReadPermission c)) eqn:Hhad.
    + replace (setHas name (setDelete name (accountsWithReadPermission c))) with false.
      2:{ symmetry. apply not_true_is_false. intros Hin.
          apply setHas_true, elem_of_setDelete in Hin as [Hne _]. contradiction. }
      split; [reflexivity|]. intros n.
      cbn [fst accountsWithManageThreadsPermission setPermissionSets].
      case_bool_decide; subst; reflexivity.
    + rewrite Hhad. split; [reflexivity|]. intros n.
      cbn [fst accountsWithManageThreadsPermission setPermissionSets].
      case_bool_decide; subst; reflexivity.
Qed.

Lemma fold_updateAccountSets_manage s g entries :
  forall c lostRead lostManage,
  NoDup (map fst entries) ->
  let c' := (fold_left (updateAccountSets s g) entries (c, lostRead, lostManage)).1.1 in
  permissionOverwrites c' = permissionOverwrites c /\
  forall n, n ∈ accountsWithManageThreadsPermission c' <->
    match mapGet n entries with
    | Some data =>
      let permissions := computeChannelPermissions (account s n) g c data in
      if hasChannelPermissions permissions ReadMessageHistory
      then hasChannelPermissions permissions ManageThreads = true
      else n ∈ accountsWithManageThreadsPermission c
    | None => n ∈ accountsWithManageThreadsPermission c
    end.
Proof.
  induction entries as [|[name data] entries IH]; intros c lostRead lostManage Hnd;
    cbv zeta.
  - split; [reflexivity|]. intros n. reflexivity.
  - cbn [map fst] in Hnd. apply NoDup_cons in Hnd as [Hfresh Hnd].
    cbn [fold_left].
    pose proof (updateAccountSets_manage s g c lostRead lostManage name data) as Hone.
    cbv zeta in Hone.
    destruct (updateAccountSets s g (c, lostRead, lostManage) (name, data))
      as [[c1 lostRead1] lostManage1].
    cbn [fst] in Hone. destruct Hone as [Hover1 Hone].
    destruct (IH c1 lostRead1 lostManage1 Hnd) as [Hover Hrest]. cbv zeta in Hrest.
    split; [congruence|]. intros n. rewrite Hrest.
    unfold mapGet at 2. cbn [List.find fst].
    case_bool_decide as Hn.
    + subst n. cbn [fmap option_fmap option_map snd].
      replace (mapGet name entries) with (@None GuildAccountData).
      * rewrite Hone. rewrite bool_decide_eq_true_2 by reflexivity. reflexivity.
      * symmetry. unfold mapGet. rewrite Db.find_absent; [reflexivity|].
        apply Forall_forall. intros e He. apply bool_decide_eq_false.
        intros Heq. apply Hfresh. rewrite <- Heq.
        apply (list_elem_of_fmap_2 fst entries e He).
    + fold (mapGet n entries). destruct (mapGet n entries) as [d|].
      * cbv zeta.
        rewrite (computeChannelPermissions_overwrites _ g c1 c d Hover1).
        destruct (hasChannelPermissions
                    (computeChannelPermissions (account s n) g c d)
                    ReadMessageHistory); [reflexivity|].
        rewrite Hone. rewrite bool_decide_eq_false_2 by congruence. reflexivity.
      * rewrite Hone. rewrite bool_decide_eq_false_2 by congruence. reflexivity.
Qed.

(** After [updateGuildChannelPermissions], an account with a record in
    the guild that passes the test for [ReadMessageHistory] is in
    [accountsWithManageThreadsPermission] exactly when it passes the test
    for [ManageThreads].  An account that fails the test for
    [ReadMessageHistory] is neither added nor removed: it is in the set
    exactly when it was before the call. *)
Theorem updateGuildChannelPermissions_manage_iff opts s g c name data :
  NoDup (map fst (accountData g)) ->
  mapGet name (accountData g) = Some data ->
  let permissions := computeChannelPermissions (account s name) g c data in
  name ∈ accountsWithManageThreadsPermission
           (updateGuildChannelPermissions opts s g c).2 <->
  if hasChannelPermissions permissions ReadMessageHistory
  then hasChannelPermissions permissions ManageThreads = true
  else name ∈ accountsWithManageThreadsPermission c.
Proof.
  intros Hnd Hget. cbv zeta. rewrite updateGuildChannelPermissions_channel.
  unfold updatePermissionSets.
  destruct (fold_updateAccountSets_manage s g (accountData g) c [] [] Hnd)
    as [_ Hmanage].
  rewrite Hmanage, Hget. reflexivity.
Qed.

(** A channel that hides its history from [@everyone]; account #0 was in
    both sets. *)
Definition historyHidden : CachedChannel :=
  {| channel_id := 13; channel_type := GuildText; channel_name := "archive";
     permissionOverwrites := [(1, {| allow := 0; deny := ReadMessageHistory |})];
     accountsWithReadPermission := ["account #0"];
     accountsWithManageThreadsPermission := ["account #0"];
     syncInfo := Some (None, []) |}.

Lemma updateGuildChannelPermissions_manage_iff_witness :
  "account #0" ∈ accountsWithManageThreadsPermission
                   (updateGuildChannelPermissions syncing twoAccounts server
                      historyHidden).2 <->
  if hasChannelPermissions
       (computeChannelPermissions (account twoAccounts "account #0") server
          historyHidden reader) ReadMessageHistory
  then hasChannelPermissions
         (computeChannelPermissions (account twoAccounts "account #0") server
            historyHidden reader) ManageThreads = true
  else "account #0" ∈ accountsWithManageThreadsPermission historyHidden.
Proof.
  apply (updateGuildChannelPermissions_manage_iff syncing twoAccounts server
           historyHidden "account #0" reader).
  - exact server_accounts_distinct.
  - reflexivity.
Defined.

(** The account has lost [ReadMessageHistory] on the channel: it leaves
    [accountsWithReadPermission] and stays in
    [accountsWithManageThreadsPermission]. *)
Lemma lost_history_keeps_manage_threads :
  accountsWithReadPermission
    (updateGuildChannelPermissions syncing twoAccounts server historyHidden).2 = [] /\
  accountsWithManageThreadsPermission
    (updateGuildChannelPermissions syncing twoAccounts server historyHidden).2
  = ["account #0"].
Proof. split; vm_compute; reflexivity. Qed.

(** *** A sync that starts and ends *)

Section RegistryFacts.
Context {K : Type} `{EqDecision K} {V : Type}.
Implicit Types (k : K) (v : V) (m : list (K * V)).

Lemma mapGet_None_keys k m :
  mapGet k m = None -> Forall (fun e => e.1 <> k) m.
Proof.
  unfold mapGet. intros Hget. apply Forall_forall. intros e He Heq.
  destruct (List.find _ m) as [x|] eqn:Hfind; [discriminate|].
  apply list_elem_of_In in He.
  pose proof (List.find_none _ _ Hfind e He) as Hne.
  apply bool_decide_eq_false in Hne. contradiction.
Qed.

Lemma mapGet_Some_split k v m :
  NoDup (map fst m) -> mapGet k m = Some v ->
  exists m1 m2, m = m1 ++ (k, v) :: m2 /\
                Forall (fun e => e.1 <> k) m1 /\ Forall (fun e => e.1 <> k) m2.
Proof.
  unfold mapGet. intros Hnd Hget.
  destruct (List.find _ m) as [[k' v']|] eqn:Hfind; [|discriminate].
  cbn [fmap option_fmap option_map snd] in Hget. injection Hget as ->.
  destruct (Db.find_split _ _ _ Hfind) as (m1 & m2 & -> & H1 & Hk).
  apply bool_decide_eq_true in Hk. cbn [fst] in Hk. subst k'.
  exists m1, m2. split; [reflexivity|]. split.
  - eapply Forall_impl; [exact H1|]. cbn. intros e He.
    apply bool_decide_eq_false in He. exact He.
  - rewrite map_app in Hnd. cbn [map fst] in Hnd.
    apply NoDup_app in Hnd as (_ & _ & Hnd). apply NoDup_cons in Hnd as [Hfresh _].
    apply Forall_forall. intros e He Heq. apply Hfresh. rewrite <- Heq.
    apply (list_elem_of_fmap_2 fst m2 e He).
Qed.

Lemma mapDelete_keys k m : Forall (fun e => e.1 <> k) m -> mapDelete k m = m.
Proof.
  unfold mapDelete. induction 1 as [|e m He _ IH]; [reflexivity|].
  cbn [List.filter]. rewrite bool_decide_eq_false_2 by exact He.
  cbn [negb]. rewrite IH. reflexivity.
Qed.

Lemma mapDelete_appended k v m :
  mapGet k m = None -> mapDelete k (m ++ [(k, v)]) = m.
Proof.
  intros Hget. unfold mapDelete. rewrite List.filter_app. cbn [List.filter fst].
  rewrite bool_decide_eq_true_2 by reflexivity. cbn [negb].
  rewrite app_nil_r. apply mapDelete_keys, mapGet_None_keys, Hget.
Qed.

Lemma mapSet_appended k v m : mapGet k m = None -> mapSet k v m = m ++ [(k, v)].
Proof. intros Hget. unfold mapSet, mapHas. rewrite Hget. reflexivity. Qed.

End RegistryFacts.

(** The account holds no sync of the target yet, and its registry is a
    [Map] as [syncMessages] leaves it: one entry for a parent channel,
    none of them empty. *)
Definition freeToSync (a : Account) (t : SyncTarget) : Prop :=
  NoDup (map fst (ongoingSyncs t a)) /\
  forall ongoingChannelSyncs,
    mapGet (parentChannel t) (ongoingSyncs t a) = Some ongoingChannelSyncs ->
    ongoingChannelSyncs <> [] /\ mapGet (target_id t) ongoingChannelSyncs = None.

Lemma registry_restored (registry : list (Z * list (Z * Sync))) parent id sync :
  NoDup (map fst registry) ->
  (forall chs, mapGet parent registry = Some chs ->
               chs <> [] /\ mapGet id chs = None) ->
  let registry' :=
    match mapGet parent registry with
    | Some chs => mapSet parent (mapSet id sync chs) registry
    | None => mapSet parent [(id, sync)] registry
    end in
  let chs' := default [] (mapGet parent registry') in
  (if (1 <? length chs')%nat
   then mapSet parent (mapDelete id chs') registry'
   else mapDelete parent registry') = registry.
Proof.
  intros Hnd Hfree registry' chs'. subst chs' registry'.
  destruct (mapGet parent registry) as [chs|] eqn:Hget.
  - destruct (Hfree chs eq_refl) as [Hne Hnone].
    destruct (mapGet_Some_split parent chs registry Hnd Hget)
      as (m1 & m2 & -> & H1 & H2).
    rewrite mapGet_mapSet_eq. cbn [default].
    rewrite (mapSet_appended id sync chs Hnone). unfold Datatypes.id.
    rewrite length_app. cbn [length].
    replace (1 <? length chs + 1)%nat with true.
    2:{ symmetry. apply Nat.ltb_lt. destruct chs; [contradiction|cbn; lia]. }
    rewrite (mapDelete_appended id sync chs Hnone).
    rewrite (mapSet_split parent chs _ m1 m2 H1 H2).
    apply (mapSet_split parent _ chs m1 m2 H1 H2).
  - rewrite mapGet_mapSet_eq. cbn [default]. unfold Datatypes.id.
    cbn [length Nat.ltb Nat.leb].
    rewrite (mapSet_appended parent _ registry Hget).
    apply mapDelete_appended. exact Hget.
Qed.

Lemma ongoingSyncs_set t registry d a :
  ongoingSyncs t (addRESTOperations d (setOngoingSyncs t registry a)) = registry.
Proof. unfold ongoingSyncs, setOngoingSyncs. destruct (isPrivateThread t); reflexivity. Qed.

Lemma account_restored t a registry :
  addRESTOperations (-1)
    (setOngoingSyncs t (ongoingSyncs t a)
       (addRESTOperations 1 (setOngoingSyncs t registry a))) = a.
Proof.
  unfold ongoingSyncs, setOngoingSyncs. destruct a.
  destruct (isPrivateThread t); unfold addRESTOperations, setMessageSyncs,
    setPrivateThreadMessageSyncs; cbn; f_equal; lia.
Qed.

(** A sync that starts on an account free to take it, and ends, leaves
    the accounts as it found them: the registries and the count of
    ongoing REST operations are those of before. *)
Theorem syncMessages_start_end s name a t :
  NoDup (map fst (accounts s)) ->
  mapGet name (accounts s) = Some a ->
  freeToSync a t ->
  syncMessagesEnd (syncMessagesStart s name t) name t = s.
Proof.
  intros Hnd Hget [Hkeys Hfree].
  destruct (mapGet_Some_split name a (accounts s) Hnd Hget)
    as (m1 & m2 & Hsplit & H1 & H2).
  unfold syncMessagesEnd, syncMessagesStart.
  replace (account s name) with a by (unfold account; rewrite Hget; reflexivity).
  set (registry' := match mapGet (parentChannel t) (ongoingSyncs t a) with
                    | Some chs => _ | None => _ end).
  set (a1 := addRESTOperations 1 (setOngoingSyncs t registry' a)).
  replace (account (setAccount name a1 s) name) with a1.
  2:{ unfold account, setAccount. cbn [accounts].
      rewrite mapGet_mapSet_eq. reflexivity. }
  assert (Hreg : ongoingSyncs t a1 = registry') by apply ongoingSyncs_set.
  rewrite !Hreg.
  pose proof (registry_restored (ongoingSyncs t a) (parentChannel t) (target_id t)
                {| aborted := false; target := t |} Hkeys Hfree) as Hrestored.
  cbv zeta in Hrestored. fold registry' in Hrestored. rewrite Hrestored.
  unfold a1. rewrite account_restored.
  unfold setAccount. cbn [accounts guilds allReady]. destruct s as [accs gs ready].
  cbn [accounts guilds allReady] in *. subst accs. f_equal.
  rewrite (mapSet_split name a _ m1 m2 H1 H2).
  apply (mapSet_split name _ a m1 m2 H1 H2).
Qed.

Lemma syncMessages_start_end_witness :
  syncMessagesEnd
    (syncMessagesStart twoAccounts "account #1"
       (extractThreadInfo archivedThread server general))
    "account #1" (extractThreadInfo archivedThread server general)
  = twoAccounts.
Proof.
  apply (syncMessages_start_end twoAccounts "account #1" (withUser 101)
           (extractThreadInfo archivedThread server general)).
  - exact server_accounts_distinct.
  - reflexivity.
  - split; [constructor|]. intros chs Hchs. discriminate Hchs.
Defined.

(** *** [GUILD_MEMBER_UPDATE] for one of the accounts *)

(** [member.roles.length !== accountData.roles.size ||
     member.roles.some(id => !accountData.roles.has(id))] *)
Definition rolesChanged (memberRoles roles : list Z) : bool :=
  negb (length memberRoles =? length roles)%nat
  || existsb (fun role => negb (setHas role roles)) memberRoles.

(** [new Set(iterable)] *)
Definition setOf {K} `{EqDecision K} (iterable : list K) : list K :=
  fold_left (fun s x => setAdd x s) iterable [].

Definition setGuild (g : Z) (cachedGuild : CachedGuild) (s : State) : State :=
  {| accounts := accounts s; guilds := mapSet g cachedGuild (guilds s);
     allReady := allReady s |}.

(** [accountData.roles = new Set(member.roles)] for the account [name]. *)
Definition setRoles (name : string) (memberRoles : list Z) (g : CachedGuild)
  : CachedGuild :=
  {| guild_id := guild_id g; guild_name := guild_name g; ownerID := ownerID g;
     rolePermissions := rolePermissions g;
     accountData :=
       match mapGet name (accountData g) with
       | Some data =>
         mapSet name {| roles := setOf memberRoles;
                        guildPermissions := guildPermissions data |}
           (accountData g)
       | None => accountData g
       end;
     textChannels := textChannels g |}.

(** [updateGuildPermissions(cachedGuild)]: every text channel of the
    guild in turn. *)
Fixpoint updateChannels (opts : Options) (g : CachedGuild)
    (channels : list (Z * CachedChannel)) (s : State) : State :=
  match channels with
  | [] => s
  | (_, c) :: channels' =>
    let '(s', c') := updateGuildChannelPermissions opts s g c in
    updateChannels opts g channels' (setChannel (guild_id g) c' s')
  end.

Definition updateGuildPermissions (opts : Options) (s : State) (g : CachedGuild)
  : State :=
  updateChannels opts g (textChannels g) s.

(** The cache side of the handler of
    [GatewayDispatchEvents.GuildMemberUpdate]: the first account of the
    guild whose user is the member, if there is one. *)
Definition onGuildMemberUpdate (opts : Options) (s : State) (g userID : Z)
    (memberRoles : list Z) : State :=
  match mapGet g (guilds s) with
  | None => s
  | Some cachedGuild =>
    match List.find (fun e => user_id (account s e.1) =? userID)
            (accountData cachedGuild) with
    | None => s
    | Some (name, data) =>
      if rolesChanged memberRoles (roles data) then
        let cachedGuild' := setRoles name memberRoles cachedGuild in
        updateGuildPermissions opts (setGuild g cachedGuild' s) cachedGuild'
      else s
    end
  end.

Lemma rolesChanged_false memberRoles roles :
  NoDup memberRoles ->
  rolesChanged memberRoles roles = false <-> memberRoles ≡ₚ roles.
Proof.
  intros Hnd. unfold rolesChanged. rewrite orb_false_iff, negb_false_iff.
  rewrite Nat.eqb_eq. split.
  - intros [Hlen Hall]. apply submseteq_length_Permutation; [|lia].
    apply NoDup_submseteq; [exact Hnd|]. intros x Hx.
    apply setHas_true. apply negb_false_iff.
    apply not_true_is_false. intros Hneg.
    assert (Hex : existsb (fun role => negb (setHas role roles)) memberRoles = true).
    { apply existsb_exists. exists x. split; [apply list_elem_of_In, Hx|exact Hneg]. }
    congruence.
  - intros Hperm. split; [apply Permutation_length, Hperm|].
    apply not_true_is_false. intros Hex.
    apply existsb_exists in Hex as (x & Hx & Hneg).
    apply negb_true_iff in Hneg. apply list_elem_of_In in Hx.
    rewrite Hperm in Hx. apply setHas_true in Hx. congruence.
Qed.

(** When the member is one of the accounts and its role list holds no
    role twice, the handler leaves the cache as it is if the roles are
    the cached ones, in any order, and otherwise replaces the cached
    roles and recomputes the permission sets of every channel of the
    guild. *)
Theorem onGuildMemberUpdate_recomputes_iff
    opts s g cachedGuild userID memberRoles name data :
  NoDup memberRoles ->
  mapGet g (guilds s) = Some cachedGuild ->
  List.find (fun e => user_id (account s e.1) =? userID) (accountData cachedGuild)
  = Some (name, data) ->
  (memberRoles ≡ₚ roles data ->
   onGuildMemberUpdate opts s g userID memberRoles = s) /\
  (~ memberRoles ≡ₚ roles data ->
   onGuildMemberUpdate opts s g userID memberRoles =
   updateGuildPermissions opts
     (setGuild g (setRoles name memberRoles cachedGuild) s)
     (setRoles name memberRoles cachedGuild)).
Proof.
  intros Hnd Hguild Hfind. unfold onGuildMemberUpdate. rewrite Hguild, Hfind.
  split; intros Hperm.
  - apply (rolesChanged_false _ _ Hnd) in Hperm. rewrite Hperm. reflexivity.
  - destruct (rolesChanged memberRoles (roles data)) eqn:Hchanged; [reflexivity|].
    apply (rolesChanged_false _ _ Hnd) in Hchanged. contradiction.
Qed.

(** In [server], account #1 with the roles 3 and 4. *)
Definition moderator : GuildAccountData :=
  {| roles := [3; 4]; guildPermissions := Z.lor ViewChannel ReadMessageHistory |}.

Definition moderated : CachedGuild :=
  {| guild_id := 2; guild_name := "moderated"; ownerID := 500;
     rolePermissions := [(2, 0); (3, ViewChannel); (4, ReadMessageHistory)];
     accountData := [("account #0", reader); ("account #1", moderator)];
     textChannels := [] |}.

Definition withModerated : State :=
  {| accounts := accounts twoAccounts; guilds := [(1, server); (2, moderated)];
     allReady := true |}.

Lemma onGuildMemberUpdate_recomputes_iff_witness :
  ([4; 3] ≡ₚ roles moderator ->
   onGuildMemberUpdate syncing withModerated 2 101 [4; 3] = withModerated) /\
  (~ [4; 3] ≡ₚ roles moderator ->
   onGuildMemberUpdate syncing withModerated 2 101 [4; 3] =
   updateGuildPermissions syncing
     (setGuild 2 (setRoles "account #1" [4; 3] moderated) withModerated)
     (setRoles "account #1" [4; 3] moderated)).
Proof.
  apply (onGuildMemberUpdate_recomputes_iff syncing withModerated 2 moderated 101
           [4; 3] "account #1" moderator).
  - apply NoDup_cons. split; [|apply NoDup_singleton].
    intros Hin. apply list_elem_of_singleton in Hin. discriminate.
  - reflexivity.
  - reflexivity.
Defined.

(** A role list that names a role twice can hide a change: roles 3 and 4
    are cached, the member now has role 3 alone, listed twice, and the
    handler leaves the cache as it is. *)
Lemma repeated_role_hides_change :
  rolesChanged [3; 3] (roles moderator) = false /\
  onGuildMemberUpdate syncing withModerated 2 101 [3; 3] = withModerated.
Proof. split; reflexivity. Qed.

End Cache.

(* ===================================================================== *)
(** ** [db/generic-encoding.ts] and [db/request-handler.ts]: objects,
       their schemas and the objects of the snapshot requests *)
(* ===================================================================== *)

Module Objects.
Import Encoding.
Local Open Scope string_scope.
Local Open Scope list_scope.
Local Open Scope Z_scope.

Variant ObjectType := USER | GUILD | ROLE | MEMBER | CHANNEL | MESSAGE | ATTACHMENT.

Module ValueType.
Variant t :=
| STRING | INTEGER | BOOLEAN | STRICT_BOOLEAN | BIG_INTEGER | FLOAT | BASE64
| IMAGE_HASH | BIG_INTEGER_ARRAY | TIMESTAMP | EMOJI | JSON | NULL.
End ValueType.

Module NullValue.
Variant t := ABSENT | NULL | EMPTY_ARRAY.
End NullValue.

(** [PropertyInfo]: [[key, type, nullValue?]], the [nullValue] left out
    being [None]. *)
Definition PropertyInfo : Type := string * ValueType.t * option NullValue.t.

Record Schema := {
  properties : list PropertyInfo;
  subObjectProperties : list (string * list PropertyInfo * option NullValue.t);
}.

Import ValueType.

Definition required : option NullValue.t := None.
Definition ABSENT : option NullValue.t := Some NullValue.ABSENT.
Definition NULL_ : option NullValue.t := Some NullValue.NULL.
Definition EMPTY_ARRAY : option NullValue.t := Some NullValue.EMPTY_ARRAY.

(** The properties of the sub-objects [tags] of a role and
    [thread_metadata] of a channel. *)
Definition tags : list PropertyInfo :=
  [ ("bot_id", BIG_INTEGER, ABSENT);
    ("integration_id", BIG_INTEGER, ABSENT);
    ("premium_subscriber", ValueType.NULL, ABSENT);
    ("subscription_listing_id", BIG_INTEGER, ABSENT);
    ("available_for_purchase", ValueType.NULL, ABSENT);
    ("guild_connections", ValueType.NULL, ABSENT) ].

Definition thread_metadata : list PropertyInfo :=
  [ ("archived", BOOLEAN, required);
    ("auto_archive_duration", INTEGER, required);
    ("archive_timestamp", TIMESTAMP, required);
    ("locked", BOOLEAN, required);
    ("invitable", BOOLEAN, ABSENT);
    ("create_timestamp", TIMESTAMP, ABSENT) ].

Definition schemas (objectType : ObjectType) : Schema :=
  match objectType with
  | USER =>
    {| properties :=
         [ ("id", BIG_INTEGER, required);
           ("bot", STRICT_BOOLEAN, required);
           ("username", STRING, required);
           ("global_name", STRING, NULL_);
           ("avatar", IMAGE_HASH, NULL_);
           ("public_flags", INTEGER, ABSENT) ];
       subObjectProperties := [] |}
  | GUILD =>
    {| properties :=
         [ ("id", BIG_INTEGER, required);
           ("name", STRING, required);
           ("icon", IMAGE_HASH, NULL_);
           ("splash", IMAGE_HASH, NULL_);
           ("discovery_splash", IMAGE_HASH, NULL_);
           ("owner_id", BIG_INTEGER, NULL_);
           ("afk_channel_id", BIG_INTEGER, NULL_);
           ("afk_timeout", INTEGER, required);
           ("widget_enabled", STRICT_BOOLEAN, required);
           ("widget_channel_id", BIG_INTEGER, NULL_);
           ("verification_level", INTEGER, required);
           ("default_message_notifications", INTEGER, required);
           ("explicit_content_filter", INTEGER, required);
           ("mfa_level", INTEGER, required);
           ("system_channel_id", BIG_INTEGER, NULL_);
           ("system_channel_flags", BIG_INTEGER, required);
           ("rules_channel_id", BIG_INTEGER, NULL_);
           ("max_presences", INTEGER, NULL_);
           ("max_members", INTEGER, NULL_);
           ("vanity_url_code", STRING, NULL_);
           ("description", STRING, NULL_);
           ("banner", IMAGE_HASH, NULL_);
           ("premium_tier", INTEGER, required);
           ("premium_subscription_count", INTEGER, ABSENT);
           ("preferred_locale", STRING, required);
           ("public_updates_channel_id", BIG_INTEGER, NULL_);
           ("max_video_channel_users", INTEGER, ABSENT);
           ("nsfw_level", INTEGER, required);
           ("premium_progress_bar_enabled", STRICT_BOOLEAN, required) ];
       subObjectProperties := [] |}
  | ROLE =>
    {| properties :=
         [ ("id", BIG_INTEGER, required);
           ("managed", BOOLEAN, required);
           ("name", STRING, required);
           ("color", INTEGER, required);
           ("hoist", BOOLEAN, required);
           ("icon", IMAGE_HASH, NULL_);
           ("unicode_emoji", STRING, NULL_);
           ("position", INTEGER, required);
           ("permissions", BIG_INTEGER, required);
           ("mentionable", BOOLEAN, required);
           ("flags", INTEGER, required) ];
       subObjectProperties :=
         [ ("tags", tags, ABSENT) ] |}
  | MEMBER =>
    {| properties :=
         [ ("nick", STRING, NULL_);
           ("avatar", IMAGE_HASH, NULL_);
           ("roles", BIG_INTEGER_ARRAY, required);
           ("joined_at", TIMESTAMP, required);
           ("premium_since", TIMESTAMP, NULL_);
           ("flags", INTEGER, required);
           ("pending", BOOLEAN, ABSENT);
           ("permissions", BIG_INTEGER, ABSENT);
           ("communication_disabled_until", TIMESTAMP, NULL_) ];
       subObjectProperties := [] |}
  | CHANNEL =>
    {| properties :=
         [ ("id", BIG_INTEGER, required);
           ("type", INTEGER, required);
           ("guild_id", BIG_INTEGER, ABSENT);
           ("position", INTEGER, ABSENT);
           ("name", STRING, NULL_);
           ("topic", STRING, NULL_);
           ("nsfw", BOOLEAN, ABSENT);
           ("bitrate", INTEGER, ABSENT);
           ("user_limit", INTEGER, ABSENT);
           ("rate_limit_per_user", INTEGER, ABSENT);
           ("icon", IMAGE_HASH, NULL_);
           ("owner_id", BIG_INTEGER, ABSENT);
           ("parent_id", BIG_INTEGER, NULL_);
           ("rtc_region", STRING, NULL_);
           ("video_quality_mode", INTEGER, ABSENT);
           ("default_auto_archive_duration", INTEGER, ABSENT);
           ("flags", INTEGER, ABSENT);
           ("default_reaction_emoji", EMOJI, NULL_);
           ("default_thread_rate_limit_per_user", INTEGER, ABSENT);
           ("default_sort_order", INTEGER, NULL_);
           ("default_forum_layout", INTEGER, ABSENT) ];
       subObjectProperties :=
         [ ("thread_metadata", thread_metadata, ABSENT) ] |}
  | MESSAGE =>
    {| properties :=
         [ ("id", BIG_INTEGER, required);
           ("channel_id", BIG_INTEGER, required);
           ("tts", BOOLEAN, required);
           ("mention_everyone", BOOLEAN, required);
           ("mention_roles", BIG_INTEGER_ARRAY, required);
           ("type", INTEGER, required);
           ("content", STRING, required);
           ("flags", INTEGER, required);
           ("embeds", JSON, EMPTY_ARRAY);
           ("components", JSON, EMPTY_ARRAY) ];
       subObjectProperties :=
         [ ("activity",
            [ ("type", INTEGER, required);
              ("party_id", STRING, required) ],
            ABSENT);
           ("interaction",
            [ ("id", BIG_INTEGER, required);
              ("type", INTEGER, required);
              ("name", STRING, required) ],
            ABSENT) ] |}
  | ATTACHMENT =>
    {| properties :=
         [ ("id", BIG_INTEGER, required);
           ("filename", STRING, required);
           ("description", STRING, ABSENT);
           ("content_type", STRING, ABSENT);
           ("size", INTEGER, required);
           ("height", INTEGER, ABSENT);
           ("width", INTEGER, ABSENT);
           ("ephemeral", STRICT_BOOLEAN, required);
           ("duration_secs", FLOAT, ABSENT);
           ("waveform", BASE64, ABSENT);
           ("flags", INTEGER, ABSENT) ];
       subObjectProperties := [] |}
  end.

(** *** JavaScript values

    The numbers that are not integers ([NaN] and the infinities among
    them) are left abstract. *)
Variant number (fraction : Type) :=
| Int (z : Z)
| NonInt (x : fraction).
Arguments Int {fraction} z.
Arguments NonInt {fraction} x.

#[warnings="-register-all"]
Inductive jsValue (fraction : Type) :=
| JUndefined
| JNull
| JBoolean (b : bool)
| JNumber (n : number fraction)
| JBigInt (z : Z)
| JString (s : string)
| JUint8Array (bytes : list Z)
| JArray (items : list (jsValue fraction))
| JObject (props : list (string * jsValue fraction)).
Arguments JUndefined {fraction}.
Arguments JNull {fraction}.
Arguments JBoolean {fraction} b.
Arguments JNumber {fraction} n.
Arguments JBigInt {fraction} z.
Arguments JString {fraction} s.
Arguments JUint8Array {fraction} bytes.
Arguments JArray {fraction} items.
Arguments JObject {fraction} props.

(** The conversions of the runtime and of its libraries that the
    encoding calls: [BigInt(v)], [Number(v)], [String(v)], the truth of
    a number that is not an integer (all but [NaN] are true),
    [Buffer.from(v, "base64")], [Buffer.from(...).toString("base64")],
    [new Date(v).getTime()], [new Date(n).toISOString()],
    [JSON.stringify(v)] and [JSON.parse(v)]; then [v[key]] for a value
    that is not a plain object, what [encodeSnowflakeArray] and
    [encodePermissionOverwrites] do with a value outside their declared
    parameter type, and the text of the [TypeError] that [encodeObject]
    and [decodeObject] throw in place of the error of a property. *)
Class Runtime := {
  fraction : Type;
  BigIntOf : jsValue fraction -> result Z;
  NumberOf : jsValue fraction -> number fraction;
  StringOf : jsValue fraction -> string;
  truthy : fraction -> bool;
  bufferFromBase64 : jsValue fraction -> result (list Z);
  bufferToBase64 : jsValue fraction -> result string;
  dateGetTime : jsValue fraction -> number fraction;
  dateToISOString : number fraction -> result string;
  JSONstringify : jsValue fraction -> result (jsValue fraction);
  JSONparse : jsValue fraction -> result (jsValue fraction);
  propertyOf : jsValue fraction -> string -> jsValue fraction;
  encodeSnowflakeArrayOther : jsValue fraction -> result (list Z);
  encodePermissionOverwritesOther : jsValue fraction -> result (list Z);
  cannotEncode :
    ObjectType -> string -> ValueType.t -> jsValue fraction -> jsError -> string;
  cannotDecode :
    ObjectType -> string -> ValueType.t -> jsValue fraction -> jsError -> string;
}.

Section Values.
Context {runtime : Runtime}.

(** A value of any type. *)
Definition any : Type := jsValue fraction.

(** The own properties of a plain object, in the order of insertion. *)
Definition props : Type := list (string * any).

Definition isUndefined (v : any) : bool :=
  match v with JUndefined => true | _ => false end.

Definition isNull (v : any) : bool :=
  match v with JNull => true | _ => false end.

(** [v == null] *)
Definition nullish (v : any) : bool := isUndefined v || isNull v.

(** [v instanceof Array && v.length === 0] *)
Definition isEmptyArray (v : any) : bool :=
  match v with JArray [] => true | _ => false end.

(** [object[key]] *)
Definition prop (object : props) (key : string) : any :=
  default JUndefined (Cache.mapGet key object).

Definition getProp (v : any) (key : string) : any :=
  match v with
  | JObject object => prop object key
  | _ => propertyOf v key
  end.

(** [Boolean(v)] *)
Definition BooleanOf (v : any) : bool :=
  match v with
  | JUndefined | JNull => false
  | JBoolean b => b
  | JNumber (Int z) => negb (z =? 0)
  | JNumber (NonInt x) => truthy x
  | JBigInt z => negb (z =? 0)
  | JString s => negb (String.eqb s EmptyString)
  | JUint8Array _ | JArray _ | JObject _ => true
  end.

(** *** Values *)

Definition getNullValue (value : option NullValue.t) : result any :=
  match value with
  | None => Throw (TypeError "A required field was NULL")
  | Some NullValue.ABSENT => Ok JUndefined
  | Some NullValue.NULL => Ok JNull
  | Some NullValue.EMPTY_ARRAY => Ok (JArray [])
  end.

Definition isSTRICT_BOOLEAN (type : ValueType.t) : bool :=
  match type with STRICT_BOOLEAN => true | _ => false end.

Definition isNULL (type : ValueType.t) : bool :=
  match type with ValueType.NULL => true | _ => false end.

Definition isEMPTY_ARRAY (nullValue : option NullValue.t) : bool :=
  match nullValue with Some NullValue.EMPTY_ARRAY => true | _ => false end.

(** [nullValue === undefined] *)
Definition noNullValue (nullValue : option NullValue.t) : bool :=
  match nullValue with None => true | Some _ => false end.

Definition strings (items : list any) : option (list string) :=
  mapM (fun v => match v with JString s => Some s | _ => None end) items.

(** [encodeImageHash(value)] with its guard on [typeof hash]. *)
Definition encodeImageHashValue (value : any) : result any :=
  match value with
  | JString hash =>
    match encodeImageHash hash with
    | HashText s => Ok (JString s)
    | HashBytes buf => Ok (JUint8Array buf)
    end
  | _ => Throw (TypeError
           "Only strings can be encoded into the image hash representation.")
  end.

(** [decodeImageHash(value)] with its guards. *)
Definition decodeImageHashValue (value : any) : result any :=
  match value with
  | JString s => Ok (JString s)
  | JUint8Array buf =>
    let* hash := decodeImageHash (HashBytes buf) in Ok (JString hash)
  | _ => Throw (TypeError "Not an Uint8Array.")
  end.

Definition encodeSnowflakeArrayValue (value : any) : result any :=
  let* buf :=
    match value with
    | JArray items =>
      match strings items with
      | Some array => encodeSnowflakeArray array
      | None => encodeSnowflakeArrayOther value
      end
    | _ => encodeSnowflakeArrayOther value
    end in
  Ok (JUint8Array buf).

Definition decodeSnowflakeArrayValue (value : any) : result any :=
  match value with
  | JUint8Array buf =>
    let* array := decodeSnowflakeArray buf in Ok (JArray (map JString array))
  | _ => Throw (TypeError "Not an Uint8Array.")
  end.

(** [encodeEmojiProps(emoji)]: [encodeEmoji] of
    [{ id: emoji.emoji_id, name: emoji.emoji_name }]. *)
Definition encodeEmojiProps (emoji : any) : result any :=
  let id := getProp emoji "emoji_id" in
  let name := getProp emoji "emoji_name" in
  if negb (nullish id) then let* z := BigIntOf id in Ok (JBigInt z)
  else Ok name.

Definition decodeEmojiProps (data : any) : any :=
  match data with
  | JBigInt z =>
    JObject [("emoji_id", JString (StringOfBigInt z)); ("emoji_name", JNull)]
  | _ => JObject [("emoji_id", JNull); ("emoji_name", data)]
  end.

Definition encodeValue (type : ValueType.t) (nullValue : option NullValue.t)
    (value : any) : result any :=
  if negb (isSTRICT_BOOLEAN type) && isUndefined value
     || negb (isNULL type || isSTRICT_BOOLEAN type) && isNull value
     || isEMPTY_ARRAY nullValue && isEmptyArray value
  then
    if noNullValue nullValue && negb (isNULL type || isSTRICT_BOOLEAN type)
    then Throw (TypeError "The NULL value is undefined.")
    else Ok JNull
  else
    match type with
    | STRING | BIG_INTEGER | FLOAT => Ok value
    | INTEGER | BOOLEAN | STRICT_BOOLEAN =>
      if nullish value then Ok (JBigInt 0)
      else let* z := BigIntOf value in Ok (JBigInt z)
    | BASE64 => let* buf := bufferFromBase64 value in Ok (JUint8Array buf)
    | IMAGE_HASH => encodeImageHashValue value
    | BIG_INTEGER_ARRAY => encodeSnowflakeArrayValue value
    | TIMESTAMP => Ok (JNumber (dateGetTime value))
    | EMOJI => encodeEmojiProps value
    | JSON => JSONstringify value
    | ValueType.NULL => Ok (JNumber (Int 0))
    end.

Definition decodeValue (type : ValueType.t) (nullValue : option NullValue.t)
    (value : any) : result any :=
  if isNull value then getNullValue nullValue
  else if isUndefined value then
    Throw (TypeError "Missing column in SQL result")
  else
    match type with
    | STRING | FLOAT => Ok value
    | INTEGER => Ok (JNumber (NumberOf value))
    | BOOLEAN | STRICT_BOOLEAN => Ok (JBoolean (BooleanOf value))
    | BIG_INTEGER => Ok (JString (StringOf value))
    | BASE64 => let* s := bufferToBase64 value in Ok (JString s)
    | IMAGE_HASH => decodeImageHashValue value
    | BIG_INTEGER_ARRAY => decodeSnowflakeArrayValue value
    | TIMESTAMP =>
      let* s := dateToISOString (NumberOf value) in Ok (JString s)
    | EMOJI => Ok (decodeEmojiProps value)
    | JSON => JSONparse value
    | ValueType.NULL => Ok JNull
    end.

(** *** Objects *)

(** [!(partial && object[key] === undefined)] *)
Definition given (partial : bool) (object : props) (key : string) : bool :=
  negb (partial && isUndefined (prop object key)).

(** The first loop of [encodeObject]. *)
Fixpoint encodeProperties (objectType : ObjectType) (object : props)
    (partial : bool) (properties : list PropertyInfo) (sqlArguments : props)
  : result props :=
  match properties with
  | [] => Ok sqlArguments
  | (key, type, nullValue) :: properties' =>
    if given partial object key then
      match encodeValue type nullValue (prop object key) with
      | Ok v =>
        encodeProperties objectType object partial properties'
          (Cache.mapSet key v sqlArguments)
      | Throw err =>
        Throw (TypeError (cannotEncode objectType key type (prop object key) err))
      end
    else encodeProperties objectType object partial properties' sqlArguments
  end.

(** The loop over the properties of one sub-object. *)
Fixpoint encodeSubObject (objectType : ObjectType) (key : string)
    (subObject : any) (properties : list PropertyInfo) (sqlArguments : props)
  : result props :=
  match properties with
  | [] => Ok sqlArguments
  | (subKey, type, nullValue) :: properties' =>
    match (if nullish subObject then Ok JNull
           else encodeValue type nullValue (getProp subObject subKey)) with
    | Ok v =>
      encodeSubObject objectType key subObject properties'
        (Cache.mapSet (key ++ "__" ++ subKey)%string v sqlArguments)
    | Throw err =>
      Throw (TypeError (cannotEncode objectType (key ++ "." ++ subKey)%string type
                          (getProp subObject subKey) err))
    end
  end.

(** The second loop of [encodeObject]. *)
Fixpoint encodeSubObjects (objectType : ObjectType) (object : props)
    (partial : bool)
    (subObjects : list (string * list PropertyInfo * option NullValue.t))
    (sqlArguments : props) : result props :=
  match subObjects with
  | [] => Ok sqlArguments
  | (key, properties, _) :: subObjects' =>
    if given partial object key then
      let* sqlArguments :=
        encodeSubObject objectType key (prop object key) properties sqlArguments in
      encodeSubObjects objectType object partial subObjects' sqlArguments
    else encodeSubObjects objectType object partial subObjects' sqlArguments
  end.

Definition encodeObject (objectType : ObjectType) (object : props)
    (partial : bool) : result props :=
  let schema := schemas objectType in
  let* sqlArguments :=
    encodeProperties objectType object partial (properties schema) [] in
  encodeSubObjects objectType object partial (subObjectProperties schema)
    sqlArguments.

(** The first loop of [decodeObject]. *)
Fixpoint decodeProperties (objectType : ObjectType) (sqlResult : props)
    (properties : list PropertyInfo) (object : props) : result props :=
  match properties with
  | [] => Ok object
  | (key, type, nullValue) :: properties' =>
    match decodeValue type nullValue (prop sqlResult key) with
    | Ok value =>
      decodeProperties objectType sqlResult properties'
        (if negb (isUndefined value) then Cache.mapSet key value object
         else object)
    | Throw err =>
      Throw (TypeError (cannotDecode objectType key type (prop sqlResult key) err))
    end
  end.

(** The loop over the properties of one sub-object: what is assigned to
    [object[key]], the sub-object or, at the first property that cannot
    be [NULL] and is, the null value of the sub-object. *)
Fixpoint decodeSubObject (objectType : ObjectType) (sqlResult : props)
    (key : string) (objNullValue : option NullValue.t)
    (properties : list PropertyInfo) (subObject : props) : result any :=
  match properties with
  | [] => Ok (JObject subObject)
  | (subKey, type, propNullValue) :: properties' =>
    let stored := prop sqlResult (key ++ "__" ++ subKey)%string in
    let failed err :=
      Throw (TypeError (cannotDecode objectType (key ++ "." ++ subKey)%string type
                          stored err)) in
    if isNull stored && noNullValue propNullValue then
      match getNullValue objNullValue with
      | Ok v => Ok v
      | Throw err => failed err
      end
    else
      match decodeValue type propNullValue stored with
      | Ok v =>
        decodeSubObject objectType sqlResult key objNullValue properties'
          (Cache.mapSet subKey v subObject)
      | Throw err => failed err
      end
  end.

(** The second loop of [decodeObject]. *)
Fixpoint decodeSubObjects (objectType : ObjectType) (sqlResult : props)
    (subObjects : list (string * list PropertyInfo * option NullValue.t))
    (object : props) : result props :=
  match subObjects with
  | [] => Ok object
  | (key, properties, objNullValue) :: subObjects' =>
    let* v := decodeSubObject objectType sqlResult key objNullValue properties [] in
    decodeSubObjects objectType sqlResult subObjects' (Cache.mapSet key v object)
  end.

Definition decodeObject (objectType : ObjectType) (sqlResult : props)
  : result props :=
  let schema := schemas objectType in
  let* object := decodeProperties objectType sqlResult (properties schema) [] in
  decodeSubObjects objectType sqlResult (subObjectProperties schema) object.

(** *** The objects of the snapshot requests *)

(** [assignTiming(target, timing)] *)
Definition assignTiming (target : props) (timing : option Db.Timing) : props :=
  Cache.mapSet "_timestamp" (JBigInt (Db.encodeTiming timing)) target.

(** [ChannelType] *)
Definition DM : Z := 1.
Definition GroupDM : Z := 3.
Definition AnnouncementThread : Z := 10.

(** [v === n] for an integer literal [n] *)
Definition isNumber (n : Z) (v : any) : bool :=
  match v with JNumber (Int z) => z =? n | _ => false end.

(** [v === s] for a string literal [s] *)
Definition isString (s : string) (v : any) : bool :=
  match v with JString s' => String.eqb s' s | _ => false end.

(** An overwrite of the declared type [APIOverwrite]. *)
Definition readOverwrite (v : any) : option APIOverwrite :=
  match v with
  | JObject o =>
    match prop o "type", prop o "id", prop o "allow", prop o "deny" with
    | JNumber (Int type), JString id, JString allow, JString deny =>
      Some {| ow_type := type; ow_id := id; ow_allow := allow; ow_deny := deny |}
    | _, _, _, _ => None
    end
  | _ => None
  end.

Definition encodePermissionOverwritesValue (value : any) : result any :=
  let* buf :=
    match value with
    | JArray items =>
      match mapM readOverwrite items with
      | Some overwrites => encodePermissionOverwrites overwrites
      | None => encodePermissionOverwritesOther value
      end
    | _ => encodePermissionOverwritesOther value
    end in
  Ok (JUint8Array buf).

(** The requests that add a snapshot of a user, a guild, a role, a member
    or a channel. *)
Variant snapshotRequest :=
| ADD_USER_SNAPSHOT (timing : option Db.Timing) (user : props)
| ADD_GUILD_SNAPSHOT (timing : option Db.Timing) (guild : props)
| ADD_ROLE_SNAPSHOT (timing : option Db.Timing) (role : props) (guildID : string)
| ADD_MEMBER_SNAPSHOT (partial : bool) (timing : option Db.Timing)
    (guildID userID : string) (member : props)
| ADD_CHANNEL_SNAPSHOT (timing : option Db.Timing) (channel : props).

(** The object that the handler of the request hands to [addSnapshot]. *)
Definition snapshotObject (req : snapshotRequest) : result props :=
  match req with
  | ADD_USER_SNAPSHOT timing user =>
    let* o := encodeObject USER user false in
    let discriminator :=
      if isString "0" (prop user "discriminator") then JNull
      else prop user "discriminator" in
    Ok (assignTiming (Cache.mapSet "discriminator" discriminator o) timing)
  | ADD_GUILD_SNAPSHOT timing guild =>
    let* o := encodeObject GUILD guild false in
    Ok (assignTiming o timing)
  | ADD_ROLE_SNAPSHOT timing role guildID =>
    let* o := encodeObject ROLE role false in
    Ok (assignTiming (Cache.mapSet "_guild_id" (JString guildID) o) timing)
  | ADD_MEMBER_SNAPSHOT _ timing guildID userID member =>
    let* o := encodeObject MEMBER member false in
    let o := assignTiming o timing in
    let* guild_id := BigInt guildID in
    let* user_id := BigInt userID in
    Ok (Cache.mapSet "_user_id" (JBigInt user_id)
          (Cache.mapSet "_guild_id" (JBigInt guild_id) o))
  | ADD_CHANNEL_SNAPSHOT timing channel =>
    let* o := encodeObject CHANNEL channel false in
    let type := prop channel "type" in
    let o :=
      if isNumber DM type || isNumber GroupDM type then
        Cache.mapSet "guild_id" (JNumber (Int 0)) o
      else if isNumber Cache.PublicThread type || isNumber Cache.PrivateThread type
              || isNumber AnnouncementThread type then
        Cache.mapSet "guild_id" JNull o
      else o in
    let* overwrites :=
      if nullish (prop channel "permission_overwrites") then Ok JNull
      else encodePermissionOverwritesValue (prop channel "permission_overwrites") in
    Ok (assignTiming (Cache.mapSet "permission_overwrites" overwrites o) timing)
  end.

(** [objectStatements]: the statements of the request. *)
Definition guildSnapshotKeys : list string :=
  ["name"; "icon"; "splash"; "discovery_splash"; "owner_id"; "afk_channel_id";
   "afk_timeout"; "widget_enabled"; "widget_channel_id"; "verification_level";
   "default_message_notifications"; "explicit_content_filter"; "mfa_level";
   "system_channel_id"; "system_channel_flags"; "rules_channel_id";
   "max_presences"; "max_members"; "vanity_url_code"; "description"; "banner";
   "premium_tier"; "premium_subscription_count"; "preferred_locale";
   "public_updates_channel_id"; "max_video_channel_users"; "nsfw_level";
   "premium_progress_bar_enabled"].

Definition roleSnapshotKeys : list string :=
  ["name"; "color"; "hoist"; "icon"; "unicode_emoji"; "position"; "permissions";
   "mentionable"; "flags"; "tags__integration_id";
   "tags__subscription_listing_id"; "tags__available_for_purchase";
   "tags__guild_connections"].

Definition roleObjectKeys : list string :=
  ["_guild_id"; "managed"; "tags__bot_id"; "tags__premium_subscriber"].

Definition channelSnapshotKeys : list string :=
  ["position"; "permission_overwrites"; "name"; "topic"; "nsfw"; "bitrate";
   "user_limit"; "rate_limit_per_user"; "icon"; "owner_id"; "parent_id";
   "rtc_region"; "video_quality_mode"; "thread_metadata__archived";
   "thread_metadata__auto_archive_duration";
   "thread_metadata__archive_timestamp"; "thread_metadata__locked";
   "thread_metadata__invitable"; "thread_metadata__create_timestamp";
   "default_auto_archive_duration"; "flags"; "default_reaction_emoji";
   "default_thread_rate_limit_per_user"; "default_sort_order";
   "default_forum_layout"].

Definition channelObjectKeys : list string := ["guild_id"; "type"].

Definition objectStatements (req : snapshotRequest) : Db.ObjectStatements :=
  match req with
  | ADD_USER_SNAPSHOT _ _ => Db.getStatements Db.userSnapshotKeys ["bot"]
  | ADD_GUILD_SNAPSHOT _ _ => Db.getStatements guildSnapshotKeys []
  | ADD_ROLE_SNAPSHOT _ _ _ => Db.getStatements roleSnapshotKeys roleObjectKeys
  | ADD_MEMBER_SNAPSHOT _ _ _ _ _ => Db.memberStatements
  | ADD_CHANNEL_SNAPSHOT _ _ => Db.getStatements channelSnapshotKeys channelObjectKeys
  end.

(** The named parameters of the statements that [addSnapshot] runs when
    it is not partial. *)
Definition fullAddParameters (st : Db.ObjectStatements) : list string :=
  Db.selectParams (Db.doesExist st) ++ Db.insertParams (Db.addLatestSnapshot st)
  ++ Db.selectParams (Db.isLatestSnapshotEqual st)
  ++ Db.selectParams (Db.getTimestamp st)
  ++ Db.insertSelectParams (Db.copyLatestSnapshot st)
  ++ Db.updateParams (Db.replaceLatestSnapshot st).

(** The columns that [encodeObject] gives a value to. *)
Definition column (key : string) (p : PropertyInfo) : string :=
  (key ++ "__" ++ p.1.1)%string.

Definition columnsGiven (schema : Schema) (object : props) (partial : bool)
  : list string :=
  map (fun p : PropertyInfo => p.1.1)
    (List.filter (fun p : PropertyInfo => given partial object p.1.1)
       (properties schema))
  ++ flat_map (fun s : string * list PropertyInfo * option NullValue.t =>
                 if given partial object s.1.1 then map (column s.1.1) s.1.2
                 else [])
       (subObjectProperties schema).

(** *** What [encodeObject] binds *)

Lemma mapHas_mapSet (k k' : string) (v : any) (m : props) :
  Cache.mapHas k' (Cache.mapSet k v m) = true <->
  k' = k \/ Cache.mapHas k' m = true.
Proof.
  destruct (decide (k = k')) as [<-|Hne].
  - rewrite Cache.mapHas_mapSet_eq. tauto.
  - unfold Cache.mapHas at 1. rewrite Cache.mapGet_mapSet_ne by exact Hne.
    fold (Cache.mapHas k' m). split; [tauto|]. intros [->|H]; [contradiction|exact H].
Qed.

Lemma encodeProperties_binds objectType object partial properties :
  forall sqlArguments sqlArguments',
  encodeProperties objectType object partial properties sqlArguments
  = Ok sqlArguments' ->
  forall c,
    Cache.mapHas c sqlArguments' = true <->
    Cache.mapHas c sqlArguments = true \/
    c ∈ map (fun p : PropertyInfo => p.1.1)
          (List.filter (fun p : PropertyInfo => given partial object p.1.1)
             properties).
Proof.
  induction properties as [|[[key type] nullValue] properties IH];
    intros sqlArguments sqlArguments' Henc c; cbn [encodeProperties] in Henc.
  - injection Henc as <-. cbn [List.filter map]. rewrite elem_of_nil. tauto.
  - cbn [List.filter fst]. destruct (given partial object key).
    + destruct (encodeValue type nullValue (prop object key)) as [v|err];
        [|discriminate].
      rewrite (IH _ _ Henc c), mapHas_mapSet. cbn [map fst].
      rewrite elem_of_cons. tauto.
    + apply (IH _ _ Henc c).
Qed.

Lemma encodeSubObject_binds objectType key subObject properties :
  forall sqlArguments sqlArguments',
  encodeSubObject objectType key subObject properties sqlArguments
  = Ok sqlArguments' ->
  forall c,
    Cache.mapHas c sqlArguments' = true <->
    Cache.mapHas c sqlArguments = true \/ c ∈ map (column key) properties.
Proof.
  induction properties as [|[[subKey type] nullValue] properties IH];
    intros sqlArguments sqlArguments' Henc c; cbn [encodeSubObject] in Henc.
  - injection Henc as <-. cbn [map]. rewrite elem_of_nil. tauto.
  - destruct (if nullish subObject then Ok JNull
              else encodeValue type nullValue (getProp subObject subKey))
      as [v|err]; [|discriminate].
    rewrite (IH _ _ Henc c), mapHas_mapSet. cbn [map].
    rewrite elem_of_cons. unfold column at 2. cbn [fst]. tauto.
Qed.

Lemma encodeSubObjects_binds objectType object partial subObjects :
  forall sqlArguments sqlArguments',
  encodeSubObjects objectType object partial subObjects sqlArguments
  = Ok sqlArguments' ->
  forall c,
    Cache.mapHas c sqlArguments' = true <->
    Cache.mapHas c sqlArguments = true \/
    c ∈ flat_map (fun s : string * list PropertyInfo * option NullValue.t =>
                    if given partial object s.1.1 then map (column s.1.1) s.1.2
                    else [])
          subObjects.
Proof.
  induction subObjects as [|[[key properties] objNullValue] subObjects IH];
    intros sqlArguments sqlArguments' Henc c; cbn [encodeSubObjects] in Henc.
  - injection Henc as <-. cbn [flat_map]. rewrite elem_of_nil. tauto.
  - cbn [flat_map fst snd]. rewrite elem_of_app.
    destruct (given partial object key).
    + destruct (encodeSubObject objectType key (prop object key) properties
                  sqlArguments) as [args|err] eqn:Hsub; [|discriminate].
      cbn [bind] in Henc.
      rewrite (IH _ _ Henc c), (encodeSubObject_binds _ _ _ _ _ _ Hsub c). tauto.
    + rewrite (IH _ _ Henc c), elem_of_nil. tauto.
Qed.

(** Every column of the schema, for a full object. *)
Definition columns (schema : Schema) : list string :=
  map (fun p : PropertyInfo => p.1.1) (properties schema)
  ++ flat_map (fun s : string * list PropertyInfo * option NullValue.t =>
                 map (column s.1.1) s.1.2)
       (subObjectProperties schema).

Lemma columnsGiven_full schema object :
  columnsGiven schema object false = columns schema.
Proof.
  unfold columnsGiven, columns, given. cbn [andb negb]. f_equal.
  induction (properties schema) as [|p ps IH]; [reflexivity|].
  cbn [List.filter map]. rewrite IH. reflexivity.
Qed.

Lemma encodeObject_columns objectType object partial sqlArguments :
  encodeObject objectType object partial = Ok sqlArguments ->
  forall c,
    Cache.mapHas c sqlArguments = true <->
    c ∈ columnsGiven (schemas objectType) object partial.
Proof.
  unfold encodeObject. intros Henc c.
  destruct (encodeProperties objectType object partial
              (properties (schemas objectType)) []) as [args|err] eqn:Hprops;
    [|discriminate].
  cbn [bind] in Henc.
  rewrite (encodeSubObjects_binds _ _ _ _ _ _ Henc c),
    (encodeProperties_binds _ _ _ _ _ _ Hprops c).
  unfold columnsGiven. rewrite elem_of_app.
  change (Cache.mapHas c [] = true) with (false = true).
  split; [intros [[H|H]|H]|intros [H|H]]; try discriminate; tauto.
Qed.

(** The columns that an encoded object binds are those of the schema,
    all of them for a full object and, for a partial one, those of the
    properties and of the sub-objects that the object has. *)
Theorem encodeObject_binds objectType object partial sqlArguments :
  encodeObject objectType object partial = Ok sqlArguments ->
  (forall c,
     Cache.mapHas c sqlArguments = true <->
     c ∈ columnsGiven (schemas objectType) object partial) /\
  (partial = false ->
   forall c, Cache.mapHas c sqlArguments = true <-> c ∈ columns (schemas objectType)).
Proof.
  intros Henc. split; [exact (encodeObject_columns _ _ _ _ Henc)|].
  intros -> c. rewrite <- (columnsGiven_full _ object).
  exact (encodeObject_columns _ _ _ _ Henc c).
Qed.

Definition covers (keys parameters : list string) : bool :=
  forallb (fun p => bool_decide (p ∈ keys)) parameters.

Lemma covers_Forall keys parameters (o : props) :
  covers keys parameters = true ->
  (forall k, k ∈ keys -> Cache.mapHas k o = true) ->
  Forall (fun p => Cache.mapHas p o = true) parameters.
Proof.
  intros Hcov Hkeys. apply Forall_forall. intros p Hp.
  unfold covers in Hcov. rewrite forallb_forall in Hcov.
  apply Hkeys. exact (bool_decide_eq_true_1 _ (Hcov p (proj1 (list_elem_of_In _ _) Hp))).
Qed.

Lemma covers_statements :
  covers ("discriminator" :: "_timestamp" :: columns (schemas USER))
    (fullAddParameters (Db.getStatements Db.userSnapshotKeys ["bot"])) = true /\
  covers ("_timestamp" :: columns (schemas GUILD))
    (fullAddParameters (Db.getStatements guildSnapshotKeys [])) = true /\
  covers ("_guild_id" :: "_timestamp" :: columns (schemas ROLE))
    (fullAddParameters (Db.getStatements roleSnapshotKeys roleObjectKeys)) = true /\
  covers ("_user_id" :: "_guild_id" :: "_timestamp" :: columns (schemas MEMBER))
    (fullAddParameters Db.memberStatements) = true /\
  covers ("permission_overwrites" :: "_timestamp" :: columns (schemas CHANNEL))
    (fullAddParameters (Db.getStatements channelSnapshotKeys channelObjectKeys))
  = true.
Proof. repeat split; vm_compute; reflexivity. Qed.

Lemma mapHas_assignTiming k (o : props) timing :
  Cache.mapHas k (assignTiming o timing) = true <->
  k = "_timestamp" \/ Cache.mapHas k o = true.
Proof. apply mapHas_mapSet. Qed.

(** The object that a request for a full snapshot of a user, a guild, a
    role, a member or a channel hands to [addSnapshot] has a property
    for every named parameter of the statements that [addSnapshot] runs:
    none of them fails for a missing parameter. *)
Theorem snapshotObject_binds_every_parameter req o :
  snapshotObject req = Ok o ->
  Forall (fun p => Cache.mapHas p o = true)
    (fullAddParameters (objectStatements req)).
Proof.
  destruct covers_statements as (Huser & Hguild & Hrole & Hmember & Hchannel).
  destruct req as [timing user|timing guild|timing role guildID
                  |partial timing guildID userID member|timing channel];
    cbn [snapshotObject objectStatements];
    (destruct (encodeObject _ _ false) as [args|err] eqn:Henc; [|discriminate]);
    pose proof (encodeObject_columns _ _ _ _ Henc) as Hargs;
    setoid_rewrite columnsGiven_full in Hargs; cbn [bind].
  - intros [= <-]. apply (covers_Forall _ _ _ Huser). intros k Hk.
    rewrite mapHas_assignTiming, mapHas_mapSet, Hargs.
    rewrite !elem_of_cons in Hk. tauto.
  - intros [= <-]. apply (covers_Forall _ _ _ Hguild). intros k Hk.
    rewrite mapHas_assignTiming, Hargs. rewrite !elem_of_cons in Hk. tauto.
  - intros [= <-]. apply (covers_Forall _ _ _ Hrole). intros k Hk.
    rewrite mapHas_assignTiming, mapHas_mapSet, Hargs.
    rewrite !elem_of_cons in Hk. tauto.
  - destruct (BigInt guildID) as [g|]; [|discriminate].
    destruct (BigInt userID) as [u|]; [|discriminate].
    intros [= <-]. apply (covers_Forall _ _ _ Hmember). intros k Hk.
    rewrite !mapHas_mapSet, mapHas_assignTiming, Hargs.
    rewrite !elem_of_cons in Hk. tauto.
  - destruct (if nullish (prop channel "permission_overwrites") then Ok JNull
              else encodePermissionOverwritesValue
                     (prop channel "permission_overwrites")) as [ow|];
      [|discriminate].
    intros [= <-]. apply (covers_Forall _ _ _ Hchannel). intros k Hk.
    rewrite mapHas_assignTiming, mapHas_mapSet.
    rewrite !elem_of_cons in Hk.
    destruct Hk as [->|[->|Hk]]; [tauto|tauto|]. right. right.
    apply Hargs in Hk.
    destruct (isNumber DM (prop channel "type")
              || isNumber GroupDM (prop channel "type"));
      [apply mapHas_mapSet; tauto|].
    destruct (isNumber Cache.PublicThread (prop channel "type")
              || isNumber Cache.PrivateThread (prop channel "type")
              || isNumber AnnouncementThread (prop channel "type"));
      [apply mapHas_mapSet; tauto|exact Hk].
Qed.

(** *** Values that are missing *)

(** What [getNullValue] returns for a null value that is given. *)
Definition nullValueOf (nullValue : NullValue.t) : any :=
  match nullValue with
  | NullValue.ABSENT => JUndefined
  | NullValue.NULL => JNull
  | NullValue.EMPTY_ARRAY => JArray []
  end.

Lemma decodeValue_null type nullValue :
  decodeValue type (Some nullValue) JNull = Ok (nullValueOf nullValue).
Proof. destruct nullValue; reflexivity. Qed.

(** A property whose value is [undefined] or [null].  A strict boolean
    is stored as [0n] and read back as [false].  For a type other than
    that and [NULL], a property without a null value is refused, and one
    with a null value is stored as SQL [NULL] and read back as that null
    value, whichever of [undefined] and [null] it was.  For the type
    [NULL], [undefined] is stored as SQL [NULL], and [null] is stored as
    [0] and read back as [null]. *)
Theorem missing_value_roundtrip type nullValue (v : any) :
  nullish v = true ->
  (type = STRICT_BOOLEAN ->
   encodeValue type nullValue v = Ok (JBigInt 0) /\
   decodeValue type nullValue (JBigInt 0) = Ok (JBoolean false)) /\
  (type <> STRICT_BOOLEAN -> type <> ValueType.NULL ->
   match nullValue with
   | None =>
     encodeValue type nullValue v = Throw (TypeError "The NULL value is undefined.")
   | Some given =>
     encodeValue type nullValue v = Ok JNull /\
     decodeValue type nullValue JNull = Ok (nullValueOf given)
   end) /\
  (type = ValueType.NULL ->
   (v = JUndefined -> encodeValue type nullValue v = Ok JNull) /\
   (v = JNull ->
    encodeValue type nullValue v = Ok (JNumber (Int 0)) /\
    decodeValue type nullValue (JNumber (Int 0)) = Ok JNull)).
Proof.
  intros Hv. split; [|split].
  - intros ->. split; [|reflexivity].
    destruct v; try discriminate Hv; destruct nullValue as [[| |]|]; reflexivity.
  - intros Hstrict Hnull.
    destruct nullValue as [given|].
    + split; [|apply decodeValue_null].
      destruct v; try discriminate Hv; destruct type; try reflexivity;
        contradiction.
    + destruct v; try discriminate Hv; destruct type; try reflexivity;
        contradiction.
  - intros ->. split; [intros ->|intros ->; split].
    + destruct nullValue as [[| |]|]; reflexivity.
    + destruct nullValue as [[| |]|]; reflexivity.
    + reflexivity.
Qed.

(** *** Sub-objects that are missing *)

Lemma null_columns_kept key (properties : list PropertyInfo) c :
  forall sqlArguments : props,
  prop sqlArguments c = JNull ->
  prop (fold_left (fun a p => Cache.mapSet (column key p) JNull a)
          properties sqlArguments) c = JNull.
Proof.
  induction properties as [|p properties IH]; intros sqlArguments Hc;
    [exact Hc|].
  cbn [fold_left]. apply IH. unfold prop.
  destruct (decide (column key p = c)) as [<-|Hne].
  - rewrite Cache.mapGet_mapSet_eq. reflexivity.
  - rewrite Cache.mapGet_mapSet_ne by exact Hne. exact Hc.
Qed.

Lemma encodeSubObject_missing objectType key (subObject : any) properties :
  nullish subObject = true ->
  forall sqlArguments,
  encodeSubObject objectType key subObject properties sqlArguments
  = Ok (fold_left (fun a p => Cache.mapSet (column key p) JNull a)
          properties sqlArguments).
Proof.
  intros Hsub. induction properties as [|[[subKey type] nullValue] properties IH];
    intros sqlArguments; [reflexivity|].
  cbn [encodeSubObject fold_left]. rewrite Hsub. apply IH.
Qed.

(** The sub-object that [decodeSubObject] builds when every property has
    a null value and every column is [NULL]. *)
Definition subObjectOfNulls (properties : list PropertyInfo) : props :=
  Cache.mapOf
    (map (fun p : PropertyInfo =>
            (p.1.1, match p.2 with
                    | Some nullValue => nullValueOf nullValue
                    | None => JUndefined
                    end))
       properties).

Lemma decodeSubObject_nulls objectType sqlResult key given properties :
  Forall (fun p => prop sqlResult (column key p) = JNull) properties ->
  forall subObject,
  decodeSubObject objectType sqlResult key (Some given) properties subObject
  = Ok (if existsb (fun p : PropertyInfo => noNullValue p.2) properties
        then nullValueOf given
        else JObject
               (fold_left (fun o e => Cache.mapSet e.1 e.2 o)
                  (map (fun p : PropertyInfo =>
                          (p.1.1, match p.2 with
                                  | Some nullValue => nullValueOf nullValue
                                  | None => JUndefined
                                  end))
                     properties)
                  subObject)).
Proof.
  induction 1 as [|[[subKey type] propNullValue] properties Hnull _ IH];
    intros subObject; [reflexivity|].
  cbn [decodeSubObject existsb snd map fold_left fst].
  unfold column in Hnull. cbn [fst] in Hnull. rewrite Hnull. cbn [isNull andb].
  destruct propNullValue as [nullValue|]; cbn [noNullValue orb].
  - rewrite decodeValue_null. apply IH.
  - destruct given; reflexivity.
Qed.

(** A sub-object that is [undefined] or [null] is stored with every one
    of its columns [NULL].  Read back from such columns, it is the null
    value of the sub-object when one of its properties has no null value
    of its own; when all of them have one, it is an object that holds
    the null value of each property. *)
Theorem missing_subObject_roundtrip
    objectType key given properties (subObject : any) sqlArguments sqlResult :
  nullish subObject = true ->
  (exists sqlArguments',
     encodeSubObject objectType key subObject properties sqlArguments
     = Ok sqlArguments' /\
     Forall (fun p => prop sqlArguments' (column key p) = JNull) properties) /\
  (Forall (fun p => prop sqlResult (column key p) = JNull) properties ->
   decodeSubObject objectType sqlResult key (Some given) properties []
   = Ok (if existsb (fun p : PropertyInfo => noNullValue p.2) properties
         then nullValueOf given
         else JObject (subObjectOfNulls properties))).
Proof.
  intros Hsub. split.
  - eexists. split; [apply encodeSubObject_missing, Hsub|].
    clear Hsub. revert sqlArguments.
    induction properties as [|p properties IH]; intros sqlArguments;
      constructor.
    + cbn [fold_left]. apply null_columns_kept. unfold prop.
      rewrite Cache.mapGet_mapSet_eq. reflexivity.
    + apply IH.
  - intros Hnull. apply (decodeSubObject_nulls _ _ _ _ _ Hnull).
Qed.

(** *** Properties that cannot be missing *)

(** The property has no null value and its type is neither
    [STRICT_BOOLEAN] nor [NULL]. *)
Definition cannotBeMissing (p : PropertyInfo) : bool :=
  noNullValue p.2 && negb (isNULL p.1.2 || isSTRICT_BOOLEAN p.1.2).

Lemma encodeValue_cannotBeMissing key type nullValue (v : any) :
  cannotBeMissing (key, type, nullValue) = true -> nullish v = true ->
  encodeValue type nullValue v = Throw (TypeError "The NULL value is undefined.").
Proof.
  unfold cannotBeMissing. cbn [fst snd]. intros Hp Hv.
  destruct nullValue; [discriminate|].
  destruct v; try discriminate Hv; destruct type; try discriminate Hp;
    reflexivity.
Qed.

Lemma encodeProperties_cannotBeMissing objectType object properties :
  Exists (fun p : PropertyInfo =>
            cannotBeMissing p = true /\ nullish (prop object p.1.1) = true)
    properties ->
  forall sqlArguments, exists message,
    encodeProperties objectType object false properties sqlArguments
    = Throw (TypeError message).
Proof.
  induction properties as [|[[key type] nullValue] properties IH];
    intros Hmissing sqlArguments; [inversion Hmissing|].
  cbn [encodeProperties]. unfold given. cbn [andb negb].
  apply Exists_cons in Hmissing as [[Hp Hv]|Hmissing].
  - cbn [fst] in Hv. rewrite (encodeValue_cannotBeMissing _ _ _ _ Hp Hv).
    eexists. reflexivity.
  - destruct (encodeValue type nullValue (prop object key)) as [v|err].
    + apply IH, Hmissing.
    + eexists. reflexivity.
Qed.

Lemma decodeProperties_cannotBeMissing objectType sqlResult properties :
  Exists (fun p : PropertyInfo =>
            prop sqlResult p.1.1 = JUndefined \/
            (noNullValue p.2 = true /\ prop sqlResult p.1.1 = JNull))
    properties ->
  forall object, exists message,
    decodeProperties objectType sqlResult properties object
    = Throw (TypeError message).
Proof.
  induction properties as [|[[key type] nullValue] properties IH];
    intros Hmissing object; [inversion Hmissing|].
  cbn [decodeProperties].
  apply Exists_cons in Hmissing as [Hp|Hmissing].
  - cbn [fst snd] in Hp. unfold decodeValue.
    destruct Hp as [->|[Hnone ->]]; cbn [isNull isUndefined].
    + eexists. reflexivity.
    + destruct nullValue; [discriminate|]. eexists. reflexivity.
  - destruct (decodeValue type nullValue (prop sqlResult key)) as [v|err].
    + apply IH, Hmissing.
    + eexists. reflexivity.
Qed.

(** A full object in which a property that cannot be missing is
    [undefined] or [null] is not encoded, and a row in which a column of
    a property is missing, or is [NULL] when the property has no null
    value, is not decoded: both calls throw a [TypeError]. *)
Theorem required_properties objectType :
  (forall object,
     Exists (fun p : PropertyInfo =>
               cannotBeMissing p = true /\ nullish (prop object p.1.1) = true)
       (properties (schemas objectType)) ->
     exists message,
       encodeObject objectType object false = Throw (TypeError message)) /\
  (forall sqlResult,
     Exists (fun p : PropertyInfo =>
               prop sqlResult p.1.1 = JUndefined \/
               (noNullValue p.2 = true /\ prop sqlResult p.1.1 = JNull))
       (properties (schemas objectType)) ->
     exists message,
       decodeObject objectType sqlResult = Throw (TypeError message)).
Proof.
  split.
  - intros object Hmissing. unfold encodeObject.
    destruct (encodeProperties_cannotBeMissing objectType object _ Hmissing [])
      as [message ->].
    exists message. reflexivity.
  - intros sqlResult Hmissing. unfold decodeObject.
    destruct (decodeProperties_cannotBeMissing objectType sqlResult _ Hmissing [])
      as [message ->].
    exists message. reflexivity.
Qed.

End Values.

(** *** Examples

    The examples call none of the conversions of the runtime but
    [BigInt], of a string of digits or of an integer. *)
#[export] Instance integers : Runtime :=
  {| fraction := Empty_set;
     BigIntOf v :=
       match v with
       | JString s => BigInt s
       | JNumber (Int z) | JBigInt z => Ok z
       | JBoolean b => Ok (Z.b2z b)
       | _ => Throw (TypeError "Cannot convert the value to a BigInt")
       end;
     NumberOf _ := Int 0;
     StringOf _ := EmptyString;
     truthy _ := true;
     bufferFromBase64 _ := Ok [];
     bufferToBase64 _ := Ok EmptyString;
     dateGetTime _ := Int 0;
     dateToISOString _ := Ok EmptyString;
     JSONstringify v := Ok v;
     JSONparse v := Ok v;
     propertyOf _ _ := JUndefined;
     encodeSnowflakeArrayOther _ := Ok [];
     encodePermissionOverwritesOther _ := Ok [];
     cannotEncode _ key _ _ _ := key;
     cannotDecode _ key _ _ _ := key |}.

(** A user as the platform sends it, without [public_flags], and a
    partial user that holds a new name alone. *)
Definition ann : props :=
  [ ("id", JString "10"); ("username", JString "ann");
    ("discriminator", JString "0"); ("global_name", JNull);
    ("avatar", JNull) ].

Definition renamed : props := [ ("id", JString "10"); ("username", JString "anna") ].

Definition annArguments : props :=
  [ ("id", JString "10"); ("bot", JBigInt 0); ("username", JString "ann");
    ("global_name", JNull); ("avatar", JNull); ("public_flags", JNull) ].

Definition renamedArguments : props :=
  [ ("id", JString "10"); ("username", JString "anna") ].

Lemma encodeObject_ann :
  encodeObject USER ann false = Ok annArguments /\
  encodeObject USER renamed true = Ok renamedArguments.
Proof. split; vm_compute; reflexivity. Qed.

Lemma encodeObject_binds_witness :
  (Cache.mapHas "username" renamedArguments = true <->
   "username" ∈ columnsGiven (schemas USER) renamed true) /\
  (Cache.mapHas "avatar" renamedArguments = true <->
   "avatar" ∈ columnsGiven (schemas USER) renamed true).
Proof.
  split;
    apply (encodeObject_binds USER renamed true renamedArguments
             (proj2 encodeObject_ann)).
Defined.

Definition annObject : props :=
  [ ("id", JString "10"); ("bot", JBigInt 0); ("username", JString "ann");
    ("global_name", JNull); ("avatar", JNull); ("public_flags", JNull);
    ("discriminator", JNull); ("_timestamp", JBigInt 0) ].

Lemma snapshotObject_ann :
  snapshotObject (ADD_USER_SNAPSHOT None ann) = Ok annObject.
Proof. vm_compute. reflexivity. Qed.

Lemma snapshotObject_binds_every_parameter_witness :
  Forall (fun p => Cache.mapHas p annObject = true)
    (fullAddParameters (objectStatements (ADD_USER_SNAPSHOT None ann))).
Proof.
  apply (snapshotObject_binds_every_parameter (ADD_USER_SNAPSHOT None ann)).
  apply snapshotObject_ann.
Defined.

Lemma missing_value_roundtrip_witness :
  encodeValue STRING NULL_ JUndefined = Ok JNull /\
  decodeValue STRING NULL_ JNull = Ok JNull.
Proof.
  refine (proj1 (proj2 (missing_value_roundtrip STRING NULL_ JUndefined _)) _ _);
    [reflexivity|discriminate|discriminate].
Defined.

(** The columns of a role without [tags] and of a channel without
    [thread_metadata], all [NULL]. *)
Definition nulls (key : string) (properties : list PropertyInfo) : props :=
  map (fun p => (column key p, JNull)) properties.

Lemma nulls_null key properties :
  Forall (fun p => prop (nulls key properties) (column key p) = JNull) properties.
Proof.
  apply Forall_forall. intros p Hp. unfold prop, nulls, Cache.mapGet.
  induction properties as [|q properties IH]; [apply elem_of_nil in Hp as []|].
  cbn [map List.find fst].
  destruct (bool_decide (column key q = column key p)) eqn:Hq; [reflexivity|].
  apply IH. apply elem_of_cons in Hp as [->|Hp]; [|exact Hp].
  rewrite bool_decide_eq_true_2 in Hq by reflexivity. discriminate Hq.
Qed.

Lemma missing_subObject_roundtrip_witness :
  decodeSubObject ROLE (nulls "tags" tags) "tags" ABSENT tags []
  = Ok (JObject [ ("bot_id", JUndefined); ("integration_id", JUndefined);
                  ("premium_subscriber", JUndefined);
                  ("subscription_listing_id", JUndefined);
                  ("available_for_purchase", JUndefined);
                  ("guild_connections", JUndefined) ]) /\
  decodeSubObject CHANNEL (nulls "thread_metadata" thread_metadata)
    "thread_metadata" ABSENT thread_metadata []
  = Ok JUndefined.
Proof.
  split.
  - apply (proj2 (missing_subObject_roundtrip ROLE "tags" NullValue.ABSENT tags
                    JUndefined [] (nulls "tags" tags) eq_refl)).
    apply nulls_null.
  - apply (proj2 (missing_subObject_roundtrip CHANNEL "thread_metadata"
                    NullValue.ABSENT thread_metadata JUndefined []
                    (nulls "thread_metadata" thread_metadata) eq_refl)).
    apply nulls_null.
Defined.

End Objects.
